(** * Substrait-to-Velox plan conversion: the filter-pushdown analyzer

    A shallow embedding of [velox/substrait/SubstraitToVeloxPlan.cpp]:
    flattening of scan filters, the pushdown eligibility analysis, the
    per-column constraint accumulator, the subfield filter builder, the
    format-level veto, join-key extraction and the stream-input test.

    C++ exceptions ([VELOX_FAIL], [VELOX_NYI], [VELOX_CHECK]) are values of
    an error monad; the mutable containers of the converter are threaded
    explicitly. *)

From stdpp Require Import base gmap strings pretty list fin_maps.
From Equations.Prop Require Import Equations Logic.
From Stdlib Require Import ZArith Ascii.

Set Warnings "-register-all".
Local Open Scope string_scope.
Local Open Scope Z_scope.
Local Open Scope list_scope.

(** ** Errors and the result monad *)

(** The exception macros of Velox, each carrying the message (template) of
    its call site.  [Undefined] marks behaviour the C++ leaves undefined
    (an index outside a container, a null [shared_ptr]). *)
Inductive VeloxError : Type :=
| UserFail (msg : string)
| NotImplemented (msg : string)
| CheckFailed (msg : string)
| Undefined (what : string).

Inductive result (A : Type) : Type :=
| Ok (a : A)
| Err (e : VeloxError).
Arguments Ok {A} a.
Arguments Err {A} e.

#[global] Instance result_ret : MRet result := fun A a => Ok a.
#[global] Instance result_bind : MBind result :=
  fun A B f m => match m with Ok a => f a | Err e => Err e end.

Definition isOk {A} (r : result A) : bool :=
  match r with Ok _ => true | Err _ => false end.

(** [VELOX_CHECK(cond, msg)]. *)
Definition VELOX_CHECK (cond : bool) (msg : string) : result unit :=
  if cond then Ok tt else Err (CheckFailed msg).

(** Indexing a container with [operator[]]; outside the bounds the C++ is
    undefined. *)
Definition at_index {A} (what : string) (l : list A) (i : nat) : result A :=
  match l !! i with
  | Some a => Ok a
  | None => Err (Undefined what)
  end.

(** ** Substrait expressions *)

(** An IEEE-754 binary64 value, kept as its bit pattern: the converter only
    moves such values around. *)
Record double : Type := Fp64 { bits : Z }.

Inductive Literal : Type :=
| LitBoolean (b : bool)
| LitI32 (z : Z)
| LitI64 (z : Z)
| LitFp64 (d : double)
| LitString (s : string)
| LitList (values : list Literal)
| LitNull.

(** Protobuf accessors return the default of the field when another
    member of the oneof is set. *)
Definition lit_i32 (l : Literal) : Z :=
  match l with LitI32 z => z | _ => 0 end.
Definition lit_i64 (l : Literal) : Z :=
  match l with LitI64 z => z | _ => 0 end.
Definition lit_fp64 (l : Literal) : double :=
  match l with LitFp64 d => d | _ => Fp64 0 end.
Definition lit_string (l : Literal) : string :=
  match l with LitString s => s | _ => "" end.
Definition has_list (l : Literal) : bool :=
  match l with LitList _ => true | _ => false end.
Definition lit_list (l : Literal) : list Literal :=
  match l with LitList vs => vs | _ => [] end.

(** A field reference; the analyzer only understands a direct reference
    to a top-level struct field. *)
Inductive FieldReference : Type :=
| DirectStructField (field : nat)
| OtherReference.

Definition has_direct_reference (f : FieldReference) : bool :=
  match f with DirectStructField _ => true | OtherReference => false end.

(** The [rex_type] oneof of [substrait::Expression].  The kinds the
    analyzer does not look into carry no payload here. *)
Inductive Expression : Type :=
| ELiteral (l : Literal)
| ESelection (f : FieldReference)
| EScalarFunction (function_reference : N) (args : list Expression)
| EIfThen
| ECast
| ENotSet.

Inductive RexTypeCase : Type :=
| kLiteral | kSelection | kScalarFunction | kIfThen | kCast | REX_TYPE_NOT_SET.

Definition rex_type_case (e : Expression) : RexTypeCase :=
  match e with
  | ELiteral _ => kLiteral
  | ESelection _ => kSelection
  | EScalarFunction _ _ => kScalarFunction
  | EIfThen => kIfThen
  | ECast => kCast
  | ENotSet => REX_TYPE_NOT_SET
  end.

(** [substrait::Expression_ScalarFunction]. *)
Record ScalarFunction : Type := mkScalarFunction {
  function_reference : N;
  args : list Expression
}.

Definition has_scalar_function (e : Expression) : bool :=
  match e with EScalarFunction _ _ => true | _ => false end.
Definition has_selection (e : Expression) : bool :=
  match e with ESelection _ => true | _ => false end.
Definition has_literal (e : Expression) : bool :=
  match e with ELiteral _ => true | _ => false end.

Definition scalar_function (e : Expression) : ScalarFunction :=
  match e with
  | EScalarFunction r a => mkScalarFunction r a
  | _ => mkScalarFunction 0%N []
  end.
Definition selection (e : Expression) : FieldReference :=
  match e with ESelection f => f | _ => OtherReference end.
Definition literal (e : Expression) : Literal :=
  match e with ELiteral l => l | _ => LitNull end.

Definition toExpression (sf : ScalarFunction) : Expression :=
  EScalarFunction (function_reference sf) (args sf).

(** ** The function registry *)

(** Substrait function names. *)
Definition sIsNotNull : string := "is_not_null".
Definition sGte : string := "gte".
Definition sGt : string := "gt".
Definition sLte : string := "lte".
Definition sLt : string := "lt".
Definition sEqual : string := "equal".
Definition sIn : string := "in".
Definition sOr : string := "or".
Definition sNot : string := "not".

(** Substrait types. *)
Definition sI32 : string := "i32".
Definition sI64 : string := "i64".

(** Modelled from the spec: [SubstraitParser::findSubstraitFuncSpec], the
    registry lookup [bind(anchor)]: a plain lookup in the function map, a
    miss is a fatal unknown-function error. *)
Definition findSubstraitFuncSpec (functionMap : gmap N string) (id : N)
  : result string :=
  match functionMap !! id with
  | Some spec => Ok spec
  | None => Err (UserFail "Could not find function id in function map.")
  end.

(** Modelled from the spec: [SubstraitParser::getSubFunctionName], the
    first component of [splitSignature]: the bare function name, the text
    before the colon ([gte:i32_i32] gives [gte]). *)
Fixpoint getSubFunctionName (subFuncSpec : string) : string :=
  match subFuncSpec with
  | EmptyString => EmptyString
  | String c rest =>
      if Ascii.eqb c ":"%char then EmptyString
      else String c (getSubFunctionName rest)
  end.

Fixpoint after_colon (s : string) : option string :=
  match s with
  | EmptyString => None
  | String c rest => if Ascii.eqb c ":"%char then Some rest else after_colon rest
  end.

Fixpoint split_underscore (cur : string) (s : string) : list string :=
  match s with
  | EmptyString => [cur]
  | String c rest =>
      if Ascii.eqb c "_"%char then cur :: split_underscore EmptyString rest
      else split_underscore (cur +:+ String c EmptyString) rest
  end.

(** Modelled from the spec: [SubstraitParser::getSubFunctionTypes], the
    second component of [splitSignature]: the argument-type tags after the
    colon, separated by underscores ([gte:i32_i32] gives [i32; i32]). *)
Definition getSubFunctionTypes (subFuncSpec : string) : list string :=
  match after_colon subFuncSpec with
  | None => []
  | Some EmptyString => []
  | Some tags => split_underscore EmptyString tags
  end.

(** Modelled from the spec: [SubstraitParser::parseReferenceSegment] on
    the [direct_reference] of a selection: the index of the referenced
    column; other reference kinds are not supported. *)
Definition parseReferenceSegment (f : FieldReference) : result nat :=
  match f with
  | DirectStructField i => Ok i
  | OtherReference =>
      Err (NotImplemented "Substrait conversion not supported for ReferenceSegment")
  end.

(** ** Column types, literal variants and filter primitives *)

Inductive TypeKind : Type :=
| BOOLEAN | TINYINT | SMALLINT | INTEGER | BIGINT | REAL | DOUBLE
| VARCHAR | VARBINARY | TIMESTAMP.

(** [velox::variant]: a value tagged with its type kind. *)
Inductive variant : Type :=
| VInteger (z : Z)
| VBigint (z : Z)
| VDouble (d : double)
| VVarchar (s : string).

(** Modelled from the spec: [SubstraitVeloxExprConverter::toTypedVariant],
    the contract [toLiteralVariant]: a tagged scalar value that preserves
    the literal's Substrait type (i32, i64, fp64, string). *)
Definition toTypedVariant (l : Literal) : result variant :=
  match l with
  | LitI32 z => Ok (VInteger z)
  | LitI64 z => Ok (VBigint z)
  | LitFp64 d => Ok (VDouble d)
  | LitString s => Ok (VVarchar s)
  | _ => Err (NotImplemented "ToVariant not supported for literal type")
  end.

Inductive FilterKind : Type :=
| kAlwaysFalse | kAlwaysTrue | kIsNull | kIsNotNull | kBoolValue
| kBigintRange | kBigintValuesUsingHashTable | kBigintValuesUsingBitmask
| kDoubleRange | kFloatRange | kBytesRange | kBytesValues
| kBigintMultiRange | kMultiRange.

(** [common::Filter] and its subclasses.  A range carries (lower,
    lowerUnbounded, lowerExclusive, upper, upperUnbounded, upperExclusive,
    nullAllowed). *)
Inductive Filter : Type :=
| AlwaysFalse
| AlwaysTrue
| IsNull
| IsNotNull
| BoolValue (value nullAllowed : bool)
| BigintRange (lower : Z) (lowerUnbounded lowerExclusive : bool)
              (upper : Z) (upperUnbounded upperExclusive : bool)
              (nullAllowed : bool)
| DoubleRange (lower : double) (lowerUnbounded lowerExclusive : bool)
              (upper : double) (upperUnbounded upperExclusive : bool)
              (nullAllowed : bool)
| FloatRange (lower : double) (lowerUnbounded lowerExclusive : bool)
             (upper : double) (upperUnbounded upperExclusive : bool)
             (nullAllowed : bool)
| BytesRange (lower : string) (lowerUnbounded lowerExclusive : bool)
             (upper : string) (upperUnbounded upperExclusive : bool)
             (nullAllowed : bool)
| BytesValues (values : list string) (nullAllowed : bool)
| BigintValuesUsingHashTable (values : list Z) (nullAllowed : bool)
| BigintValuesUsingBitmask (values : list Z) (nullAllowed : bool)
| BigintMultiRange (ranges : list Filter) (nullAllowed : bool)
| MultiRange (filters : list Filter) (nullAllowed : bool).

Definition kind (f : Filter) : FilterKind :=
  match f with
  | AlwaysFalse => kAlwaysFalse
  | AlwaysTrue => kAlwaysTrue
  | IsNull => kIsNull
  | IsNotNull => kIsNotNull
  | BoolValue _ _ => kBoolValue
  | BigintRange _ _ _ _ _ _ _ => kBigintRange
  | DoubleRange _ _ _ _ _ _ _ => kDoubleRange
  | FloatRange _ _ _ _ _ _ _ => kFloatRange
  | BytesRange _ _ _ _ _ _ _ => kBytesRange
  | BytesValues _ _ => kBytesValues
  | BigintValuesUsingHashTable _ _ => kBigintValuesUsingHashTable
  | BigintValuesUsingBitmask _ _ => kBigintValuesUsingBitmask
  | BigintMultiRange _ _ => kBigintMultiRange
  | MultiRange _ _ => kMultiRange
  end.

(** Modelled from the spec: [RangeTraits<KIND>] of the converter's header,
    which is not among the sources: integer columns use [BigintRange] and
    [BigintMultiRange], the other columns the range typed by the column
    and the generic [MultiRange].  The class also carries [getLowest<T>],
    [getMax<T>] and [variant::value<T>] at the native type. *)
Class RangeTraits (KIND : TypeKind) : Type := {
  NativeType : Type;
  value : variant -> result NativeType;
  getLowest : NativeType;
  getMax : NativeType;
  RangeType :
    NativeType -> bool -> bool -> NativeType -> bool -> bool -> bool -> Filter;
  MultiRangeType : list Filter -> bool -> Filter
}.

Definition wrongKind {A} : result A :=
  Err (CheckFailed "wrong kind! variant::value<T>() on another kind").

Definition value_int32 (v : variant) : result Z :=
  match v with VInteger z => Ok z | _ => wrongKind end.
Definition value_int64 (v : variant) : result Z :=
  match v with VBigint z => Ok z | _ => wrongKind end.
Definition value_double (v : variant) : result double :=
  match v with VDouble d => Ok d | _ => wrongKind end.
Definition value_string (v : variant) : result string :=
  match v with VVarchar s => Ok s | _ => wrongKind end.

(** [std::numeric_limits<double>::lowest()] and [max()], as bit patterns. *)
Definition DBL_LOWEST : double := Fp64 0xFFEFFFFFFFFFFFFF.
Definition DBL_MAX : double := Fp64 0x7FEFFFFFFFFFFFFF.

#[global] Instance RangeTraits_INTEGER : RangeTraits INTEGER := {|
  NativeType := Z;
  value := value_int32;
  getLowest := - 2 ^ 31;
  getMax := 2 ^ 31 - 1;
  RangeType := BigintRange;
  MultiRangeType := BigintMultiRange
|}.

#[global] Instance RangeTraits_BIGINT : RangeTraits BIGINT := {|
  NativeType := Z;
  value := value_int64;
  getLowest := - 2 ^ 63;
  getMax := 2 ^ 63 - 1;
  RangeType := BigintRange;
  MultiRangeType := BigintMultiRange
|}.

#[global] Instance RangeTraits_DOUBLE : RangeTraits DOUBLE := {|
  NativeType := double;
  value := value_double;
  getLowest := DBL_LOWEST;
  getMax := DBL_MAX;
  RangeType := DoubleRange;
  MultiRangeType := MultiRange
|}.

#[global] Instance RangeTraits_VARCHAR : RangeTraits VARCHAR := {|
  NativeType := string;
  value := value_string;
  getLowest := "";
  getMax := "";
  RangeType := BytesRange;
  MultiRangeType := MultiRange
|}.

(** ** FilterInfo *)

(** Modelled from the spec: the class [FilterInfo] of the converter's
    header (one per input column): the bound lists with their parallel
    exclusive flags, the not-equal value, the IN values and the null flag,
    which defaults to true. *)
Record FilterInfo : Type := mkFilterInfo {
  lowerBounds_ : list (option variant);
  lowerExclusives_ : list bool;
  upperBounds_ : list (option variant);
  upperExclusives_ : list bool;
  notValue_ : option variant;
  valuesVector_ : list variant;
  nullAllowed_ : bool
}.

(** Modelled from the spec: a fresh [FilterInfo] carries no value and
    allows nulls. *)
Definition newFilterInfo : FilterInfo :=
  mkFilterInfo [] [] [] [] None [] true.

(** Modelled from the spec: [FilterInfo::forbidsNull], set by
    [IS NOT NULL]. *)
Definition forbidsNull (fi : FilterInfo) : FilterInfo :=
  mkFilterInfo (lowerBounds_ fi) (lowerExclusives_ fi) (upperBounds_ fi)
    (upperExclusives_ fi) (notValue_ fi) (valuesVector_ fi) false.

(** Modelled from the spec: [FilterInfo::setLower], a lower bound is
    appended together with its strictness flag. *)
Definition setLower (left : option variant) (isExclusive : bool)
    (fi : FilterInfo) : FilterInfo :=
  mkFilterInfo (lowerBounds_ fi ++ [left]) (lowerExclusives_ fi ++ [isExclusive])
    (upperBounds_ fi) (upperExclusives_ fi) (notValue_ fi) (valuesVector_ fi)
    (nullAllowed_ fi).

(** Modelled from the spec: [FilterInfo::setUpper], an upper bound is
    appended together with its strictness flag. *)
Definition setUpper (right : option variant) (isExclusive : bool)
    (fi : FilterInfo) : FilterInfo :=
  mkFilterInfo (lowerBounds_ fi) (lowerExclusives_ fi)
    (upperBounds_ fi ++ [right]) (upperExclusives_ fi ++ [isExclusive])
    (notValue_ fi) (valuesVector_ fi) (nullAllowed_ fi).

(** Modelled from the spec: [FilterInfo::setNotValue], the value of the
    single [NOT(col = lit)] clause. *)
Definition setNotValue (notValue : option variant) (fi : FilterInfo)
  : FilterInfo :=
  mkFilterInfo (lowerBounds_ fi) (lowerExclusives_ fi) (upperBounds_ fi)
    (upperExclusives_ fi) notValue (valuesVector_ fi) (nullAllowed_ fi).

(** Modelled from the spec: [FilterInfo::setValues], the values of the
    [IN] clause become the values vector. *)
Definition setValues (values : list variant) (fi : FilterInfo) : FilterInfo :=
  mkFilterInfo (lowerBounds_ fi) (lowerExclusives_ fi) (upperBounds_ fi)
    (upperExclusives_ fi) (notValue_ fi) values (nullAllowed_ fi).

Definition nonempty {A} (l : list A) : bool :=
  match l with [] => false | _ :: _ => true end.

(** Modelled from the spec: [FilterInfo::isInitialized], at least one of
    the members carries a value. *)
Definition isInitialized (fi : FilterInfo) : bool :=
  nonempty (lowerBounds_ fi) || nonempty (upperBounds_ fi)
  || bool_decide (is_Some (notValue_ fi)) || nonempty (valuesVector_ fi)
  || negb (nullAllowed_ fi).

(** [colInfoMap[colIdx]->method(...)]: the map holds shared pointers, and
    [operator[]] on a column without an entry yields a null pointer. *)
Definition onColumn (colInfoMap : gmap nat FilterInfo) (colIdx : nat)
    (method : FilterInfo -> FilterInfo) : result (gmap nat FilterInfo) :=
  match colInfoMap !! colIdx with
  | Some fi => Ok (<[colIdx := method fi]> colInfoMap)
  | None => Err (Undefined "colInfoMap[colIdx] is null")
  end.

(** ** The converter *)

Section Converter.

(** The converter's [functionMap_], filled from the plan's extensions
    before any relation is translated. *)
Variable functionMap_ : gmap N string.

(** [common::createBigintValues] and [common::createDoubleValues] of the
    filter library, which choose the values primitive from the values. *)
Variable createBigintValues : list Z -> bool -> Filter.
Variable createDoubleValues : list double -> bool -> Filter.

(** The idiom [getSubFunctionName(findSubstraitFuncSpec(functionMap_, ref))]
    that every pass of the analyzer starts with. *)
Definition filterNameOf (sf : ScalarFunction) : result string :=
  spec ← findSubstraitFuncSpec functionMap_ (function_reference sf);
  mret (getSubFunctionName spec).

(** *** Flattening *)

(** [SubstraitVeloxPlanConverter::flattenConditions]: the vector
    [scalarFunctions] is the accumulator. *)
Fixpoint flattenConditions (substraitFilter : Expression)
    (scalarFunctions : list ScalarFunction) : result (list ScalarFunction) :=
  match substraitFilter with
  | EScalarFunction ref sargs =>
      match findSubstraitFuncSpec functionMap_ ref with
      | Err e => Err e
      | Ok filterNameSpec =>
          if String.eqb (getSubFunctionName filterNameSpec) "and" then
            (fix each (conds : list Expression) (acc : list ScalarFunction)
               : result (list ScalarFunction) :=
               match conds with
               | [] => Ok acc
               | sCondition :: rest =>
                   match flattenConditions sCondition acc with
                   | Err e => Err e
                   | Ok acc' => each rest acc'
                   end
               end) sargs scalarFunctions
          else Ok (scalarFunctions ++ [mkScalarFunction ref sargs])
      end
  | _ => Err (NotImplemented "GetFlatConditions not supported for type '{}'")
  end.

(** *** Pushdown eligibility *)

Definition inNames (name : string) (names : list string) : bool :=
  existsb (String.eqb name) names.

(** The loop of [fieldOrWithLiteral] over the two parameters; the state is
    [fieldIndex] (set exactly when [fieldExists]) and [literalExists]. *)
Fixpoint fieldAndLiteral (params : list Expression)
    (fieldIndex : option nat) (literalExists : bool)
  : result (option nat * bool) :=
  match params with
  | [] => Ok (fieldIndex, literalExists)
  | param :: rest =>
      match rex_type_case param with
      | kSelection =>
          idx ← parseReferenceSegment (selection param);
          fieldAndLiteral rest (Some idx) literalExists
      | kLiteral => fieldAndLiteral rest fieldIndex true
      | _ => fieldAndLiteral rest fieldIndex literalExists
      end
  end.

(** [SubstraitVeloxPlanConverter::fieldOrWithLiteral].  The C++ returns a
    bool and assigns the out-parameter [fieldIndex] on every path that
    returns true: [Some fieldIndex] stands for true, [None] for false. *)
Definition fieldOrWithLiteral (function : ScalarFunction)
  : result (option nat) :=
  if Nat.eqb (length (args function)) 1 then
    match args function with
    | a0 :: _ =>
        if has_selection a0 then
          idx ← parseReferenceSegment (selection a0); mret (Some idx)
        else mret None
    | [] => mret None
    end
  else if negb (Nat.eqb (length (args function)) 2) then mret None
  else
    found ← fieldAndLiteral (args function) None false;
    let '(fieldIndex, literalExists) := found in
    mret (if (literalExists : bool) then fieldIndex else None).

(** The column indices of the selections among the parameters of one child
    of an [or]. *)
Fixpoint selectionColumns (params : list Expression) (colIndices : list nat)
  : result (list nat) :=
  match params with
  | [] => Ok colIndices
  | param :: rest =>
      if has_selection param then
        _ ← VELOX_CHECK (has_direct_reference (selection param)) "";
        colIdx ← parseReferenceSegment (selection param);
        selectionColumns rest (colIndices ++ [colIdx])
      else selectionColumns rest colIndices
  end.

(** The first loop of [chidrenFunctionsOnSameField]; [None] is the early
    [return false]. *)
Fixpoint childrenColumns (fargs : list Expression) (colIndices : list nat)
  : result (option (list nat)) :=
  match fargs with
  | [] => Ok (Some colIndices)
  | arg :: rest =>
      if negb (has_scalar_function arg) then Ok None
      else
        colIndices' ← selectionColumns (args (scalar_function arg)) colIndices;
        childrenColumns rest colIndices'
  end.

(** [SubstraitVeloxPlanConverter::chidrenFunctionsOnSameField]. *)
Definition chidrenFunctionsOnSameField (function : ScalarFunction)
  : result bool :=
  cols ← childrenColumns (args function) [];
  match cols with
  | None => mret false
  | Some colIndices =>
      mret (forallb (fun idx => Nat.eqb idx (hd 0%nat colIndices)) colIndices)
  end.

(** [SubstraitVeloxPlanConverter::getColumnIndexFromIn]. *)
Definition getColumnIndexFromIn (scalarFunction : ScalarFunction)
  : result nat :=
  _ ← VELOX_CHECK (Nat.eqb (length (args scalarFunction)) 2)
        "Two args expected in In expression.";
  match args scalarFunction with
  | a0 :: a1 :: _ =>
      _ ← VELOX_CHECK (has_selection a0) "Field expected.";
      colIdx ← parseReferenceSegment (selection a0);
      _ ← VELOX_CHECK (has_literal a1) "Literal expected.";
      _ ← VELOX_CHECK (has_list (literal a1)) "List expected.";
      mret colIdx
  | _ => Err (Undefined "args()[i] outside the arguments")
  end.

(** [SubstraitVeloxPlanConverter::getInColIndices]; [inCols] is the set
    under construction. *)
Fixpoint getInColIndicesFrom (scalarFunctions : list ScalarFunction)
    (inCols : gset nat) : result (gset nat) :=
  match scalarFunctions with
  | [] => Ok inCols
  | scalarFunction :: rest =>
      filterName ← filterNameOf scalarFunction;
      if String.eqb filterName sIn then
        _ ← VELOX_CHECK (0 <? length (args scalarFunction))%nat
              "Arg is expected for IN function.";
        if has_selection (hd ENotSet (args scalarFunction)) then
          colIdx ← getColumnIndexFromIn scalarFunction;
          getInColIndicesFrom rest ({[colIdx]} ∪ inCols)
        else getInColIndicesFrom rest inCols
      else getInColIndicesFrom rest inCols
  end.

Definition getInColIndices (scalarFunctions : list ScalarFunction)
  : result (gset nat) :=
  getInColIndicesFrom scalarFunctions ∅.

(** [SubstraitVeloxPlanConverter::canPushdownCommonFunction]. *)
Definition canPushdownCommonFunction (scalarFunction : ScalarFunction)
    (inCols : gset nat) (filterName : string) : result bool :=
  if negb (inNames filterName [sIsNotNull; sGte; sGt; sLte; sLt; sEqual; sIn])
  then mret false
  else
    field ← fieldOrWithLiteral scalarFunction;
    match field with
    | None => mret false
    | Some fieldIdx =>
        if negb (bool_decide (fieldIdx ∈ inCols)) then mret true
        else if String.eqb filterName sIsNotNull || String.eqb filterName sIn
        then mret true
        else mret false
    end.

(** The loop of [canPushdownNot] over the arguments of the negated
    [equal]; it records the column in [notEqualCols], and stops with false
    at a column recorded before. *)
Fixpoint recordNotEqual (eqArgs : list Expression) (notEqualCols : gset nat)
  : result (bool * gset nat) :=
  match eqArgs with
  | [] => Ok (true, notEqualCols)
  | eqArg :: rest =>
      if negb (has_selection eqArg) then recordNotEqual rest notEqualCols
      else
        colIdx ← parseReferenceSegment (selection eqArg);
        if negb (bool_decide (colIdx ∈ notEqualCols))
        then recordNotEqual rest ({[colIdx]} ∪ notEqualCols)
        else Ok (false, notEqualCols)
  end.

(** [SubstraitVeloxPlanConverter::canPushdownNot]; the set [notEqualCols]
    is passed by reference and returned updated. *)
Definition canPushdownNot (scalarFunction : ScalarFunction)
    (inCols : gset nat) (notEqualCols : gset nat)
  : result (bool * gset nat) :=
  _ ← VELOX_CHECK (Nat.eqb (length (args scalarFunction)) 1)
        "Only one arg is expected for Not.";
  let notArg := hd ENotSet (args scalarFunction) in
  if negb (has_scalar_function notArg) then mret (false, notEqualCols)
  else
    functionName ← filterNameOf (scalar_function notArg);
    field ← fieldOrWithLiteral (scalar_function notArg);
    if negb (inNames functionName [sGte; sGt; sLte; sLt; sEqual])
    then mret (false, notEqualCols)
    else
      match field with
      | None => mret (false, notEqualCols)
      | Some fieldIdx =>
          if bool_decide (fieldIdx ∈ inCols) then mret (false, notEqualCols)
          else if String.eqb functionName sEqual
          then recordNotEqual (args (scalar_function notArg)) notEqualCols
          else mret (true, notEqualCols)
      end.

(** The loop of [canPushdownOr] over the children. *)
Fixpoint canPushdownOrArgs (fargs : list Expression) (inCols : gset nat)
    (inExists : bool) : result bool :=
  match fargs with
  | [] => Ok true
  | arg :: rest =>
      if negb (has_scalar_function arg) then Ok false
      else
        nameSpec ← findSubstraitFuncSpec functionMap_
                     (function_reference (scalar_function arg));
        let functionName := getSubFunctionName nameSpec in
        field ← fieldOrWithLiteral (scalar_function arg);
        if negb (inNames functionName
                   [sIsNotNull; sGte; sGt; sLte; sLt; sEqual; sIn])
        then Ok false
        else
          match field with
          | None => Ok false
          | Some fieldIdx =>
              if bool_decide (fieldIdx ∈ inCols) then Ok false
              else if String.eqb functionName sIn
                      || String.eqb functionName sIsNotNull
              then
                let types := getSubFunctionTypes nameSpec in
                if inNames sI32 types || inNames sI64 types then Ok false
                else if String.eqb functionName sIn then
                  if inExists then Ok false
                  else canPushdownOrArgs rest inCols true
                else canPushdownOrArgs rest inCols inExists
              else canPushdownOrArgs rest inCols inExists
          end
  end.

(** [SubstraitVeloxPlanConverter::canPushdownOr]. *)
Definition canPushdownOr (scalarFunction : ScalarFunction) (inCols : gset nat)
  : result bool :=
  same ← chidrenFunctionsOnSameField scalarFunction;
  if negb same then mret false
  else canPushdownOrArgs (args scalarFunction) inCols false.

(** The loop of [separateFilters]; the state is [notEqualCols] and the two
    output vectors. *)
Fixpoint separateFiltersFrom (scalarFunctions : list ScalarFunction)
    (inCols notEqualCols : gset nat)
    (subfieldFunctions remainingFunctions : list ScalarFunction)
  : result (list ScalarFunction * list ScalarFunction) :=
  match scalarFunctions with
  | [] => Ok (subfieldFunctions, remainingFunctions)
  | scalarFunction :: rest =>
      filterName ← filterNameOf scalarFunction;
      if negb (String.eqb filterName sNot) && negb (String.eqb filterName sOr)
      then
        can ← canPushdownCommonFunction scalarFunction inCols filterName;
        if (can : bool) then
          separateFiltersFrom rest inCols notEqualCols
            (subfieldFunctions ++ [scalarFunction]) remainingFunctions
        else
          separateFiltersFrom rest inCols notEqualCols
            subfieldFunctions (remainingFunctions ++ [scalarFunction])
      else
        checked ←
          (if String.eqb filterName sNot
           then canPushdownNot scalarFunction inCols notEqualCols
           else
             b ← canPushdownOr scalarFunction inCols;
             mret (b, notEqualCols));
        let '(supported, notEqualCols') := checked in
        if (supported : bool) then
          separateFiltersFrom rest inCols notEqualCols'
            (subfieldFunctions ++ [scalarFunction]) remainingFunctions
        else
          separateFiltersFrom rest inCols notEqualCols'
            subfieldFunctions (remainingFunctions ++ [scalarFunction])
  end.

(** [SubstraitVeloxPlanConverter::separateFilters]. *)
Definition separateFilters (scalarFunctions : list ScalarFunction)
  : result (list ScalarFunction * list ScalarFunction) :=
  inCols ← getInColIndices scalarFunctions;
  separateFiltersFrom scalarFunctions inCols ∅ [] [].

(** *** The column constraint accumulator *)

Fixpoint toTypedVariants (literals : list Literal) : result (list variant) :=
  match literals with
  | [] => Ok []
  | l :: rest =>
      v ← toTypedVariant l;
      vs ← toTypedVariants rest;
      mret (v :: vs)
  end.

(** [SubstraitVeloxPlanConverter::setInValues]. *)
Definition setInValues (scalarFunction : ScalarFunction)
    (colInfoMap : gmap nat FilterInfo) : result (gmap nat FilterInfo) :=
  colIdx ← getColumnIndexFromIn scalarFunction;
  a1 ← at_index "args()[1]" (args scalarFunction) 1;
  variants ← toTypedVariants (lit_list (literal a1));
  onColumn colInfoMap colIdx (setValues variants).

(** [SubstraitVeloxPlanConverter::setColInfoMap<T>]; the body does not
    depend on [T]. *)
Definition setColInfoMap (filterName : string) (colIdx : nat)
    (literalVariant : option variant) (reverse : bool)
    (colInfoMap : gmap nat FilterInfo) : result (gmap nat FilterInfo) :=
  if String.eqb filterName sIsNotNull then
    if reverse then
      Err (NotImplemented "Reverse not supported for filter name '{}'")
    else onColumn colInfoMap colIdx forbidsNull
  else if String.eqb filterName sGte then
    if reverse then onColumn colInfoMap colIdx (setUpper literalVariant true)
    else onColumn colInfoMap colIdx (setLower literalVariant false)
  else if String.eqb filterName sGt then
    if reverse then onColumn colInfoMap colIdx (setUpper literalVariant false)
    else onColumn colInfoMap colIdx (setLower literalVariant true)
  else if String.eqb filterName sLte then
    if reverse then onColumn colInfoMap colIdx (setLower literalVariant true)
    else onColumn colInfoMap colIdx (setUpper literalVariant false)
  else if String.eqb filterName sLt then
    if reverse then onColumn colInfoMap colIdx (setLower literalVariant false)
    else onColumn colInfoMap colIdx (setUpper literalVariant true)
  else if String.eqb filterName sEqual then
    if reverse then onColumn colInfoMap colIdx (setNotValue literalVariant)
    else
      colInfoMap' ← onColumn colInfoMap colIdx (setLower literalVariant false);
      onColumn colInfoMap' colIdx (setUpper literalVariant false)
  else Err (NotImplemented "SetColInfoMap not supported for filter name '{}'").

(** The loop of [setFilterMap] over the parameters: the column index and
    the literal found so far. *)
Fixpoint columnAndBound (params : list Expression) (colIdx : option nat)
    (substraitLit : option Literal) : result (option nat * option Literal) :=
  match params with
  | [] => Ok (colIdx, substraitLit)
  | param :: rest =>
      match rex_type_case param with
      | kSelection =>
          idx ← parseReferenceSegment (selection param);
          columnAndBound rest (Some idx) substraitLit
      | kLiteral => columnAndBound rest colIdx (Some (literal param))
      | _ =>
          Err (NotImplemented
                 "Substrait conversion not supported for arg type '{}'")
      end
  end.

(** [SubstraitVeloxPlanConverter::setFilterMap]. *)
Definition setFilterMap (scalarFunction : ScalarFunction)
    (inputTypeList : list TypeKind) (colInfoMap : gmap nat FilterInfo)
    (reverse : bool) : result (gmap nat FilterInfo) :=
  functionName ← filterNameOf scalarFunction;
  if String.eqb functionName sIn then setInValues scalarFunction colInfoMap
  else
    found ← columnAndBound (args scalarFunction) None None;
    let '(colIdx, substraitLit) := found in
    match colIdx with
    | None =>
        Err (NotImplemented
               "Column index is expected in subfield filters creation.")
    | Some colIdxVal =>
        inputType ← at_index "inputTypeList[colIdxVal]" inputTypeList colIdxVal;
        match inputType with
        | INTEGER =>
            setColInfoMap functionName colIdxVal
              ((fun l => VInteger (lit_i32 l)) <$> substraitLit)
              reverse colInfoMap
        | BIGINT =>
            setColInfoMap functionName colIdxVal
              ((fun l => VBigint (lit_i64 l)) <$> substraitLit)
              reverse colInfoMap
        | DOUBLE =>
            setColInfoMap functionName colIdxVal
              ((fun l => VDouble (lit_fp64 l)) <$> substraitLit)
              reverse colInfoMap
        | VARCHAR =>
            setColInfoMap functionName colIdxVal
              ((fun l => VVarchar (lit_string l)) <$> substraitLit)
              reverse colInfoMap
        | _ =>
            Err (NotImplemented
                   "Subfield filters creation not supported for input type '{}'")
        end
    end.

(** The children of an [or], each applied without reverse. *)
Fixpoint setFilterMapEach (fargs : list Expression)
    (inputTypeList : list TypeKind) (colInfoMap : gmap nat FilterInfo)
  : result (gmap nat FilterInfo) :=
  match fargs with
  | [] => Ok colInfoMap
  | arg :: rest =>
      colInfoMap' ←
        setFilterMap (scalar_function arg) inputTypeList colInfoMap false;
      setFilterMapEach rest inputTypeList colInfoMap'
  end.

(** The loop of [toSubfieldFilters] over the pushdown candidates. *)
Fixpoint accumulateFilterInfo (scalarFunctions : list ScalarFunction)
    (inputTypeList : list TypeKind) (colInfoMap : gmap nat FilterInfo)
  : result (gmap nat FilterInfo) :=
  match scalarFunctions with
  | [] => Ok colInfoMap
  | scalarFunction :: rest =>
      filterName ← filterNameOf scalarFunction;
      if String.eqb filterName sNot then
        _ ← VELOX_CHECK (Nat.eqb (length (args scalarFunction)) 1)
              "scalarFunction.args().size() == 1";
        _ ← VELOX_CHECK
              (has_scalar_function (hd ENotSet (args scalarFunction)))
              "Scalar function expected.";
        colInfoMap' ←
          setFilterMap (scalar_function (hd ENotSet (args scalarFunction)))
            inputTypeList colInfoMap true;
        accumulateFilterInfo rest inputTypeList colInfoMap'
      else if String.eqb filterName sOr then
        _ ← VELOX_CHECK (Nat.eqb (length (args scalarFunction)) 2)
              "scalarFunction.args().size() == 2";
        _ ← VELOX_CHECK (forallb has_scalar_function (args scalarFunction))
              "std::all_of(args, has_scalar_function)";
        colInfoMap' ←
          setFilterMapEach (args scalarFunction) inputTypeList colInfoMap;
        accumulateFilterInfo rest inputTypeList colInfoMap'
      else
        colInfoMap' ←
          setFilterMap scalarFunction inputTypeList colInfoMap false;
        accumulateFilterInfo rest inputTypeList colInfoMap'
  end.

(** One fresh [FilterInfo] per input column. *)
Definition initColInfoMap (inputTypeList : list TypeKind)
  : gmap nat FilterInfo :=
  foldl (fun m idx => <[idx := newFilterInfo]> m) ∅
    (seq 0 (length inputTypeList)).

(** *** The subfield filter builder *)

Fixpoint valuesOf {A} (get : variant -> result A) (variants : list variant)
  : result (list A) :=
  match variants with
  | [] => Ok []
  | v :: rest =>
      x ← get v;
      xs ← valuesOf get rest;
      mret (x :: xs)
  end.

(** [SubstraitVeloxPlanConverter::setInFilter<KIND>] with its four
    specializations; the primary template has an empty body. *)
Definition setInFilter (KIND : TypeKind) (variants : list variant)
    (nullAllowed : bool) (inputName : string) (filters : gmap string Filter)
  : result (gmap string Filter) :=
  match KIND with
  | DOUBLE =>
      values ← valuesOf value_double variants;
      mret (<[inputName := createDoubleValues values nullAllowed]> filters)
  | BIGINT =>
      values ← valuesOf value_int64 variants;
      mret (<[inputName := createBigintValues values nullAllowed]> filters)
  | INTEGER =>
      values ← valuesOf value_int32 variants;
      mret (<[inputName := createBigintValues values nullAllowed]> filters)
  | VARCHAR =>
      values ← valuesOf value_string variants;
      mret (<[inputName := BytesValues values nullAllowed]> filters)
  | _ => mret filters
  end.

Section Builder.

Context {KIND : TypeKind} `{RT : RangeTraits KIND}.

(** [SubstraitVeloxPlanConverter::createNotEqualFilter<KIND, FilterType>];
    the two ranges are appended to [colFilters]. *)
Definition createNotEqualFilter (notVariant : variant) (nullAllowed : bool)
    (colFilters : list Filter) : result (list Filter) :=
  v ← value notVariant;
  let lowerFilter := RangeType v false true getMax true false nullAllowed in
  let upperFilter := RangeType getLowest true false v false true nullAllowed in
  mret (colFilters ++ [lowerFilter] ++ [upperFilter]).

(** [SubstraitVeloxPlanConverter::setSubfieldFilter<KIND, FilterType>]. *)
Definition setSubfieldFilter (colFilters : list Filter) (inputName : string)
    (nullAllowed : bool) (filters : gmap string Filter) : gmap string Filter :=
  if Nat.eqb (length colFilters) 1 then
    match colFilters with
    | f :: _ => <[inputName := f]> filters
    | [] => filters
    end
  else if (1 <? length colFilters)%nat then
    <[inputName := MultiRangeType colFilters nullAllowed]> filters
  else filters.

(** The locals of [constructSubfieldFilters] that are declared before the
    range loop and live across its iterations. *)
Record RangeBounds : Type := mkRangeBounds {
  lowerBound : NativeType;
  lowerUnbounded : bool;
  lowerExclusive : bool;
  upperBound : NativeType;
  upperUnbounded : bool;
  upperExclusive : bool
}.

Definition initialBounds : RangeBounds :=
  mkRangeBounds getLowest true false getMax true false.

(** The first [if] of the loop body: the lower bound at [idx], if any. *)
Definition takeLower (filterInfo : FilterInfo) (idx : nat) (b : RangeBounds)
  : result RangeBounds :=
  match lowerBounds_ filterInfo !! idx with
  | Some (Some lowerVariant) =>
      lower ← value lowerVariant;
      excl ← at_index "lowerExclusives_[idx]" (lowerExclusives_ filterInfo) idx;
      mret (mkRangeBounds lower false excl
              (upperBound b) (upperUnbounded b) (upperExclusive b))
  | _ => mret b
  end.

(** The second [if] of the loop body: the upper bound at [idx], if any. *)
Definition takeUpper (filterInfo : FilterInfo) (idx : nat) (b : RangeBounds)
  : result RangeBounds :=
  match upperBounds_ filterInfo !! idx with
  | Some (Some upperVariant) =>
      upper ← value upperVariant;
      excl ← at_index "upperExclusives_[idx]" (upperExclusives_ filterInfo) idx;
      mret (mkRangeBounds (lowerBound b) (lowerUnbounded b) (lowerExclusive b)
              upper false excl)
  | _ => mret b
  end.

Definition rangeOf (b : RangeBounds) (nullAllowed : bool) : Filter :=
  RangeType (lowerBound b) (lowerUnbounded b) (lowerExclusive b)
    (upperBound b) (upperUnbounded b) (upperExclusive b) nullAllowed.

(** The range loop, [for (idx = 0; idx < rangeSize; idx++)], run over the
    indices still to visit. *)
Fixpoint rangeLoop (filterInfo : FilterInfo) (nullAllowed : bool)
    (indices : list nat) (b : RangeBounds) (colFilters : list Filter)
  : result (list Filter) :=
  match indices with
  | [] => Ok colFilters
  | idx :: rest =>
      b1 ← takeLower filterInfo idx b;
      b2 ← takeUpper filterInfo idx b1;
      rangeLoop filterInfo nullAllowed rest b2
        (colFilters ++ [rangeOf b2 nullAllowed])
  end.

(** [SubstraitVeloxPlanConverter::constructSubfieldFilters<KIND, FilterType>]. *)
Definition constructSubfieldFilters (colIdx : nat) (inputName : string)
    (filterInfo : FilterInfo) (filters : gmap string Filter)
  : result (gmap string Filter) :=
  if negb (isInitialized filterInfo) then mret filters
  else
    let rangeSize :=
      Nat.max (length (lowerBounds_ filterInfo))
              (length (upperBounds_ filterInfo)) in
    let nullAllowed := nullAllowed_ filterInfo in
    if nonempty (valuesVector_ filterInfo) then
      filters' ← setInFilter KIND (valuesVector_ filterInfo) nullAllowed
                   inputName filters;
      _ ← VELOX_CHECK (Nat.eqb rangeSize 0)
            "LowerBounds or upperBounds conditons cannot be supported after IN filter.";
      _ ← VELOX_CHECK (negb (bool_decide (is_Some (notValue_ filterInfo))))
            "Not equal cannot be supported after IN filter.";
      mret filters'
    else
      match notValue_ filterInfo with
      | Some notVariant =>
          colFilters ← createNotEqualFilter notVariant
                         (nullAllowed_ filterInfo) [];
          _ ← VELOX_CHECK (Nat.eqb rangeSize 0)
                "LowerBounds or upperBounds conditons cannot be supported after not-equal filter.";
          mret (<[inputName := MultiRangeType colFilters nullAllowed]> filters)
      | None =>
          if Nat.eqb rangeSize 0 && negb nullAllowed then
            mret (<[inputName := IsNotNull]> filters)
          else
            colFilters ← rangeLoop filterInfo nullAllowed (seq 0 rangeSize)
                           initialBounds [];
            mret (setSubfieldFilter colFilters inputName
                    (nullAllowed_ filterInfo) filters)
      end.

End Builder.

(** The loop of [mapToFilters] over the column indices. *)
Fixpoint mapToFiltersFrom (indices : list nat) (inputNameList : list string)
    (inputTypeList : list TypeKind) (colInfoMap : gmap nat FilterInfo)
    (filters : gmap string Filter) : result (gmap string Filter) :=
  match indices with
  | [] => Ok filters
  | colIdx :: rest =>
      inputType ← at_index "inputTypeList[colIdx]" inputTypeList colIdx;
      inputName ← at_index "inputNameList[colIdx]" inputNameList colIdx;
      let info :=
        match colInfoMap !! colIdx with
        | Some fi => Ok fi
        | None => Err (Undefined "colInfoMap[colIdx] is null")
        end in
      filters' ←
        match inputType with
        | INTEGER =>
            fi ← info;
            constructSubfieldFilters (KIND := INTEGER) colIdx inputName fi filters
        | BIGINT =>
            fi ← info;
            constructSubfieldFilters (KIND := BIGINT) colIdx inputName fi filters
        | DOUBLE =>
            fi ← info;
            constructSubfieldFilters (KIND := DOUBLE) colIdx inputName fi filters
        | VARCHAR =>
            fi ← info;
            constructSubfieldFilters (KIND := VARCHAR) colIdx inputName fi filters
        | _ =>
            Err (NotImplemented
                   "Subfield filters creation not supported for input type '{}'")
        end;
      mapToFiltersFrom rest inputNameList inputTypeList colInfoMap filters'
  end.

(** [SubstraitVeloxPlanConverter::mapToFilters]. *)
Definition mapToFilters (inputNameList : list string)
    (inputTypeList : list TypeKind) (colInfoMap : gmap nat FilterInfo)
  : result (gmap string Filter) :=
  mapToFiltersFrom (seq 0 (length inputNameList)) inputNameList inputTypeList
    colInfoMap ∅.

(** [SubstraitVeloxPlanConverter::toSubfieldFilters]. *)
Definition toSubfieldFilters (inputNameList : list string)
    (inputTypeList : list TypeKind) (scalarFunctions : list ScalarFunction)
  : result (gmap string Filter) :=
  colInfoMap ← accumulateFilterInfo scalarFunctions inputTypeList
                 (initColInfoMap inputTypeList);
  mapToFilters inputNameList inputTypeList colInfoMap.

(** *** The format-level veto *)

(** [dwio::common::FileFormat]. *)
Inductive FileFormat : Type :=
| UNKNOWN | ORC | DWRF | RC | RC_TEXT | RC_BINARY | TEXT | JSON | PARQUET
| ALPHA.

(** The inner [switch] of [isPushDownSupportedByFormat]: the filter kinds
    the Parquet reader accepts. *)
Definition parquetSupports (k : FilterKind) : bool :=
  match k with
  | kBigintRange | kDoubleRange | kBytesValues | kBytesRange
  | kBigintValuesUsingBitmask | kBigintValuesUsingHashTable => true
  | _ => false
  end.

(** [isPushDownSupportedByFormat]. *)
Definition isPushDownSupportedByFormat (format : FileFormat)
    (subfieldFilters : gmap string Filter) : bool :=
  match format with
  | PARQUET =>
      forallb (fun filter => parquetSupports (kind filter.2))
        (map_to_list subfieldFilters)
  | _ => true
  end.

(** The typed expressions of the engine, as far as the converter builds
    them itself. *)
Inductive ITypedExpr : Type :=
| CallTypedExpr (type : TypeKind) (inputs : list ITypedExpr) (name : string)
| FieldAccessTypedExpr (type : TypeKind) (name : string)
| ConstantTypedExpr (value : variant).

(** [exprConverter_->toVeloxExpr(scalarFunction, inputType)], the
    expression translator, with the row type given by its names and types. *)
Variable toVeloxExpr :
  ScalarFunction -> list string -> list TypeKind -> result ITypedExpr.

(** The [while] loop of [connectWithAnd]. *)
Fixpoint connectRest (inputNameList : list string)
    (inputTypeList : list TypeKind) (remainingFunctions : list ScalarFunction)
    (remainingFilter : ITypedExpr) : result ITypedExpr :=
  match remainingFunctions with
  | [] => Ok remainingFilter
  | f :: rest =>
      e ← toVeloxExpr f inputNameList inputTypeList;
      connectRest inputNameList inputTypeList rest
        (CallTypedExpr BOOLEAN [remainingFilter; e] "and")
  end.

(** [SubstraitVeloxPlanConverter::connectWithAnd]; [None] is [nullptr]. *)
Definition connectWithAnd (inputNameList : list string)
    (inputTypeList : list TypeKind) (remainingFunctions : list ScalarFunction)
  : result (option ITypedExpr) :=
  match remainingFunctions with
  | [] => Ok None
  | f0 :: rest =>
      remainingFilter ← toVeloxExpr f0 inputNameList inputTypeList;
      e ← connectRest inputNameList inputTypeList rest remainingFilter;
      mret (Some e)
  end.

(** [connector::hive::HiveTableHandle]. *)
Record HiveTableHandle : Type := mkHiveTableHandle {
  connectorId : string;
  tableName : string;
  filterPushdownEnabled : bool;
  subfieldFilters : gmap string Filter;
  remainingFilter : option ITypedExpr
}.

Definition kHiveConnectorId : string := "test-hive".

(** The filter part of [toVeloxPlan(ReadRel)]: the table handle of the
    scan, from the optional filter of the relation and the format recorded
    in the split info. *)
Definition scanTableHandle (filter : option Expression) (format : FileFormat)
    (colNameList : list string) (veloxTypeList : list TypeKind)
  : result HiveTableHandle :=
  let filterPushdownEnabled := true in
  match filter with
  | None => Ok (mkHiveTableHandle kHiveConnectorId "hive_table"
                  filterPushdownEnabled ∅ None)
  | Some sFilter =>
      scalarFunctions ← flattenConditions sFilter [];
      separated ← separateFilters scalarFunctions;
      let '(subfieldFunctions, remainingFunctions) := separated in
      subfieldFilters ←
        toSubfieldFilters colNameList veloxTypeList subfieldFunctions;
      if negb (isPushDownSupportedByFormat format subfieldFilters) then
        remainingFilter ←
          connectWithAnd colNameList veloxTypeList scalarFunctions;
        mret (mkHiveTableHandle kHiveConnectorId "hive_table"
                filterPushdownEnabled ∅ remainingFilter)
      else
        remainingFilter ←
          connectWithAnd colNameList veloxTypeList remainingFunctions;
        mret (mkHiveTableHandle kHiveConnectorId "hive_table"
                filterPushdownEnabled subfieldFilters remainingFilter)
  end.

(** *** Stream inputs and the scan *)

(** [substrait::ReadRel_LocalFiles_FileOrFiles]. *)
Record FileOrFiles : Type := mkFile {
  uri_file : string;
  partition_index : N;
  start : N;
  file_length : N;
  file_format : Z
}.

(** [substrait::ReadRel], with the base schema already parsed into column
    names and types.  The rows of a virtual table are not looked into here. *)
Record ReadRel : Type := mkReadRel {
  base_schema : option (list string * list TypeKind);
  local_files : option (list FileOrFiles);
  read_filter : option Expression;
  has_virtual_table : bool
}.

(** [std::stoi]: leading white space, an optional sign, then decimal
    digits up to the first other character; no digit at all
    ([std::invalid_argument]) or a value outside [int]
    ([std::out_of_range]) throws, and [what()] is the function's name. *)
Fixpoint skipSpaces (s : string) : string :=
  match s with
  | String c rest => if Ascii.is_space c then skipSpaces rest else s
  | EmptyString => s
  end.

Fixpoint leadingDigits (s : string) (acc : option Z) : option Z :=
  match s with
  | String c rest =>
      match Ascii.is_nat c with
      | Some d => leadingDigits rest (Some (10 * default 0 acc + Z.of_nat d))
      | None => acc
      end
  | EmptyString => acc
  end.

Definition stoi (s : string) : result Z :=
  let s1 := skipSpaces s in
  let '(negative, s2) :=
    match s1 with
    | String "-"%char rest => (true, rest)
    | String "+"%char rest => (false, rest)
    | _ => (false, s1)
    end in
  match leadingDigits s2 None with
  | None => Err (UserFail "stoi")
  | Some n =>
      let v := if (negative : bool) then - n else n in
      if (- 2 ^ 31 <=? v) && (v <=? 2 ^ 31 - 1) then Ok v
      else Err (UserFail "stoi")
  end.

(** In validation mode a ReadRel without local files is accepted. *)
Variable validationMode_ : bool.

(** [SubstraitVeloxPlanConverter::streamIsInput]. *)
Definition streamIsInput (sRead : ReadRel) : result Z :=
  match local_files sRead with
  | Some fileList =>
      match fileList with
      | [] => Err (UserFail "At least one file path is expected.")
      | file0 :: _ =>
          let filePath := uri_file file0 in
          let prefix := "iterator:" in
          match String.index 0 prefix filePath with
          | None => Ok (-1)
          | Some pos =>
              let idxStr :=
                String.substring (pos + String.length prefix)
                  (String.length filePath) filePath in
              stoi idxStr
          end
      end
  | None =>
      if validationMode_ then Ok (-1)
      else Err (UserFail "Local file is expected.")
  end.

(** Modelled from the spec: [SplitInfo] of the converter's header, the
    per-scan record of paths, starts, lengths, partition index, format
    and stream flag. *)
Record SplitInfo : Type := mkSplitInfo {
  isStream : bool;
  partitionIndex : N;
  paths : list string;
  starts : list N;
  lengths : list N;
  format : FileFormat
}.

(** [std::make_shared<SplitInfo>()]: the member initializers are in the
    converter's header. *)
Variable freshSplitInfo : SplitInfo.

Record HiveColumnHandle : Type := mkHiveColumnHandle {
  columnName : string;
  columnType : TypeKind
}.

(** The plan nodes this relation yields: a table scan, a values node, or
    a node built upstream and registered as a stream input. *)
Inductive PlanNode : Type :=
| TableScanNode (id : string) (outputNames : list string)
    (outputTypes : list TypeKind) (tableHandle : HiveTableHandle)
    (assignments : gmap string HiveColumnHandle)
| ValuesNode (id : string)
| UpstreamNode (id : string).

Definition node_id (n : PlanNode) : string :=
  match n with
  | TableScanNode id _ _ _ _ => id
  | ValuesNode id => id
  | UpstreamNode id => id
  end.

(** The input nodes registered before the conversion, by stream index. *)
Variable inputNodesMap_ : gmap Z PlanNode.

(** [subParser_->makeNodeName(planNodeId_, idx)]. *)
Variable makeNodeName : nat -> nat -> string.

(** The mutable members of the converter that a ReadRel touches. *)
Record ConverterState : Type := mkState {
  planNodeId_ : nat;
  splitInfoMap_ : gmap string SplitInfo
}.

(** [SubstraitVeloxPlanConverter::nextPlanNodeId]. *)
Definition nextPlanNodeId (st : ConverterState) : string * ConverterState :=
  (pretty (planNodeId_ st), mkState (S (planNodeId_ st)) (splitInfoMap_ st)).

(** The overload [toVeloxPlan(ReadRel, RowTypePtr)] for virtual tables. *)
Variable toVeloxPlanVirtualTable :
  ReadRel -> list string -> list TypeKind -> ConverterState ->
  result (PlanNode * ConverterState).

(** The loop over [local_files().items()] that fills the split info. *)
Fixpoint addFiles (fileList : list FileOrFiles) (splitInfo : SplitInfo)
  : SplitInfo :=
  match fileList with
  | [] => splitInfo
  | file :: rest =>
      addFiles rest
        (mkSplitInfo (isStream splitInfo) (partition_index file)
           (paths splitInfo ++ [uri_file file])
           (starts splitInfo ++ [start file])
           (lengths splitInfo ++ [file_length file])
           (if (file_format file =? 2) || (file_format file =? 3) then DWRF
            else if file_format file =? 1 then PARQUET
            else UNKNOWN))
  end.

(** The loop that builds the assignments and the output names. *)
Fixpoint assignColumns (st : ConverterState) (indices : list nat)
    (colNameList : list string) (veloxTypeList : list TypeKind)
    (assignments : gmap string HiveColumnHandle) (outNames : list string)
  : result (gmap string HiveColumnHandle * list string) :=
  match indices with
  | [] => Ok (assignments, outNames)
  | idx :: rest =>
      let outName := makeNodeName (planNodeId_ st) idx in
      name ← at_index "colNameList[idx]" colNameList idx;
      type ← at_index "veloxTypeList[idx]" veloxTypeList idx;
      assignColumns st rest colNameList veloxTypeList
        (<[outName := mkHiveColumnHandle name type]> assignments)
        (outNames ++ [outName])
  end.

(** [SubstraitVeloxPlanConverter::toVeloxPlan(const ReadRel&)]. *)
Definition toVeloxPlanRead (sRead : ReadRel) (st : ConverterState)
  : result (PlanNode * ConverterState) :=
  let splitInfo := freshSplitInfo in
  streamIdx ← streamIsInput sRead;
  if 0 <=? streamIdx then
    match inputNodesMap_ !! streamIdx with
    | None =>
        Err (UserFail "Could not find source index {} in input nodes map.")
    | Some streamNode =>
        let splitInfo :=
          mkSplitInfo true (partitionIndex splitInfo) (paths splitInfo)
            (starts splitInfo) (lengths splitInfo) (format splitInfo) in
        Ok (streamNode,
            mkState (planNodeId_ st)
              (<[node_id streamNode := splitInfo]> (splitInfoMap_ st)))
    end
  else
    let '(colNameList, veloxTypeList) := default ([], []) (base_schema sRead) in
    let splitInfo := addFiles (default [] (local_files sRead)) splitInfo in
    tableHandle ← scanTableHandle (read_filter sRead) (format splitInfo)
                    colNameList veloxTypeList;
    assigned ← assignColumns st (seq 0 (length colNameList)) colNameList
                 veloxTypeList ∅ [];
    let '(assignments, outNames) := assigned in
    if has_virtual_table sRead then
      toVeloxPlanVirtualTable sRead outNames veloxTypeList st
    else
      let '(id, st') := nextPlanNodeId st in
      Ok (TableScanNode id outNames veloxTypeList tableHandle assignments,
          mkState (planNodeId_ st')
            (<[id := splitInfo]> (splitInfoMap_ st'))).

(** *** Join keys *)

(** [subParser_->findVeloxFunction(functionMap_, ref)], the registry lookup
    followed by the mapping of Substrait names to engine names. *)
Variable findVeloxFunction : gmap N string -> N -> result string.

Fixpoint exprSize (e : Expression) : nat :=
  match e with
  | EScalarFunction _ fargs => S (list_sum (map exprSize fargs))
  | _ => 1
  end.

Definition stackSize (expressions : list Expression) : nat :=
  list_sum (map exprSize expressions).

(** The state of the loop of [extractJoinKeys]: the work stack (its back is
    the head of the list) and the two output vectors. *)
Definition JoinKeyState : Type :=
  (list Expression * list FieldReference * list FieldReference)%type.

(** The body of the [while] loop, after [visited] was popped. *)
Definition visitJoinExpression (visited : Expression)
    (expressions : list Expression) (leftExprs rightExprs : list FieldReference)
  : result JoinKeyState :=
  match visited with
  | EScalarFunction ref fargs =>
      spec ← findVeloxFunction functionMap_ ref;
      let funcName := getSubFunctionName spec in
      if String.eqb funcName "and" then
        match fargs with
        | a0 :: a1 :: _ => Ok (a1 :: a0 :: expressions, leftExprs, rightExprs)
        | _ => Err (Undefined "args[i] outside the arguments")
        end
      else if String.eqb funcName "eq" then
        _ ← VELOX_CHECK (forallb has_selection fargs)
              "std::all_of(args, has_selection)";
        match fargs with
        | a0 :: a1 :: _ =>
            Ok (expressions, leftExprs ++ [selection a0],
                rightExprs ++ [selection a1])
        | _ => Err (Undefined "args[i] outside the arguments")
        end
      else Err (NotImplemented "Join condition {} not supported.")
  | _ => Err (UserFail "Unable to parse from join expression: {}")
  end.

(** The [while (!expressions.empty())] loop of [extractJoinKeys]. *)
Equations? extractJoinKeysLoop (expressions : list Expression)
    (leftExprs rightExprs : list FieldReference)
  : result (list FieldReference * list FieldReference)
  by wf (stackSize expressions) lt :=
extractJoinKeysLoop [] leftExprs rightExprs := Ok (leftExprs, rightExprs);
extractJoinKeysLoop (visited :: rest) leftExprs rightExprs
  with inspect (visitJoinExpression visited rest leftExprs rightExprs) := {
  | exist _ (Err e) _ => Err e
  | exist _ (Ok next) Hvisit =>
      extractJoinKeysLoop next.1.1 next.1.2 next.2
  }.
Proof.
  destruct next as [[st' l'] r']. simpl. revert Hvisit.
  unfold visitJoinExpression, stackSize.
  destruct visited as [| |ref fargs| | |]; try discriminate.
  destruct (findVeloxFunction functionMap_ ref) as [spec|]; simpl;
    [|discriminate].
  destruct (String.eqb (getSubFunctionName spec) "and").
  - destruct fargs as [|a0 [|a1 more]]; try discriminate.
    intros [= <- _ _]. simpl. lia.
  - destruct (String.eqb (getSubFunctionName spec) "eq"); [|discriminate].
    destruct (forallb has_selection fargs); simpl; [|discriminate].
    destruct fargs as [|a0 [|a1 more]]; try discriminate.
    intros [= <- _ _]. simpl. lia.
Qed.

(** [SubstraitVeloxPlanConverter::extractJoinKeys], called with two empty
    vectors as in [toVeloxPlan(JoinRel)]. *)
Definition extractJoinKeys (joinExpression : Expression)
  : result (list FieldReference * list FieldReference) :=
  extractJoinKeysLoop [joinExpression] [] [].

(** The key extraction of [toVeloxPlan(JoinRel)], with its size check. *)
Definition joinKeyFields (joinExpression : Expression)
  : result (list (FieldReference * FieldReference)) :=
  keys ← extractJoinKeys joinExpression;
  let '(leftExprs, rightExprs) := keys in
  _ ← VELOX_CHECK (Nat.eqb (length leftExprs) (length rightExprs))
        "leftExprs.size() == rightExprs.size()";
  mret (zip leftExprs rightExprs).

End Converter.

(** * Specifications

    The notions the properties below are stated with. *)

Section Specifications.

Variable functionMap_ : gmap N string.
Variable findVeloxFunction : gmap N string -> N -> result string.
Variable toVeloxExpr :
  ScalarFunction -> list string -> list TypeKind -> result ITypedExpr.
Variable inputNameList : list string.
Variable inputTypeList : list TypeKind.
Variable inCols : gset nat.

(** The loop over the arguments of an [and], as it appears inside
    [flattenConditions]. *)
Fixpoint flattenEach (conds : list Expression) (acc : list ScalarFunction)
  : result (list ScalarFunction) :=
  match conds with
  | [] => Ok acc
  | sCondition :: rest =>
      match flattenConditions functionMap_ sCondition acc with
      | Err e => Err e
      | Ok acc' => flattenEach rest acc'
      end
  end.

(** The nodes the flattening visits: the filter itself and, below a scalar
    call named [and], the nodes visited from its arguments. *)
Inductive Visited : Expression -> Expression -> Prop :=
| visited_here e : Visited e e
| visited_below ref sargs spec c n :
    findSubstraitFuncSpec functionMap_ ref = Ok spec ->
    getSubFunctionName spec = "and" ->
    c ∈ sargs ->
    Visited c n ->
    Visited (EScalarFunction ref sargs) n.

(** The translations of the leaves, in order. *)
Fixpoint translateAll (leaves : list ScalarFunction)
  : result (list ITypedExpr) :=
  match leaves with
  | [] => Ok []
  | f :: rest =>
      e ← toVeloxExpr f inputNameList inputTypeList;
      es ← translateAll rest;
      mret (e :: es)
  end.

(** The column a leaf refers to: the leaf is itself a field, or a field
    with a literal, on that column, or (as for [not] and [or]) one of its
    arguments is such a scalar call. *)
Inductive References (leaf : ScalarFunction) (idx : nat) : Prop :=
| refers_directly :
    fieldOrWithLiteral leaf = Ok (Some idx) ->
    References leaf idx
| refers_through_child child :
    child ∈ args leaf ->
    has_scalar_function child = true ->
    fieldOrWithLiteral (scalar_function child) = Ok (Some idx) ->
    References leaf idx.

(** A leaf that no run of the eligibility checks accepts, whatever the
    not-equal columns recorded so far. *)
Definition NeverPushed (leaf : ScalarFunction) : Prop :=
  forall name, filterNameOf functionMap_ leaf = Ok name ->
    (forall b, canPushdownCommonFunction leaf inCols name = Ok b -> b = false)
    /\ (forall notEqualCols b notEqualCols',
          canPushdownNot functionMap_ leaf inCols notEqualCols
          = Ok (b, notEqualCols') -> b = false)
    /\ (forall b, canPushdownOr functionMap_ leaf inCols = Ok b -> b = false).

(** A join condition that is a tree of binary [and] nodes over
    [eq(field, field)] leaves, with its key pairs in the textual order of
    the leaves. *)
Inductive JoinTree
  : Expression -> list (FieldReference * FieldReference) -> Prop :=
| join_eq ref spec l r :
    findVeloxFunction functionMap_ ref = Ok spec ->
    getSubFunctionName spec = "eq" ->
    JoinTree (EScalarFunction ref [ESelection l; ESelection r]) [(l, r)]
| join_and ref spec a b pairsA pairsB :
    findVeloxFunction functionMap_ ref = Ok spec ->
    getSubFunctionName spec = "and" ->
    JoinTree a pairsA ->
    JoinTree b pairsB ->
    JoinTree (EScalarFunction ref [a; b]) (pairsA ++ pairsB).

End Specifications.

(** The actions of the comparison table on one [FilterInfo]. *)
Inductive Action : Type :=
| ForbidNull
| AppendLower (exclusive : bool)
| AppendUpper (exclusive : bool)
| AppendLowerAndUpper
| SetNotValue
| Unsupported.

(** The comparison table, row by row: the action for a leaf name, without
    and with [reverse]. *)
Definition comparisonTable (name : string) (reverse : bool) : option Action :=
  if String.eqb name "is_not_null" then
    Some (if reverse then Unsupported else ForbidNull)
  else if String.eqb name "gte" then
    Some (if reverse then AppendUpper true else AppendLower false)
  else if String.eqb name "gt" then
    Some (if reverse then AppendUpper false else AppendLower true)
  else if String.eqb name "lte" then
    Some (if reverse then AppendLower true else AppendUpper false)
  else if String.eqb name "lt" then
    Some (if reverse then AppendLower false else AppendUpper true)
  else if String.eqb name "equal" then
    Some (if reverse then SetNotValue else AppendLowerAndUpper)
  else None.

(** [fi'] is [fi] after the action, member by member. *)
Definition performs (a : Action) (v : option variant) (fi fi' : FilterInfo)
  : Prop :=
  match a with
  | ForbidNull =>
      fi' = mkFilterInfo (lowerBounds_ fi) (lowerExclusives_ fi)
              (upperBounds_ fi) (upperExclusives_ fi) (notValue_ fi)
              (valuesVector_ fi) false
  | AppendLower exclusive =>
      fi' = mkFilterInfo (lowerBounds_ fi ++ [v])
              (lowerExclusives_ fi ++ [exclusive])
              (upperBounds_ fi) (upperExclusives_ fi) (notValue_ fi)
              (valuesVector_ fi) (nullAllowed_ fi)
  | AppendUpper exclusive =>
      fi' = mkFilterInfo (lowerBounds_ fi) (lowerExclusives_ fi)
              (upperBounds_ fi ++ [v]) (upperExclusives_ fi ++ [exclusive])
              (notValue_ fi) (valuesVector_ fi) (nullAllowed_ fi)
  | AppendLowerAndUpper =>
      fi' = mkFilterInfo (lowerBounds_ fi ++ [v]) (lowerExclusives_ fi ++ [false])
              (upperBounds_ fi ++ [v]) (upperExclusives_ fi ++ [false])
              (notValue_ fi) (valuesVector_ fi) (nullAllowed_ fi)
  | SetNotValue =>
      fi' = mkFilterInfo (lowerBounds_ fi) (lowerExclusives_ fi)
              (upperBounds_ fi) (upperExclusives_ fi) v
              (valuesVector_ fi) (nullAllowed_ fi)
  | Unsupported => False
  end.

(** The filter kinds the Parquet reader supports. *)
Definition parquetKinds : list FilterKind :=
  [kBigintRange; kDoubleRange; kBytesValues; kBytesRange;
   kBigintValuesUsingBitmask; kBigintValuesUsingHashTable].

(** The format supports every filter of the map: for PARQUET each kind is
    one of [parquetKinds], every other format supports all kinds. *)
Definition FormatSupports (format : FileFormat) (filters : gmap string Filter)
  : Prop :=
  format = PARQUET ->
  forall name filter, filters !! name = Some filter ->
    In (kind filter) parquetKinds.

(** The conjunction of a list of expressions: none for the empty list,
    otherwise the expressions joined by [and], nested to the left. *)
Definition conjunction (es : list ITypedExpr) : option ITypedExpr :=
  match es with
  | [] => None
  | e :: rest =>
      Some (foldl (fun acc x => CallTypedExpr BOOLEAN [acc; x] "and") e rest)
  end.

(** * Scenarios

    A function registry and a few filters over a one-column schema, used to
    run the converter on concrete plans. *)

Definition registry : gmap N string :=
  list_to_map
    [(1%N, "and:bool_bool"); (2%N, "or:bool_bool"); (3%N, "not:bool");
     (4%N, "gte:i64_i64"); (5%N, "gt:i64_i64"); (6%N, "lte:i64_i64");
     (7%N, "lt:i64_i64"); (8%N, "equal:i64_i64"); (9%N, "in:fp64_list");
     (10%N, "is_not_null:i64"); (11%N, "gte:fp64_fp64");
     (12%N, "is_null:i64"); (13%N, "in:i64_list"); (14%N, "eq:i64_i64")].

Definition col (i : nat) : Expression := ESelection (DirectStructField i).
Definition i64 (z : Z) : Expression := ELiteral (LitI64 z).
Definition fp64 (z : Z) : Expression := ELiteral (LitFp64 (Fp64 z)).
Definition call (anchor : N) (fargs : list Expression) : ScalarFunction :=
  mkScalarFunction anchor fargs.
Definition ecall (anchor : N) (fargs : list Expression) : Expression :=
  EScalarFunction anchor fargs.

(** Stand-ins for the collaborators the converter is parameterized by. *)
Definition sampleBigintValues (values : list Z) (nullAllowed : bool) : Filter :=
  BigintValuesUsingHashTable values nullAllowed.
Definition sampleDoubleValues (values : list double) (nullAllowed : bool)
  : Filter :=
  MultiRange
    (map (fun d => DoubleRange d false false d false false nullAllowed) values)
    nullAllowed.
Definition sampleToVeloxExpr (sf : ScalarFunction) (names : list string)
    (types : list TypeKind) : result ITypedExpr :=
  spec ← findSubstraitFuncSpec registry (function_reference sf);
  mret (CallTypedExpr BOOLEAN [] (getSubFunctionName spec)).
Definition sampleFindVeloxFunction (fm : gmap N string) (anchor : N)
  : result string :=
  findSubstraitFuncSpec fm anchor.
Definition sampleSplitInfo : SplitInfo :=
  mkSplitInfo false 0 [] [] [] UNKNOWN.
Definition sampleNodeName (nodeId idx : nat) : string :=
  "n" +:+ pretty nodeId +:+ "_" +:+ pretty idx.
Definition sampleVirtualTable (r : ReadRel) (names : list string)
    (types : list TypeKind) (st : ConverterState)
  : result (PlanNode * ConverterState) :=
  Ok (ValuesNode (pretty (planNodeId_ st)),
      mkState (S (planNodeId_ st)) (splitInfoMap_ st)).

(** The conjunction [gte(c0, 10) and true]: the literal is visited below
    the [and]. *)
Definition filterWithLiteral : Expression :=
  ecall 1 [ecall 4 [col 0; i64 10]; ELiteral (LitBoolean true)].

(** The [FilterInfo] that [not(equal(c0, 5))] leaves on an INTEGER column. *)
Definition notEqualFive : FilterInfo :=
  mkFilterInfo [] [] [] [] (Some (VInteger 5)) [] true.

(** An [or] of [n] copies of [gte(c0, 1)]: all children are comparisons on
    the same column. *)
Definition sameColumnOr (n : nat) : ScalarFunction :=
  call 2 (replicate n (ecall 4 [col 0; i64 1])).

(** The filter [or(in(c0, [1.0, 2.0]), gte(c0, 5.0))] over a DOUBLE column
    (the literals are given by their bit patterns). *)
Definition inOrRange : ScalarFunction :=
  call 2
    [ecall 9 [col 0;
              ELiteral (LitList [LitFp64 (Fp64 0x3FF0000000000000);
                                 LitFp64 (Fp64 0x4000000000000000)])];
     ecall 11 [col 0; fp64 0x4014000000000000]].

(** The filter [or(gte(c0, 1), equal(c0, 5))] over a BIGINT column. *)
Definition gteOrEqual : ScalarFunction :=
  call 2 [ecall 4 [col 0; i64 1]; ecall 8 [col 0; i64 5]].

(** The [FilterInfo] the accumulator builds for it: two lower bounds and
    one upper bound. *)
Definition twoLowerOneUpper : FilterInfo :=
  mkFilterInfo [Some (VBigint 1); Some (VBigint 5)] [false; false]
    [Some (VBigint 5)] [false] None [] true.

(** The conjunction [in(c0, [1, 2]) and gte(c0, 10)]: the range on the
    IN column stays above the scan. *)
Definition inLeaf : ScalarFunction :=
  call 13 [col 0; ELiteral (LitList [LitI64 1; LitI64 2])].
Definition gteLeaf : ScalarFunction := call 4 [col 0; i64 10].

(** The join condition [eq(c0, c2) and eq(c1, c3)]. *)
Definition twoKeyJoin : Expression :=
  ecall 1 [ecall 14 [col 0; col 2]; ecall 14 [col 1; col 3]].

Definition twoKeyJoinPairs : list (FieldReference * FieldReference) :=
  [(DirectStructField 0, DirectStructField 2);
   (DirectStructField 1, DirectStructField 3)].

(** A ReadRel over one Parquet file with the given URI, and an input node
    registered as stream 3. *)
Definition readOf (uri : string) : ReadRel :=
  mkReadRel (Some (["c0"], [BIGINT])) (Some [mkFile uri 0 0 100 1]) None false.

Definition inputNodes : gmap Z PlanNode := {[3 := UpstreamNode "42"]}.

Definition convertRead (uri : string)
  : result (PlanNode * ConverterState) :=
  toVeloxPlanRead registry sampleBigintValues sampleDoubleValues
    sampleToVeloxExpr false sampleSplitInfo inputNodes sampleNodeName
    sampleVirtualTable (readOf uri) (mkState 0 ∅).


(** * More notions *)

(** The expression is a direct reference to column [idx]. *)
Definition selectsColumn (idx : nat) (e : Expression) : bool :=
  match e with
  | ESelection (DirectStructField i) => Nat.eqb i idx
  | _ => false
  end.

(** The leaf is a [not] whose only argument is an [equal] with a direct
    reference to column [idx] among its arguments. *)
Definition isNotEqualOn (functionMap_ : gmap N string) (idx : nat)
    (leaf : ScalarFunction) : bool :=
  match filterNameOf functionMap_ leaf, args leaf with
  | Ok name, [EScalarFunction ref cargs] =>
      String.eqb name sNot
      && match filterNameOf functionMap_ (mkScalarFunction ref cargs) with
         | Ok childName => String.eqb childName sEqual
         | Err _ => false
         end
      && existsb (selectsColumn idx) cargs
  | _, _ => false
  end.


(** The type kind a variant is tagged with. *)
Definition variantKind (v : variant) : TypeKind :=
  match v with
  | VInteger _ => INTEGER
  | VBigint _ => BIGINT
  | VDouble _ => DOUBLE
  | VVarchar _ => VARCHAR
  end.

(** An optional bound is absent or tagged with the kind [K]. *)
Definition boundOfKind (K : TypeKind) (bound : option variant) : Prop :=
  match bound with
  | Some v => variantKind v = K
  | None => True
  end.

(** The shape the accumulator keeps a [FilterInfo] of a column of kind [K]
    in: the exclusive flags run parallel to the bounds, and every bound and
    the not-equal value are tagged with the kind of the column. *)
Definition FilterInfoInvariant (K : TypeKind) (fi : FilterInfo) : Prop :=
  length (lowerBounds_ fi) = length (lowerExclusives_ fi)
  /\ length (upperBounds_ fi) = length (upperExclusives_ fi)
  /\ Forall (boundOfKind K) (lowerBounds_ fi)
  /\ Forall (boundOfKind K) (upperBounds_ fi)
  /\ boundOfKind K (notValue_ fi).

(** Every column of the schema, and no other index, has a [FilterInfo],
    and it is in shape for the type of the column. *)
Definition ColInfoMapInvariant (inputTypeList : list TypeKind)
    (colInfoMap : gmap nat FilterInfo) : Prop :=
  forall idx,
    match inputTypeList !! idx with
    | Some K => exists fi, colInfoMap !! idx = Some fi /\ FilterInfoInvariant K fi
    | None => colInfoMap !! idx = None
    end.

(** The column types the builder has a case for. *)
Definition supportedColumnType (K : TypeKind) : bool :=
  match K with
  | INTEGER | BIGINT | DOUBLE | VARCHAR => true
  | _ => false
  end.


(** The column names and types a ReadRel declares; none without a base
    schema. *)
Definition schemaOf (sRead : ReadRel) : list string * list TypeKind :=
  default ([], []) (base_schema sRead).

(** The file format a split gets from the format code of a file. *)
Definition formatOfCode (code : Z) : FileFormat :=
  if (code =? 2) || (code =? 3) then DWRF
  else if code =? 1 then PARQUET
  else UNKNOWN.

(** The join conditions the key extraction reads to the end: an [and] with
    at least two arguments whose first two are such conditions, or an [eq]
    with at least two arguments, all of them field selections. *)
Inductive JoinShape (functionMap_ : gmap N string)
    (findVeloxFunction : gmap N string -> N -> result string)
  : Expression -> Prop :=
| JoinShape_eq ref spec a0 a1 more :
    findVeloxFunction functionMap_ ref = Ok spec ->
    getSubFunctionName spec = "eq" ->
    forallb has_selection (a0 :: a1 :: more) = true ->
    JoinShape functionMap_ findVeloxFunction
      (EScalarFunction ref (a0 :: a1 :: more))
| JoinShape_and ref spec a0 a1 more :
    findVeloxFunction functionMap_ ref = Ok spec ->
    getSubFunctionName spec = "and" ->
    JoinShape functionMap_ findVeloxFunction a0 ->
    JoinShape functionMap_ findVeloxFunction a1 ->
    JoinShape functionMap_ findVeloxFunction
      (EScalarFunction ref (a0 :: a1 :: more)).

(** * The relation tree

    The conversions of the relations above a read, and of a whole plan.
    Container sizes and the plan node counter are taken without wrap-around,
    as in the conversion of a read. *)

(** The join types of [substrait::JoinRel] that the converter maps, and
    the remaining values of the enum. *)
Inductive JoinRel_JoinType : Type :=
| JOIN_TYPE_INNER
| JOIN_TYPE_OUTER
| JOIN_TYPE_LEFT
| JOIN_TYPE_RIGHT
| JOIN_TYPE_SEMI
| JOIN_TYPE_ANTI
| JOIN_TYPE_OTHER (code : Z).

(** [core::JoinType], as far as the converter produces it. *)
Inductive JoinType : Type :=
| kInner | kFull | kLeft | kRight | kLeftSemi | kAnti.

(** The phases of [substrait::AggregationPhase] that the converter maps,
    and the remaining values of the enum. *)
Inductive AggregationPhase : Type :=
| AGGREGATION_PHASE_INITIAL_TO_INTERMEDIATE
| AGGREGATION_PHASE_INTERMEDIATE_TO_INTERMEDIATE
| AGGREGATION_PHASE_INTERMEDIATE_TO_RESULT
| AGGREGATION_PHASE_INITIAL_TO_RESULT
| AGGREGATION_PHASE_OTHER (code : Z).

(** [core::AggregationNode::Step]. *)
Inductive Step : Type :=
| kPartial | kIntermediate | kFinal | kSingle.

(** [substrait::AggregateFunction], the [measure] of a measure of an
    AggregateRel, with its output type already parsed. *)
Record AggregateFunction : Type := mkAggregateFunction {
  agg_function_reference : N;
  agg_args : list Expression;
  phase : AggregationPhase;
  output_type : TypeKind
}.

(** The [rel_type] oneof of [substrait::Rel].  A grouping is the list of
    its grouping expressions, a measure is its aggregate function; the
    kinds of relation the converter does not know carry no payload. *)
Inductive Rel : Type :=
| RelAggregate (input : option Rel) (groupings : list (list Expression))
    (measures : list AggregateFunction)
| RelProject (input : option Rel) (expressions : list Expression)
| RelFilter (input : option Rel) (condition : Expression)
| RelJoin (leftInput rightInput : option Rel) (expression : Expression)
    (post_join_filter : option Expression) (type : JoinRel_JoinType)
| RelRead (read : ReadRel)
| RelOther.

(** [substrait::RelRoot]; the output names are not used. *)
Record RelRoot : Type := mkRelRoot {
  root_input : option Rel;
  root_names : list string
}.

(** [substrait::PlanRel]. *)
Inductive PlanRel : Type :=
| PlanRelRoot (root : RelRoot)
| PlanRelRel (rel : Rel)
| PlanRelNotSet.

(** [substrait::extensions::SimpleExtensionDeclaration]: the declaration
    of a function, with its anchor and its name, or of something else. *)
Inductive SimpleExtensionDeclaration : Type :=
| ExtensionFunction (function_anchor : N) (name : string)
| ExtensionOther.

(** [substrait::Plan]. *)
Record Plan : Type := mkPlan {
  extensions : list SimpleExtensionDeclaration;
  relations : list PlanRel
}.

(** A row type, by its names and its children. *)
Definition RowType : Type := (list string * list TypeKind)%type.

(** The plan nodes of the engine that the converter builds. *)
Inductive VeloxPlan : Type :=
| ReadNode (node : PlanNode)
| FilterNode (id : string) (filter : ITypedExpr) (source : VeloxPlan)
| ProjectNode (id : string) (names : list string)
    (projections : list ITypedExpr) (source : VeloxPlan)
| AggregationNode (id : string) (step : Step)
    (groupingKeys preGroupedKeys : list ITypedExpr)
    (aggregateNames : list string) (aggregates : list ITypedExpr)
    (aggregateMasks : list (option ITypedExpr)) (ignoreNullKeys : bool)
    (source : VeloxPlan)
| HashJoinNode (id : string) (joinType : JoinType)
    (leftKeys rightKeys : list ITypedExpr) (filter : option ITypedExpr)
    (leftNode rightNode : VeloxPlan) (outputType : RowType).

Definition plan_id (plan : VeloxPlan) : string :=
  match plan with
  | ReadNode node => node_id node
  | FilterNode id _ _ => id
  | ProjectNode id _ _ _ => id
  | AggregationNode id _ _ _ _ _ _ _ _ => id
  | HashJoinNode id _ _ _ _ _ _ _ => id
  end.

(** [SubstraitVeloxPlanConverter::constructFuncMap], the part that fills
    [functionMap_]. *)
Definition constructFuncMap (sExtensions : list SimpleExtensionDeclaration)
    (functionMap_ : gmap N string) : gmap N string :=
  foldl (fun functionMap sExtension =>
           match sExtension with
           | ExtensionFunction id name => <[id := name]> functionMap
           | ExtensionOther => functionMap
           end)
        functionMap_ sExtensions.

(** [SubstraitVeloxPlanConverter::setPhase], on the measures of the
    AggregateRel. *)
Definition setPhase (measures : list AggregateFunction) : result Step :=
  match measures with
  | [] => Ok kSingle
  | aggFunction :: _ =>
      match phase aggFunction with
      | AGGREGATION_PHASE_INITIAL_TO_INTERMEDIATE => Ok kPartial
      | AGGREGATION_PHASE_INTERMEDIATE_TO_INTERMEDIATE => Ok kIntermediate
      | AGGREGATION_PHASE_INTERMEDIATE_TO_RESULT => Ok kFinal
      | AGGREGATION_PHASE_INITIAL_TO_RESULT => Ok kSingle
      | AGGREGATION_PHASE_OTHER _ =>
          Err (UserFail "Aggregate phase is not supported.")
      end
  end.

(** The switch over the join type in [toVeloxPlan(JoinRel)]. *)
Definition mapJoinType (type : JoinRel_JoinType) : result JoinType :=
  match type with
  | JOIN_TYPE_INNER => Ok kInner
  | JOIN_TYPE_OUTER => Ok kFull
  | JOIN_TYPE_LEFT => Ok kLeft
  | JOIN_TYPE_RIGHT => Ok kRight
  | JOIN_TYPE_SEMI => Ok kLeftSemi
  | JOIN_TYPE_ANTI => Ok kAnti
  | JOIN_TYPE_OTHER _ => Err (NotImplemented "Unsupported Join type: {}")
  end.

Section RelationTree.

Variable functionMap_ : gmap N string.
Variable createBigintValues : list Z -> bool -> Filter.
Variable createDoubleValues : list double -> bool -> Filter.
Variable toVeloxExpr :
  ScalarFunction -> list string -> list TypeKind -> result ITypedExpr.
Variable validationMode_ : bool.
Variable freshSplitInfo : SplitInfo.
Variable inputNodesMap_ : gmap Z PlanNode.
Variable makeNodeName : nat -> nat -> string.
Variable toVeloxPlanVirtualTable :
  ReadRel -> list string -> list TypeKind -> ConverterState ->
  result (PlanNode * ConverterState).
Variable findVeloxFunction : gmap N string -> N -> result string.

(** [exprConverter_->toVeloxExpr(expression, inputType)] and
    [exprConverter_->toVeloxExpr(fieldReference, inputType)]. *)
Variable toVeloxExpression : Expression -> RowType -> result ITypedExpr.
Variable toVeloxField : FieldReference -> RowType -> result ITypedExpr.

(** [PlanNode::outputType()] of the engine's nodes. *)
Variable outputType : VeloxPlan -> RowType.

(** The aggregate expression of one measure, in the loop of
    [toVeloxAgg]. *)
Definition toAggExpr (inputType : RowType) (aggFunction : AggregateFunction)
  : result ITypedExpr :=
  funcName ← findVeloxFunction functionMap_
               (agg_function_reference aggFunction);
  aggParams ← mapM (fun arg => toVeloxExpression arg inputType)
                (agg_args aggFunction);
  mret (CallTypedExpr (output_type aggFunction) aggParams funcName).

(** [SubstraitVeloxPlanConverter::toVeloxAgg]. *)
Definition toVeloxAgg (groupings : list (list Expression))
    (measures : list AggregateFunction) (childNode : VeloxPlan)
    (aggStep : Step) (st : ConverterState)
  : result (VeloxPlan * ConverterState) :=
  let inputType := outputType childNode in
  veloxGroupingExprs ←
    mapM (fun groupingExpr => toVeloxField (selection groupingExpr) inputType)
      (concat groupings);
  let groupingOutIdx := length (concat groupings) in
  aggExprs ← mapM (toAggExpr inputType) measures;
  let ignoreNullKeys := false in
  let aggregateMasks := replicate (length measures) None in
  let preGroupingExprs := [] in
  let aggOutNames :=
    map (makeNodeName (planNodeId_ st))
      (seq groupingOutIdx (length measures)) in
  let '(id, st') := nextPlanNodeId st in
  Ok (AggregationNode id aggStep veloxGroupingExprs preGroupingExprs
        aggOutNames aggExprs aggregateMasks ignoreNullKeys childNode,
      st').

(** The loop over the join keys in [toVeloxPlan(JoinRel)]. *)
Definition toJoinKeys (outputRowType : RowType)
    (keys : list (FieldReference * FieldReference))
  : result (list (ITypedExpr * ITypedExpr)) :=
  mapM (fun key =>
          leftKey ← toVeloxField key.1 outputRowType;
          rightKey ← toVeloxField key.2 outputRowType;
          mret (leftKey, rightKey))
       keys.

(** [SubstraitVeloxPlanConverter::toVeloxPlan(const Rel&)], with the
    conversions of the AggregateRel, ProjectRel, FilterRel and JoinRel it
    dispatches to. *)
Fixpoint toVeloxPlanRel (sRel : Rel) (st : ConverterState)
  : result (VeloxPlan * ConverterState) :=
  match sRel with
  | RelAggregate input groupings measures =>
      match input with
      | Some sInput =>
          child ← toVeloxPlanRel sInput st;
          aggStep ← setPhase measures;
          toVeloxAgg groupings measures child.1 aggStep child.2
      | None => Err (UserFail "Child Rel is expected in AggregateRel.")
      end
  | RelProject input expressions =>
      match input with
      | Some sInput =>
          child ← toVeloxPlanRel sInput st;
          let inputType := outputType child.1 in
          projections ←
            mapM (fun expr => toVeloxExpression expr inputType) expressions;
          let projectNames :=
            map (makeNodeName (planNodeId_ child.2))
              (seq 0 (length expressions)) in
          let '(id, st') := nextPlanNodeId child.2 in
          Ok (ProjectNode id projectNames projections child.1, st')
      | None => Err (UserFail "Child Rel is expected in ProjectRel.")
      end
  | RelFilter input condition =>
      match input with
      | Some sInput =>
          child ← toVeloxPlanRel sInput st;
          let inputType := outputType child.1 in
          filter ← toVeloxExpression condition inputType;
          let '(id, st') := nextPlanNodeId child.2 in
          Ok (FilterNode id filter child.1, st')
      | None => Err (UserFail "Child Rel is expected in FilterRel.")
      end
  | RelJoin leftInput rightInput expression post_join_filter type =>
      match leftInput, rightInput with
      | None, _ => Err (UserFail "Left Rel is expected in JoinRel.")
      | Some _, None => Err (UserFail "Right Rel is expected in JoinRel.")
      | Some sLeft, Some sRight =>
          leftChild ← toVeloxPlanRel sLeft st;
          rightChild ← toVeloxPlanRel sRight leftChild.2;
          let outputRowType : RowType :=
            ((outputType leftChild.1).1 ++ (outputType rightChild.1).1,
             (outputType leftChild.1).2 ++ (outputType rightChild.1).2) in
          keys ← joinKeyFields functionMap_ findVeloxFunction expression;
          veloxKeys ← toJoinKeys outputRowType keys;
          filter ←
            match post_join_filter with
            | Some sFilter =>
                e ← toVeloxExpression sFilter outputRowType; mret (Some e)
            | None => Ok None
            end;
          joinType ← mapJoinType type;
          let '(id, st') := nextPlanNodeId rightChild.2 in
          Ok (HashJoinNode id joinType veloxKeys.*1 veloxKeys.*2 filter
                leftChild.1 rightChild.1 outputRowType,
              st')
      end
  | RelRead sRead =>
      scan ← toVeloxPlanRead functionMap_ createBigintValues
                createDoubleValues toVeloxExpr validationMode_ freshSplitInfo
                inputNodesMap_ makeNodeName toVeloxPlanVirtualTable sRead st;
      Ok (ReadNode scan.1, scan.2)
  | RelOther => Err (NotImplemented "Substrait conversion not supported for Rel.")
  end.

(** [SubstraitVeloxPlanConverter::toVeloxPlan(const RelRoot&)]. *)
Definition toVeloxPlanRoot (sRoot : RelRoot) (st : ConverterState)
  : result (VeloxPlan * ConverterState) :=
  match root_input sRoot with
  | Some sRel => toVeloxPlanRel sRel st
  | None => Err (UserFail "Input is expected in RelRoot.")
  end.

(** The loop over the relations in [toVeloxPlan(const Plan&)]. *)
Fixpoint toVeloxPlanRelations (sRelations : list PlanRel)
    (st : ConverterState) : result (VeloxPlan * ConverterState) :=
  match sRelations with
  | [] => Err (UserFail "RelRoot or Rel is expected in Plan.")
  | PlanRelRoot sRoot :: _ => toVeloxPlanRoot sRoot st
  | PlanRelRel sRel :: _ => toVeloxPlanRel sRel st
  | PlanRelNotSet :: rest => toVeloxPlanRelations rest st
  end.

End RelationTree.

Section PlanConversion.

Variable createBigintValues : list Z -> bool -> Filter.
Variable createDoubleValues : list double -> bool -> Filter.
Variable validationMode_ : bool.
Variable freshSplitInfo : SplitInfo.
Variable inputNodesMap_ : gmap Z PlanNode.
Variable makeNodeName : nat -> nat -> string.
Variable toVeloxPlanVirtualTable :
  ReadRel -> list string -> list TypeKind -> ConverterState ->
  result (PlanNode * ConverterState).
Variable findVeloxFunction : gmap N string -> N -> result string.
Variable outputType : VeloxPlan -> RowType.

(** The expression converter made for a function map, in
    [constructFuncMap]. *)
Variable exprConverter_toVeloxExpr :
  gmap N string ->
  ScalarFunction -> list string -> list TypeKind -> result ITypedExpr.
Variable exprConverter_toVeloxExpression :
  gmap N string -> Expression -> RowType -> result ITypedExpr.
Variable exprConverter_toVeloxField :
  gmap N string -> FieldReference -> RowType -> result ITypedExpr.

(** [SubstraitVeloxPlanConverter::toVeloxPlan(const Plan&)]: the function
    map is filled first, the expression converter is made for it, and the
    first relation that is a root or a relation is converted; the function
    map stays in the converter whatever the outcome. *)
Definition toVeloxPlanPlan (sPlan : Plan) (functionMap_ : gmap N string)
    (st : ConverterState)
  : gmap N string * result (VeloxPlan * ConverterState) :=
  let functionMap := constructFuncMap (extensions sPlan) functionMap_ in
  (functionMap,
   toVeloxPlanRelations functionMap createBigintValues createDoubleValues
     (exprConverter_toVeloxExpr functionMap) validationMode_ freshSplitInfo
     inputNodesMap_ makeNodeName toVeloxPlanVirtualTable findVeloxFunction
     (exprConverter_toVeloxExpression functionMap)
     (exprConverter_toVeloxField functionMap) outputType
     (relations sPlan) st).

End PlanConversion.


(** ** Notions about the relation tree *)

(** The nodes made above the reads are numbered in post-order: a plan is
    numbered from a counter value to another when each node that is not a
    read carries, in decimal, the counter value reached after its inputs
    were numbered, the left input of a join first. *)
Inductive NumberedFrom : nat -> VeloxPlan -> nat -> Prop :=
| NumberedFrom_read node lo hi :
    (lo <= hi)%nat ->
    NumberedFrom lo (ReadNode node) hi
| NumberedFrom_filter lo k filter source :
    NumberedFrom lo source k ->
    NumberedFrom lo (FilterNode (pretty k) filter source) (S k)
| NumberedFrom_project lo k names projections source :
    NumberedFrom lo source k ->
    NumberedFrom lo (ProjectNode (pretty k) names projections source) (S k)
| NumberedFrom_aggregation lo k step groupingKeys preGroupedKeys
    aggregateNames aggregates aggregateMasks ignoreNullKeys source :
    NumberedFrom lo source k ->
    NumberedFrom lo
      (AggregationNode (pretty k) step groupingKeys preGroupedKeys
         aggregateNames aggregates aggregateMasks ignoreNullKeys source)
      (S k)
| NumberedFrom_join lo mid k joinType leftKeys rightKeys filter
    leftNode rightNode rowType :
    NumberedFrom lo leftNode mid ->
    NumberedFrom mid rightNode k ->
    NumberedFrom lo
      (HashJoinNode (pretty k) joinType leftKeys rightKeys filter
         leftNode rightNode rowType)
      (S k).

(** The relation trees that have all their inputs: every aggregate,
    project and filter has its input and every join both of them, the
    leaves are reads, the first measure of an aggregate has a phase that
    is mapped, and a join has a type that is mapped and a condition that
    the key extraction reads to the end. *)
Inductive Complete (functionMap_ : gmap N string)
    (findVeloxFunction : gmap N string -> N -> result string)
  : Rel -> Prop :=
| Complete_read sRead :
    Complete functionMap_ findVeloxFunction (RelRead sRead)
| Complete_aggregate sInput groupings measures :
    Complete functionMap_ findVeloxFunction sInput ->
    isOk (setPhase measures) = true ->
    Complete functionMap_ findVeloxFunction
      (RelAggregate (Some sInput) groupings measures)
| Complete_project sInput expressions :
    Complete functionMap_ findVeloxFunction sInput ->
    Complete functionMap_ findVeloxFunction
      (RelProject (Some sInput) expressions)
| Complete_filter sInput condition :
    Complete functionMap_ findVeloxFunction sInput ->
    Complete functionMap_ findVeloxFunction (RelFilter (Some sInput) condition)
| Complete_join sLeft sRight expression post_join_filter type :
    Complete functionMap_ findVeloxFunction sLeft ->
    Complete functionMap_ findVeloxFunction sRight ->
    JoinShape functionMap_ findVeloxFunction expression ->
    isOk (mapJoinType type) = true ->
    Complete functionMap_ findVeloxFunction
      (RelJoin (Some sLeft) (Some sRight) expression post_join_filter type).

(** ** Scenarios for the relation tree *)

Definition sampleToVeloxField (f : FieldReference) (inputType : RowType)
  : result ITypedExpr :=
  match f with
  | DirectStructField i =>
      name ← at_index "names[i]" inputType.1 i;
      type ← at_index "children[i]" inputType.2 i;
      mret (FieldAccessTypedExpr type name)
  | OtherReference => Err (NotImplemented "field reference")
  end.

Definition sampleToVeloxExpression (e : Expression) (inputType : RowType)
  : result ITypedExpr :=
  match e with
  | ESelection f => sampleToVeloxField f inputType
  | EScalarFunction ref fargs =>
      sampleToVeloxExpr (mkScalarFunction ref fargs) inputType.1 inputType.2
  | _ => Err (NotImplemented "expression")
  end.

Fixpoint sampleOutputType (plan : VeloxPlan) : RowType :=
  match plan with
  | ReadNode (TableScanNode _ names types _ _) => (names, types)
  | ReadNode _ => ([], [])
  | FilterNode _ _ source => sampleOutputType source
  | ProjectNode _ names projections _ =>
      (names, replicate (length projections) BIGINT)
  | AggregationNode _ _ groupingKeys _ names aggregates _ _ _ =>
      (replicate (length groupingKeys) "key" ++ names,
       replicate (length groupingKeys + length aggregates) BIGINT)
  | HashJoinNode _ _ _ _ _ _ _ rowType => rowType
  end.

Definition convertRel (sRel : Rel) (st : ConverterState)
  : result (VeloxPlan * ConverterState) :=
  toVeloxPlanRel registry sampleBigintValues sampleDoubleValues
    sampleToVeloxExpr false sampleSplitInfo inputNodes sampleNodeName
    sampleVirtualTable sampleFindVeloxFunction sampleToVeloxExpression
    sampleToVeloxField sampleOutputType sRel st.

(** The plan a conversion gave, a read of nothing if it failed. *)
Definition planOf (r : result (VeloxPlan * ConverterState)) : VeloxPlan :=
  match r with Ok (plan, _) => plan | Err _ => ReadNode (UpstreamNode "") end.
Definition stateOf (r : result (VeloxPlan * ConverterState))
  : ConverterState :=
  match r with Ok (_, st) => st | Err _ => mkState 0 ∅ end.

(** An inner join of two scans on their first columns. *)
Definition sampleJoin : Rel :=
  RelJoin (Some (RelRead (readOf "/data/left.parquet")))
    (Some (RelRead (readOf "/data/right.parquet")))
    (ecall 14 [col 0; col 1]) None JOIN_TYPE_INNER.

(** A projection of a filter of that join. *)
Definition sampleTree : Rel :=
  RelProject (Some (RelFilter (Some sampleJoin) (ecall 4 [col 0; i64 10])))
    [col 1; col 0].

(** Two measures over the join, grouped by the first column; their phases
    differ. *)
Definition sampleMeasures : list AggregateFunction :=
  [mkAggregateFunction 8 [col 1] AGGREGATION_PHASE_INITIAL_TO_RESULT BIGINT;
   mkAggregateFunction 8 [col 0]
     AGGREGATION_PHASE_INTERMEDIATE_TO_RESULT BIGINT].

Definition sampleAggregate : Rel :=
  RelAggregate (Some sampleJoin) [[col 0]] sampleMeasures.


(** The names under which the extension functions of a plan register the
    anchor [id], in the order of the declarations. *)
Definition registrations (id : N)
    (sExtensions : list SimpleExtensionDeclaration) : list string :=
  omap (fun sExtension =>
          match sExtension with
          | ExtensionFunction anchor name =>
              if decide (anchor = id) then Some name else None
          | ExtensionOther => None
          end)
       sExtensions.

Definition convertPlan (sPlan : Plan) (functionMap_ : gmap N string)
    (st : ConverterState)
  : gmap N string * result (VeloxPlan * ConverterState) :=
  toVeloxPlanPlan sampleBigintValues sampleDoubleValues false sampleSplitInfo
    inputNodes sampleNodeName sampleVirtualTable sampleFindVeloxFunction
    sampleOutputType (fun _ => sampleToVeloxExpr)
    (fun _ => sampleToVeloxExpression) (fun _ => sampleToVeloxField)
    sPlan functionMap_ st.


(** * Virtual tables

    The overload [toVeloxPlan(const ReadRel&, const RowTypePtr&)] that
    turns the literal rows of a virtual table into a values node.  The
    counters and sizes are taken without wrap-around. *)

(** What the overload sees of [exprConverter_->toVeloxExpr(literal)]: a
    constant that has a value, a constant that has a value vector, or an
    expression that is no constant. *)
Inductive LiteralExpr : Type :=
| ConstantValue (value : variant)
| ConstantValueVector
| NotConstant.

Section VirtualTable.

Variable toVeloxLiteral : Literal -> result LiteralExpr.

(** [setVectorFromVariants(type, values, pool)], the flat vector of a
    column, built by the engine's vector classes. *)
Variable VectorPtr : Type.
Variable setVectorFromVariants : TypeKind -> list variant -> result VectorPtr.

(** A [RowVector], by its size and its children. *)
Record RowVector : Type := mkRowVector {
  vectorSize : nat;
  vectorChildren : list VectorPtr
}.

(** The loop over [batchId]: the values of one column of one struct. *)
Fixpoint batchChildLoop (fields : list Literal) (col batchSize : nat)
    (batchIds : list nat) (batchChild : list variant)
  : result (list variant) :=
  match batchIds with
  | [] => Ok batchChild
  | batchId :: rest =>
      let fieldIdx := (col * batchSize + batchId)%nat in
      field ← at_index "rowValue.fields(fieldIdx)" fields fieldIdx;
      expr ← toVeloxLiteral field;
      match expr with
      | ConstantValue value =>
          batchChildLoop fields col batchSize rest (batchChild ++ [value])
      | ConstantValueVector =>
          Err (NotImplemented
                 "Values node with complex type values is not supported yet")
      | NotConstant => Err (UserFail "Expected constant expression")
      end
  end.

(** The loop over [col]: the children of the row vector of one struct. *)
Fixpoint childrenLoop (fields : list Literal) (types : list TypeKind)
    (batchSize : nat) (cols : list nat) (children : list VectorPtr)
  : result (list VectorPtr) :=
  match cols with
  | [] => Ok children
  | col :: rest =>
      outputChildType ← at_index "type->childAt(col)" types col;
      batchChild ← batchChildLoop fields col batchSize (seq 0 batchSize) [];
      child ← setVectorFromVariants outputChildType batchChild;
      childrenLoop fields types batchSize rest (children ++ [child])
  end.

(** The loop over [index]: one row vector for each struct of values. *)
Fixpoint vectorsLoop (types : list TypeKind) (batchSize : nat)
    (rows : list (list Literal)) (vectors : list RowVector)
  : result (list RowVector) :=
  match rows with
  | [] => Ok vectors
  | rowValue :: rest =>
      let numColumns := length types in
      let fieldSize := length rowValue in
      _ ← VELOX_CHECK (Nat.eqb fieldSize (batchSize * numColumns))
            "fieldSize == batchSize * numColumns";
      children ← childrenLoop rowValue types batchSize (seq 0 numColumns) [];
      vectorsLoop types batchSize rest
        (vectors ++ [mkRowVector batchSize children])
  end.

(** [toVeloxPlan(const ReadRel&, const RowTypePtr&)], on the structs of
    values of the virtual table, each one the list of its fields.  The
    batch size is read off the last struct; with no struct at all the
    access to the last one, and with no column the division, is
    undefined. *)
Definition toVeloxPlanValues (values : list (list Literal)) (type : RowType)
    (st : ConverterState)
  : result (PlanNode * list RowVector * ConverterState) :=
  let numColumns := length type.2 in
  lastValue ← match last values with
              | Some rowValue => Ok rowValue
              | None => Err (Undefined "values(numVectors - 1)")
              end;
  let valueFieldNums := length lastValue in
  batchSize ← (if Nat.eqb numColumns 0
               then Err (Undefined "valueFieldNums / numColumns")
               else Ok (valueFieldNums / numColumns)%nat);
  vectors ← vectorsLoop type.2 batchSize values [];
  let '(id, st') := nextPlanNodeId st in
  Ok (ValuesNode id, vectors, st').

End VirtualTable.

(** Stand-ins for the literal converter and the vector builder. *)
Definition sampleToVeloxLiteral (l : Literal) : result LiteralExpr :=
  match l with
  | LitI32 z => Ok (ConstantValue (VInteger z))
  | LitI64 z => Ok (ConstantValue (VBigint z))
  | LitFp64 d => Ok (ConstantValue (VDouble d))
  | LitString s => Ok (ConstantValue (VVarchar s))
  | LitList _ => Ok ConstantValueVector
  | _ => Err (NotImplemented "literal")
  end.
Definition sampleSetVector (type : TypeKind) (values : list variant)
  : result (list variant) :=
  Ok values.

(** Two columns and three rows in one struct: the fields come column by
    column. *)
Definition sampleFields : list Literal :=
  [LitI64 1; LitI64 2; LitI64 3; LitString "a"; LitString "b"; LitString "c"].


(** The leaves that can be pushed down at all: a [not], an [or], or a call
    of one of the seven comparison names that reads as a field alone or as
    a field with a literal. *)
Definition Pushable (functionMap_ : gmap N string) (leaf : ScalarFunction)
  : Prop :=
  exists name,
    filterNameOf functionMap_ leaf = Ok name
    /\ (name = sNot \/ name = sOr
        \/ (inNames name [sIsNotNull; sGte; sGt; sLte; sLt; sEqual; sIn] = true
            /\ exists fieldIdx, fieldOrWithLiteral leaf = Ok (Some fieldIdx))).


(** ** A not-equal next to IN values *)

(** A registry for a DOUBLE column. *)
Definition doubleRegistry : gmap N string :=
  list_to_map
    [(1%N, "and:bool_bool"); (2%N, "or:bool_bool"); (3%N, "not:bool");
     (8%N, "equal:fp64_fp64"); (9%N, "in:fp64_list");
     (10%N, "is_not_null:fp64")].

(** The filter
    [and(not(equal(c0, 5.0)), or(in(c0, [1.0, 2.0]), is_not_null(c0)))]
    over a DOUBLE column (the literals are given by their bit patterns). *)
Definition notEqualWithIn : Expression :=
  ecall 1
    [ecall 3 [ecall 8 [col 0; fp64 0x4014000000000000]];
     ecall 2
       [ecall 9 [col 0;
                 ELiteral (LitList [LitFp64 (Fp64 0x3FF0000000000000);
                                    LitFp64 (Fp64 0x4000000000000000)])];
        ecall 10 [col 0]]].


(** INCols, in the words of the specification: the columns that appear as
    the left argument of some [in] leaf of the flattened conjunction. *)
Definition INCols (functionMap_ : gmap N string)
    (leaves : list ScalarFunction) (idx : nat) : Prop :=
  exists inLeaf f rest,
    inLeaf ∈ leaves
    /\ filterNameOf functionMap_ inLeaf = Ok sIn
    /\ args inLeaf = ESelection f :: rest
    /\ parseReferenceSegment f = Ok idx.


(** ** Conditions whose calls have two arguments

    The key extraction reads [args(0)] and [args(1)] of an [and] or [eq]
    call without looking at the number of arguments; with fewer than two
    the behaviour of the code is undefined.  The properties about which
    conditions are accepted are stated for the conditions all of whose
    calls have at least two arguments. *)

Fixpoint binaryCalls (e : Expression) : bool :=
  match e with
  | EScalarFunction _ fargs =>
      (2 <=? length fargs)%nat && forallb binaryCalls fargs
  | _ => true
  end.

(** The same for every join condition of a relation tree. *)
Fixpoint joinConditionsBinary (sRel : Rel) : bool :=
  match sRel with
  | RelAggregate input _ _ =>
      match input with Some sInput => joinConditionsBinary sInput | None => true end
  | RelProject input _ =>
      match input with Some sInput => joinConditionsBinary sInput | None => true end
  | RelFilter input _ =>
      match input with Some sInput => joinConditionsBinary sInput | None => true end
  | RelJoin leftInput rightInput expression _ _ =>
      binaryCalls expression
      && match leftInput with
         | Some sLeft => joinConditionsBinary sLeft
         | None => true
         end
      && match rightInput with
         | Some sRight => joinConditionsBinary sRight
         | None => true
         end
  | RelRead _ => true
  | RelOther => true
  end.

(** * Reasoning about the result monad *)

Lemma bind_Ok {A B} (m : result A) (f : A -> result B) (b : B) :
  m ≫= f = Ok b -> exists a, m = Ok a /\ f a = Ok b.
Proof. destruct m as [a|e]; simpl; [eauto|discriminate]. Qed.

Lemma isOk_bind {A B} (m : result A) (f : A -> result B) :
  isOk (m ≫= f) = true -> exists a, m = Ok a /\ isOk (f a) = true.
Proof. destruct m as [a|e]; simpl; [eauto|discriminate]. Qed.

Lemma isOk_Ok {A} (m : result A) :
  isOk m = true -> exists a, m = Ok a.
Proof. destruct m as [a|e]; simpl; [eauto|discriminate]. Qed.

Lemma VELOX_CHECK_Ok cond msg u : VELOX_CHECK cond msg = Ok u -> cond = true.
Proof. destruct cond; [reflexivity|discriminate]. Qed.

(** Splits a hypothesis [m ≫= f = Ok b] into the two successful steps. *)
Ltac bind_inv H :=
  let a := fresh "a" in
  let H1 := fresh H "_step" in
  first
    [ apply bind_Ok in H as [a [H1 H]]
    | apply isOk_bind in H as [a [H1 H]] ].

(** * Flattening *)

Section FlattenProperties.

Variable functionMap_ : gmap N string.

Lemma flattenConditions_and ref sargs spec acc :
  findSubstraitFuncSpec functionMap_ ref = Ok spec ->
  getSubFunctionName spec = "and" ->
  flattenConditions functionMap_ (EScalarFunction ref sargs) acc
  = flattenEach functionMap_ sargs acc.
Proof.
  intros Hspec Hname. simpl. rewrite Hspec, Hname. simpl.
  generalize acc.
  induction sargs as [|c rest IH]; intros acc0; simpl; [reflexivity|].
  destruct (flattenConditions functionMap_ c acc0); [apply IH|reflexivity].
Qed.

Lemma flattenConditions_leaf ref sargs spec acc :
  findSubstraitFuncSpec functionMap_ ref = Ok spec ->
  getSubFunctionName spec <> "and" ->
  flattenConditions functionMap_ (EScalarFunction ref sargs) acc
  = Ok (acc ++ [mkScalarFunction ref sargs]).
Proof.
  intros Hspec Hname. simpl. rewrite Hspec.
  destruct (String.eqb_spec (getSubFunctionName spec) "and"); [contradiction|].
  reflexivity.
Qed.

Lemma flattenConditions_not_call e acc :
  has_scalar_function e = false ->
  flattenConditions functionMap_ e acc
  = Err (NotImplemented "GetFlatConditions not supported for type '{}'").
Proof. destruct e; simpl; intros H; try reflexivity; discriminate. Qed.

Lemma flattenEach_fails conds c acc :
  c ∈ conds ->
  (forall acc', isOk (flattenConditions functionMap_ c acc') = false) ->
  isOk (flattenEach functionMap_ conds acc) = false.
Proof.
  intros Hin Hc. revert acc.
  induction conds as [|c0 rest IH]; intros acc; [by apply elem_of_nil in Hin|].
  simpl. apply elem_of_cons in Hin as [<-|Hin].
  - specialize (Hc acc). destruct (flattenConditions functionMap_ c acc);
      [discriminate|reflexivity].
  - destruct (flattenConditions functionMap_ c0 acc); [by apply IH|reflexivity].
Qed.

Lemma flattenConditions_visits_non_call e n :
  Visited functionMap_ e n ->
  has_scalar_function n = false ->
  forall acc, isOk (flattenConditions functionMap_ e acc) = false.
Proof.
  induction 1 as [e|ref sargs spec c n Hspec Hname Hin _ IH]; intros Hn acc.
  - by rewrite flattenConditions_not_call.
  - rewrite (flattenConditions_and _ _ _ _ Hspec Hname).
    eapply flattenEach_fails; [exact Hin|]. intros acc'. by apply IH.
Qed.

(** Induction on expressions with a hypothesis for every argument of a
    scalar call. *)
Lemma Expression_args_ind (P : Expression -> Prop) :
  (forall l, P (ELiteral l)) ->
  (forall f, P (ESelection f)) ->
  (forall ref sargs, Forall P sargs -> P (EScalarFunction ref sargs)) ->
  P EIfThen -> P ECast -> P ENotSet ->
  forall e, P e.
Proof.
  intros Hlit Hsel Hcall Hif Hcast Hnone.
  fix IH 1.
  intros [l|f|ref sargs| | |];
    [apply Hlit | apply Hsel | | exact Hif | exact Hcast | exact Hnone].
  apply Hcall. induction sargs as [|c rest IHrest]; constructor.
  - apply IH.
  - exact IHrest.
Qed.

Lemma flattenEach_extends conds :
  Forall (fun c => forall acc out,
            flattenConditions functionMap_ c acc = Ok out ->
            exists suffix, out = acc ++ suffix) conds ->
  forall acc out, flattenEach functionMap_ conds acc = Ok out ->
  exists suffix, out = acc ++ suffix.
Proof.
  induction 1 as [|c rest Hc _ IH]; intros acc out; simpl.
  - intros [= <-]. exists []. by rewrite app_nil_r.
  - destruct (flattenConditions functionMap_ c acc) as [acc'|] eqn:E;
      [|discriminate].
    intros Hrest. destruct (Hc _ _ E) as [s1 ->].
    destruct (IH _ _ Hrest) as [s2 ->]. exists (s1 ++ s2). by rewrite app_assoc.
Qed.

Lemma flattenConditions_extends e :
  forall acc out, flattenConditions functionMap_ e acc = Ok out ->
  exists suffix, out = acc ++ suffix.
Proof.
  induction e as [l|f|ref sargs IH| | |] using Expression_args_ind;
    intros acc out; try (simpl; discriminate).
  destruct (findSubstraitFuncSpec functionMap_ ref) as [spec|] eqn:Hspec.
  - destruct (String.eqb_spec (getSubFunctionName spec) "and") as [Hand|Hand].
    + rewrite (flattenConditions_and _ _ _ _ Hspec Hand).
      by apply flattenEach_extends.
    + rewrite (flattenConditions_leaf _ _ _ _ Hspec Hand). intros [= <-]. eauto.
  - simpl. rewrite Hspec. discriminate.
Qed.

Lemma flattenEach_keeps conds c leaf :
  c ∈ conds ->
  (forall acc out, flattenConditions functionMap_ c acc = Ok out -> leaf ∈ out) ->
  forall acc out, flattenEach functionMap_ conds acc = Ok out -> leaf ∈ out.
Proof.
  intros Hin Hc.
  induction conds as [|c0 rest IH]; intros acc out; [by apply elem_of_nil in Hin|].
  simpl. destruct (flattenConditions functionMap_ c0 acc) as [acc'|] eqn:E;
    [|discriminate].
  intros Hrest. apply elem_of_cons in Hin as [<-|Hin].
  - assert (Hacc' : leaf ∈ acc') by (eapply Hc; eauto).
    destruct (flattenEach_extends rest) with (acc := acc') (out := out)
      as [suffix ->]; [|exact Hrest|set_solver].
    apply Forall_forall. intros x _. apply flattenConditions_extends.
  - eapply IH; eauto.
Qed.

Lemma flattenConditions_visits_leaf e n :
  Visited functionMap_ e n ->
  forall spec, has_scalar_function n = true ->
  findSubstraitFuncSpec functionMap_ (function_reference (scalar_function n))
  = Ok spec ->
  getSubFunctionName spec <> "and" ->
  forall acc out, flattenConditions functionMap_ e acc = Ok out ->
  scalar_function n ∈ out.
Proof.
  induction 1 as [e|ref sargs spec0 c n Hspec0 Hname0 Hin _ IH];
    intros spec Hcall Hspec Hname acc out.
  - destruct e as [| |ref sargs| | |]; try discriminate. simpl in Hspec.
    rewrite (flattenConditions_leaf _ _ _ _ Hspec Hname). intros [= <-].
    simpl. set_solver.
  - rewrite (flattenConditions_and _ _ _ _ Hspec0 Hname0).
    apply flattenEach_keeps with (c := c); [exact Hin|].
    intros acc' out'. by eapply IH.
Qed.

Lemma flattenEach_error conds :
  forall acc err,
    flattenEach functionMap_ conds acc = Err err ->
    exists c acc',
      c ∈ conds /\ flattenConditions functionMap_ c acc' = Err err.
Proof.
  induction conds as [|c0 rest IH]; intros acc err; simpl; [discriminate|].
  destruct (flattenConditions functionMap_ c0 acc) as [acc0|err0] eqn:Hc0.
  - intros H. apply IH in H as (c & acc' & Hin & Hc).
    exists c, acc'. split; [by right|done].
  - intros [= <-]. exists c0, acc. split; [by left|done].
Qed.

(** The two failures of the flattening: the default case of the switch,
    and the lookup of an anchor that is not registered.  When the anchor
    of every visited scalar call is registered, only the first is left. *)
Lemma flattenConditions_error e :
  forall acc err,
    flattenConditions functionMap_ e acc = Err err ->
    (err = NotImplemented "GetFlatConditions not supported for type '{}'"
     \/ err = UserFail "Could not find function id in function map.")
    /\ ((forall m ref sargs,
           Visited functionMap_ e m -> m = EScalarFunction ref sargs ->
           isOk (findSubstraitFuncSpec functionMap_ ref) = true) ->
        err = NotImplemented "GetFlatConditions not supported for type '{}'").
Proof.
  induction e as [l|f|ref sargs IH| | |] using Expression_args_ind;
    intros acc err H;
    try (simpl in H; injection H as <-; split; [by left|done]).
  destruct (findSubstraitFuncSpec functionMap_ ref) as [spec|err0] eqn:Hspec.
  - destruct (String.eqb_spec (getSubFunctionName spec) "and") as [Hname|Hname].
    + rewrite (flattenConditions_and _ _ _ _ Hspec Hname) in H.
      apply flattenEach_error in H as (c & acc' & Hin & Hc).
      rewrite Forall_forall in IH.
      destruct (IH c Hin acc' err Hc) as [Hkind Hregistered].
      split; [done|]. intros Hall. apply Hregistered.
      intros m r sa Hvisited ->. eapply Hall; [|reflexivity].
      by eapply visited_below.
    + rewrite (flattenConditions_leaf _ _ _ _ Hspec Hname) in H.
      discriminate H.
  - simpl in H. rewrite Hspec in H. injection H as <-.
    split.
    + right. unfold findSubstraitFuncSpec in Hspec.
      destruct (functionMap_ !! ref); [discriminate|]. by injection Hspec as <-.
    + intros Hall.
      specialize (Hall _ ref sargs (visited_here _ _) eq_refl).
      rewrite Hspec in Hall. discriminate Hall.
Qed.

(** C7, as amended: the flattening descends only through scalar calls
    named [and]; every other scalar call it visits is kept verbatim as a
    leaf of the result, whatever its own arguments are, and a visited node
    that is not a scalar call (a boolean literal, a raw field reference)
    makes the whole flattening fail: it is an error, not a residual.  The
    failure is the not-implemented error of the default case, unless the
    lookup of an unregistered anchor of a visited call fails first: when
    the anchor of every visited scalar call is registered, it is always
    the not-implemented error. *)
Theorem flattenConditions_visited e n acc :
  Visited functionMap_ e n ->
  (has_scalar_function n = false ->
   exists err,
     flattenConditions functionMap_ e acc = Err err
     /\ (err = NotImplemented "GetFlatConditions not supported for type '{}'"
         \/ err = UserFail "Could not find function id in function map.")
     /\ ((forall m ref sargs,
            Visited functionMap_ e m -> m = EScalarFunction ref sargs ->
            isOk (findSubstraitFuncSpec functionMap_ ref) = true) ->
         err = NotImplemented "GetFlatConditions not supported for type '{}'"))
  /\ (forall spec out,
        has_scalar_function n = true ->
        findSubstraitFuncSpec functionMap_
          (function_reference (scalar_function n)) = Ok spec ->
        getSubFunctionName spec <> "and" ->
        flattenConditions functionMap_ e acc = Ok out ->
        scalar_function n ∈ out)
  /\ (forall ref sargs spec acc',
        n = EScalarFunction ref sargs ->
        findSubstraitFuncSpec functionMap_ ref = Ok spec ->
        getSubFunctionName spec <> "and" ->
        flattenConditions functionMap_ n acc'
        = Ok (acc' ++ [mkScalarFunction ref sargs])).
Proof.
  intros Hv. split; [|split].
  - intros Hn.
    pose proof (flattenConditions_visits_non_call _ _ Hv Hn acc) as Hfails.
    destruct (flattenConditions functionMap_ e acc) as [out|err] eqn:Hflat;
      [discriminate Hfails|].
    exists err. split; [done|]. by eapply flattenConditions_error.
  - intros spec out Hcall Hspec Hname Hout.
    by eapply flattenConditions_visits_leaf.
  - intros ref sargs spec acc' -> Hspec Hname.
    by eapply flattenConditions_leaf.
Qed.

End FlattenProperties.

Lemma flattenConditions_visited_witness :
  exists err,
    flattenConditions registry filterWithLiteral [] = Err err
    /\ (err = NotImplemented "GetFlatConditions not supported for type '{}'"
        \/ err = UserFail "Could not find function id in function map.")
    /\ ((forall m ref sargs,
           Visited registry filterWithLiteral m ->
           m = EScalarFunction ref sargs ->
           isOk (findSubstraitFuncSpec registry ref) = true) ->
        err = NotImplemented "GetFlatConditions not supported for type '{}'").
Proof.
  apply (flattenConditions_visited registry filterWithLiteral
           (ELiteral (LitBoolean true)) []).
  - eapply visited_below with (c := ELiteral (LitBoolean true));
      [vm_compute; reflexivity | reflexivity | | apply visited_here].
    apply list_elem_of_lookup. exists 1%nat. reflexivity.
  - reflexivity.
Defined.

(** C7, as stated, fails: a boolean literal among the conjuncts is not
    passed on as a residual, the conversion of the filter stops with a
    not-implemented error. *)
Lemma flattenConditions_literal_is_error :
  flattenConditions registry filterWithLiteral []
  = Err (NotImplemented "GetFlatConditions not supported for type '{}'")
  /\ ~ (exists handle,
          scanTableHandle registry sampleBigintValues sampleDoubleValues
            sampleToVeloxExpr (Some filterWithLiteral) UNKNOWN ["c0"] [BIGINT]
          = Ok handle).
Proof.
  split; [vm_compute; reflexivity|].
  intros [handle H]. vm_compute in H. discriminate H.
Qed.

(** * The accumulator follows the comparison table *)

Lemma onColumn_present (m : gmap nat FilterInfo) colIdx fi method :
  m !! colIdx = Some fi ->
  onColumn m colIdx method = Ok (<[colIdx := method fi]> m).
Proof. intros H. unfold onColumn. by rewrite H. Qed.

(** C3: applied to the [FilterInfo] of a column, [setColInfoMap] performs
    the action the comparison table gives for the leaf name and the
    [reverse] flag; where the table has no action under [reverse]
    ([is_not_null]) it raises a not-implemented error. *)
Theorem setColInfoMap_follows_table name reverse action
    (colInfoMap : gmap nat FilterInfo) colIdx fi v :
  comparisonTable name reverse = Some action ->
  colInfoMap !! colIdx = Some fi ->
  match action with
  | Unsupported =>
      setColInfoMap name colIdx v reverse colInfoMap
      = Err (NotImplemented "Reverse not supported for filter name '{}'")
  | _ =>
      exists fi',
        setColInfoMap name colIdx v reverse colInfoMap
        = Ok (<[colIdx := fi']> colInfoMap)
        /\ performs action v fi fi'
  end.
Proof.
  intros Htable Hcol. unfold comparisonTable in Htable.
  unfold setColInfoMap, sIsNotNull, sGte, sGt, sLte, sLt, sEqual.
  repeat match type of Htable with
         | (if String.eqb ?n ?s then _ else _) = _ =>
             destruct (String.eqb n s)
         end;
    try discriminate;
    destruct reverse; injection Htable as <-;
    try reflexivity;
    try (eexists; split; [by apply onColumn_present | reflexivity]).
  simpl. rewrite (onColumn_present _ _ _ _ Hcol). simpl.
  rewrite onColumn_present with (fi := setLower v false fi)
    by apply lookup_insert_eq.
  eexists; split; [by rewrite insert_insert_eq | reflexivity].
Qed.

Lemma setColInfoMap_follows_table_witness :
  exists fi',
    setColInfoMap "gte" 0 (Some (VBigint 10)) false {[0%nat := newFilterInfo]}
    = Ok (<[0%nat := fi']> {[0%nat := newFilterInfo]})
    /\ performs (AppendLower false) (Some (VBigint 10)) newFilterInfo fi'.
Proof.
  apply (setColInfoMap_follows_table "gte" false (AppendLower false)
           {[0%nat := newFilterInfo]} 0 newFilterInfo (Some (VBigint 10)));
    reflexivity.
Defined.

(** * The not-equal filter *)

Section NotEqualFilter.

Variable createBigintValues : list Z -> bool -> Filter.
Variable createDoubleValues : list double -> bool -> Filter.
Context {KIND : TypeKind} `{RT : RangeTraits KIND}.


End NotEqualFilter.



(** * Disjunctions among the pushdown candidates *)

Lemma childrenColumns_sameColumnOr n colIndices :
  childrenColumns (replicate n (ecall 4 [col 0; i64 1])) colIndices
  = Ok (Some (colIndices ++ replicate n 0%nat)).
Proof.
  revert colIndices. induction n as [|n IH]; intros colIndices; simpl.
  - by rewrite app_nil_r.
  - rewrite IH. by rewrite <- app_assoc.
Qed.

Lemma canPushdownOrArgs_sameColumnOr n inExists :
  canPushdownOrArgs registry (replicate n (ecall 4 [col 0; i64 1])) ∅ inExists
  = Ok true.
Proof. induction n as [|n IH]; [reflexivity|]. exact IH. Qed.

Lemma canPushdownOr_sameColumnOr n :
  canPushdownOr registry (sameColumnOr n) ∅ = Ok true.
Proof.
  unfold canPushdownOr, chidrenFunctionsOnSameField, sameColumnOr, call.
  simpl args. rewrite childrenColumns_sameColumnOr. simpl.
  replace (forallb _ _) with true; [apply canPushdownOrArgs_sameColumnOr|].
  symmetry. apply forallb_forall. intros idx Hin.
  apply list_elem_of_In, elem_of_replicate in Hin as [-> _].
  destruct n; reflexivity.
Qed.

Section OrArity.

Variable functionMap_ : gmap N string.
Variable createBigintValues : list Z -> bool -> Filter.
Variable createDoubleValues : list double -> bool -> Filter.

Lemma accumulateFilterInfo_or_arity candidates inputTypeList :
  forall colInfoMap f,
    f ∈ candidates ->
    filterNameOf functionMap_ f = Ok "or" ->
    isOk (accumulateFilterInfo functionMap_ candidates inputTypeList colInfoMap)
    = true ->
    length (args f) = 2%nat /\ forallb has_scalar_function (args f) = true.
Proof.
  induction candidates as [|g rest IH]; intros colInfoMap f Hin Hname;
    [by apply elem_of_nil in Hin|].
  apply elem_of_cons in Hin as [<-|Hin]; simpl.
  - rewrite Hname. simpl.
    destruct (Nat.eqb_spec (length (args f)) 2) as [Hlen|]; [|discriminate].
    simpl. destruct (forallb has_scalar_function (args f)); [|discriminate].
    auto.
  - destruct (filterNameOf functionMap_ g) as [name|]; simpl; [|discriminate].
    intros Hok.
    destruct (String.eqb name sNot); [|destruct (String.eqb name sOr)];
      repeat bind_inv Hok; eauto.
Qed.

End OrArity.

(** C10: the eligibility check accepts a same-column [or] of any number
    of children, while the accumulator only completes when every [or]
    among the candidates has exactly two arguments, all scalar calls; so
    the conjunction made of one [or] with three comparisons on the same
    column is placed among the pushdown candidates and then stops the
    accumulation, and with it the conversion of the scan, with a failed
    check. *)
Theorem or_arity_unchecked_by_eligibility :
  (forall n, canPushdownOr registry (sameColumnOr n) ∅ = Ok true)
  /\ (forall functionMap createBigintValues createDoubleValues
        inputNameList inputTypeList candidates f,
        f ∈ candidates ->
        filterNameOf functionMap f = Ok "or" ->
        isOk (toSubfieldFilters functionMap createBigintValues
                createDoubleValues inputNameList inputTypeList candidates)
        = true ->
        length (args f) = 2%nat
        /\ forallb has_scalar_function (args f) = true)
  /\ separateFilters registry [sameColumnOr 3] = Ok ([sameColumnOr 3], [])
  /\ (forall createBigintValues createDoubleValues,
        toSubfieldFilters registry createBigintValues createDoubleValues
          ["c0"] [BIGINT] [sameColumnOr 3]
        = Err (CheckFailed "scalarFunction.args().size() == 2"))
  /\ (forall createBigintValues createDoubleValues toVeloxExpr format,
        scanTableHandle registry createBigintValues createDoubleValues
          toVeloxExpr (Some (toExpression (sameColumnOr 3))) format
          ["c0"] [BIGINT]
        = Err (CheckFailed "scalarFunction.args().size() == 2")).
Proof.
  split; [exact canPushdownOr_sameColumnOr|].
  split; [|split; [vm_compute; reflexivity|
                   split; intros; vm_compute; reflexivity]].
  intros fm cbv cdv names types candidates f Hin Hname Hok.
  unfold toSubfieldFilters in Hok.
  destruct (accumulateFilterInfo fm candidates types (initColInfoMap types))
    eqn:Hacc; [|discriminate].
  eapply accumulateFilterInfo_or_arity; eauto. by rewrite Hacc.
Qed.

Lemma or_arity_unchecked_by_eligibility_witness :
  length (args (sameColumnOr 2)) = 2%nat
  /\ forallb has_scalar_function (args (sameColumnOr 2)) = true.
Proof.
  apply (proj1 (proj2 or_arity_unchecked_by_eligibility)
           registry sampleBigintValues sampleDoubleValues
           ["c0"] [BIGINT] [sameColumnOr 2] (sameColumnOr 2)).
  - apply list_elem_of_lookup. exists 0%nat. reflexivity.
  - vm_compute; reflexivity.
  - vm_compute; reflexivity.
Defined.

(** * IN values next to range bounds *)

(** C9 fails on [inOrRange], the filter
    [or(in(c0, [1.0, 2.0]), gte(c0, 5.0))] over a DOUBLE column: the
    eligibility analysis places the [or] among the pushdown candidates
    (its [in] child is not a top-level [in], so the column is not in
    [inCols]); the accumulator then leaves both IN values and a lower
    bound on column 0, and the builder stops at its own consistency
    check. *)
Theorem in_with_range_reaches_builder_check :
  separateFilters registry [inOrRange] = Ok ([inOrRange], [])
  /\ (exists colInfoMap filterInfo,
        accumulateFilterInfo registry [inOrRange] [DOUBLE]
          (initColInfoMap [DOUBLE]) = Ok colInfoMap
        /\ colInfoMap !! 0%nat = Some filterInfo
        /\ valuesVector_ filterInfo
           = [VDouble (Fp64 0x3FF0000000000000);
              VDouble (Fp64 0x4000000000000000)]
        /\ lowerBounds_ filterInfo = [Some (VDouble (Fp64 0x4014000000000000))])
  /\ (forall createBigintValues createDoubleValues,
        toSubfieldFilters registry createBigintValues createDoubleValues
          ["c0"] [DOUBLE] [inOrRange]
        = Err (CheckFailed
                 "LowerBounds or upperBounds conditons cannot be supported after IN filter."))
  /\ (forall createBigintValues createDoubleValues toVeloxExpr format,
        scanTableHandle registry createBigintValues createDoubleValues
          toVeloxExpr (Some (toExpression inOrRange)) format ["c0"] [DOUBLE]
        = Err (CheckFailed
                 "LowerBounds or upperBounds conditons cannot be supported after IN filter.")).
Proof.
  split; [vm_compute; reflexivity|]. split; [|split].
  - eexists _, _. split; [vm_compute; reflexivity|].
    split; [vm_compute; reflexivity|]. split; reflexivity.
  - intros. vm_compute. reflexivity.
  - intros. vm_compute. reflexivity.
Qed.

(** * Ranges built from bounds of different lengths *)

Section RangeLoop.

Context {KIND : TypeKind} `{RT : RangeTraits KIND}.

(** Where both bounds are present at an index, the range built at that
    index uses exactly them, whatever the earlier iterations left. *)
Lemma range_uses_present_bounds filterInfo idx (b : RangeBounds)
    lowerVariant upperVariant (lower upper : NativeType)
    lowerExcl upperExcl :
  lowerBounds_ filterInfo !! idx = Some (Some lowerVariant) ->
  upperBounds_ filterInfo !! idx = Some (Some upperVariant) ->
  value lowerVariant = Ok lower ->
  value upperVariant = Ok upper ->
  lowerExclusives_ filterInfo !! idx = Some lowerExcl ->
  upperExclusives_ filterInfo !! idx = Some upperExcl ->
  takeLower filterInfo idx b ≫= takeUpper filterInfo idx
  = Ok (mkRangeBounds lower false lowerExcl upper false upperExcl).
Proof.
  intros Hl Hu Hlv Huv Hle Hue. unfold takeLower, takeUpper, at_index.
  rewrite Hl, Hlv. simpl. rewrite Hle. simpl.
  rewrite Hu, Huv. simpl. rewrite Hue. reflexivity.
Qed.

(** Where a bound is absent at an index, the loop leaves its locals as the
    earlier iterations set them: unbounded only if no earlier index had a
    bound on that side. *)
Lemma range_keeps_earlier_bounds filterInfo idx (b : RangeBounds) :
  (lowerBounds_ filterInfo !! idx = None
   \/ lowerBounds_ filterInfo !! idx = Some None ->
   takeLower filterInfo idx b = Ok b)
  /\ (upperBounds_ filterInfo !! idx = None
      \/ upperBounds_ filterInfo !! idx = Some None ->
      takeUpper filterInfo idx b = Ok b).
Proof.
  unfold takeLower, takeUpper. split; intros [-> | ->]; reflexivity.
Qed.

End RangeLoop.

(** C2 fails on [gteOrEqual], the filter [or(gte(c0, 1), equal(c0, 5))]
    over a BIGINT column: the accumulator leaves two lower bounds and one
    upper bound, so there is no upper bound at index 1; yet the second
    range is not unbounded above, it is built with the upper bound of the
    first range, which the loop never resets. *)
Theorem stale_upper_bound_in_second_range :
  separateFilters registry [gteOrEqual] = Ok ([gteOrEqual], [])
  /\ accumulateFilterInfo registry [gteOrEqual] [BIGINT]
       (initColInfoMap [BIGINT]) = Ok {[0%nat := twoLowerOneUpper]}
  /\ upperBounds_ twoLowerOneUpper !! 1%nat = None
  /\ (forall createBigintValues createDoubleValues,
        toSubfieldFilters registry createBigintValues createDoubleValues
          ["c0"] [BIGINT] [gteOrEqual]
        = Ok {["c0" :=
                 BigintMultiRange
                   [BigintRange 1 false false 5 false false true;
                    BigintRange 5 false false 5 false false true]
                   true]}).
Proof.
  split; [vm_compute; reflexivity|].
  split; [vm_compute; reflexivity|].
  split; [reflexivity|].
  intros. vm_compute. reflexivity.
Qed.

(** * The format-level veto *)

Lemma parquetSupports_spec k :
  parquetSupports k = true <-> In k parquetKinds.
Proof.
  unfold parquetKinds. destruct k; simpl; split; intros H;
    try reflexivity; try discriminate; try tauto;
    repeat (destruct H as [H|H]; try discriminate H); contradiction.
Qed.

Lemma isPushDownSupportedByFormat_spec format filters :
  isPushDownSupportedByFormat format filters = true
  <-> FormatSupports format filters.
Proof.
  unfold FormatSupports.
  destruct format; simpl; try (split; [intros _ H; discriminate H|reflexivity]).
  rewrite forallb_forall. split.
  - intros H _ name filter Hlookup. apply parquetSupports_spec.
    apply (H (name, filter)). apply list_elem_of_In.
    by apply elem_of_map_to_list.
  - intros H [name filter] Hin. apply parquetSupports_spec. simpl.
    apply (H eq_refl name). apply elem_of_map_to_list.
    by apply list_elem_of_In.
Qed.

Section FormatVeto.

Variable functionMap_ : gmap N string.
Variable createBigintValues : list Z -> bool -> Filter.
Variable createDoubleValues : list double -> bool -> Filter.
Variable toVeloxExpr :
  ScalarFunction -> list string -> list TypeKind -> result ITypedExpr.
Variable inputNameList : list string.
Variable inputTypeList : list TypeKind.

Lemma connectRest_foldl leaves es acc :
  translateAll toVeloxExpr inputNameList inputTypeList leaves = Ok es ->
  connectRest toVeloxExpr inputNameList inputTypeList leaves acc
  = Ok (foldl (fun a x => CallTypedExpr BOOLEAN [a; x] "and") acc es).
Proof.
  revert es acc. induction leaves as [|f rest IH]; intros es acc; simpl.
  - intros [= <-]. reflexivity.
  - intros H. bind_inv H. rewrite H_step. simpl.
    bind_inv H. injection H as <-. simpl. by apply IH.
Qed.

Lemma connectWithAnd_conjunction leaves es :
  translateAll toVeloxExpr inputNameList inputTypeList leaves = Ok es ->
  connectWithAnd toVeloxExpr inputNameList inputTypeList leaves
  = Ok (conjunction es).
Proof.
  destruct leaves as [|f rest]; simpl.
  - intros [= <-]. reflexivity.
  - intros H. bind_inv H. rewrite H_step. simpl.
    bind_inv H. injection H as <-. simpl.
    by rewrite (connectRest_foldl _ _ _ H_step0).
Qed.

(** C1: once the builder has produced the subfield filter map of a scan,
    a format that does not support every filter of the map makes the
    table handle carry an empty map and, as remaining filter, the
    conjunction of all flattened leaves; a format that supports them all
    keeps the map and the remaining filter is the conjunction of the
    leaves that were not pushed down. *)
Theorem format_veto_is_all_or_nothing sFilter format leaves pushed remaining
    filters :
  flattenConditions functionMap_ sFilter [] = Ok leaves ->
  separateFilters functionMap_ leaves = Ok (pushed, remaining) ->
  toSubfieldFilters functionMap_ createBigintValues createDoubleValues
    inputNameList inputTypeList pushed = Ok filters ->
  (~ FormatSupports format filters ->
   forall es, translateAll toVeloxExpr inputNameList inputTypeList leaves = Ok es ->
     scanTableHandle functionMap_ createBigintValues createDoubleValues
       toVeloxExpr (Some sFilter) format inputNameList inputTypeList
     = Ok (mkHiveTableHandle "test-hive" "hive_table" true ∅ (conjunction es)))
  /\ (FormatSupports format filters ->
      forall es, translateAll toVeloxExpr inputNameList inputTypeList remaining = Ok es ->
        scanTableHandle functionMap_ createBigintValues createDoubleValues
          toVeloxExpr (Some sFilter) format inputNameList inputTypeList
        = Ok (mkHiveTableHandle "test-hive" "hive_table" true filters
                (conjunction es))).
Proof.
  intros Hflat Hsep Hfilters. unfold scanTableHandle.
  rewrite Hflat. simpl. rewrite Hsep. simpl. rewrite Hfilters. simpl.
  pose proof (isPushDownSupportedByFormat_spec format filters) as Hspec.
  destruct (isPushDownSupportedByFormat format filters); simpl; split.
  - intros Hno. exfalso. apply Hno. by apply Hspec.
  - intros _ es Hes. by rewrite (connectWithAnd_conjunction _ _ Hes).
  - intros _ es Hes. by rewrite (connectWithAnd_conjunction _ _ Hes).
  - intros Hyes. apply Hspec in Hyes. discriminate Hyes.
Qed.

End FormatVeto.

(** A Parquet scan with the filter [is_not_null(c0)]: the builder emits
    [IsNotNull], which the format does not support. *)
Lemma format_veto_is_all_or_nothing_witness :
  scanTableHandle registry sampleBigintValues sampleDoubleValues
    sampleToVeloxExpr (Some (ecall 10 [col 0])) PARQUET ["c0"] [BIGINT]
  = Ok (mkHiveTableHandle "test-hive" "hive_table" true ∅
          (Some (CallTypedExpr BOOLEAN [] "is_not_null"))).
Proof.
  apply (proj1 (format_veto_is_all_or_nothing registry sampleBigintValues
                  sampleDoubleValues sampleToVeloxExpr ["c0"] [BIGINT]
                  (ecall 10 [col 0]) PARQUET [call 10 [col 0]]
                  [call 10 [col 0]] [] {["c0" := IsNotNull]}
                  ltac:(vm_compute; reflexivity)
                  ltac:(vm_compute; reflexivity)
                  ltac:(vm_compute; reflexivity)))
    with (es := [CallTypedExpr BOOLEAN [] "is_not_null"]).
  - intros Hsupports.
    specialize (Hsupports eq_refl "c0" IsNotNull ltac:(vm_compute; reflexivity)).
    simpl in Hsupports. intuition discriminate.
  - vm_compute; reflexivity.
Defined.

(** * Leaves on IN columns *)

Section InColumns.

Variable functionMap_ : gmap N string.
Variable inCols : gset nat.

Lemma separateFiltersFrom_partition leaves :
  forall notEqualCols pushed remaining pushed' remaining',
    separateFiltersFrom functionMap_ leaves inCols notEqualCols pushed remaining
    = Ok (pushed', remaining') ->
    forall leaf,
      (leaf ∈ pushed \/ leaf ∈ remaining \/ leaf ∈ leaves) ->
      leaf ∈ pushed' \/ leaf ∈ remaining'.
Proof.
  induction leaves as [|g rest IH];
    intros notEqualCols pushed remaining pushed' remaining' Hsep leaf Hin.
  - injection Hsep as <- <-. destruct Hin as [?|[?|Hin]]; auto.
    by apply elem_of_nil in Hin.
  - simpl in Hsep. bind_inv Hsep.
    destruct (negb (String.eqb a sNot) && negb (String.eqb a sOr)).
    + bind_inv Hsep.
      destruct a0; (eapply IH; [exact Hsep|]);
        rewrite elem_of_app, list_elem_of_singleton;
        rewrite elem_of_cons in Hin; tauto.
    + bind_inv Hsep. destruct a0 as [supported notEqualCols'].
      destruct supported; (eapply IH; [exact Hsep|]);
        rewrite elem_of_app, list_elem_of_singleton;
        rewrite elem_of_cons in Hin; tauto.
Qed.

Lemma separateFiltersFrom_never_pushed leaves leaf :
  NeverPushed functionMap_ inCols leaf ->
  forall notEqualCols pushed remaining pushed' remaining',
    separateFiltersFrom functionMap_ leaves inCols notEqualCols pushed remaining
    = Ok (pushed', remaining') ->
    leaf ∉ pushed -> leaf ∉ pushed'.
Proof.
  intros Hnever.
  induction leaves as [|g rest IH];
    intros notEqualCols pushed remaining pushed' remaining' Hsep Hnot.
  - by injection Hsep as <- <-.
  - simpl in Hsep. bind_inv Hsep. rename a into name.
    assert (Hg : leaf = g -> filterNameOf functionMap_ leaf = Ok name)
      by (by intros ->).
    destruct (negb (String.eqb name sNot) && negb (String.eqb name sOr)).
    + bind_inv Hsep. destruct a; (eapply IH; [exact Hsep|]); [|exact Hnot].
      intros [Hin|Heq%list_elem_of_singleton]%elem_of_app; [by apply Hnot|].
      subst g. destruct (Hnever name (Hg eq_refl)) as [Hc _].
      by specialize (Hc _ Hsep_step0).
    + bind_inv Hsep. destruct a as [supported notEqualCols'].
      destruct supported; (eapply IH; [exact Hsep|]); [|exact Hnot].
      intros [Hin|Heq%list_elem_of_singleton]%elem_of_app; [by apply Hnot|].
      subst g. destruct (Hnever name (Hg eq_refl)) as [_ [Hn Ho]].
      destruct (String.eqb name sNot).
      * by specialize (Hn _ _ _ Hsep_step0).
      * bind_inv Hsep_step0. injection Hsep_step0 as -> _.
        by specialize (Ho _ Hsep_step0_step).
Qed.

(** A leaf that is a field, or a field with a literal, does not start
    with a scalar call. *)
Lemma fieldOrWithLiteral_first_arg leaf idx :
  fieldOrWithLiteral leaf = Ok (Some idx) ->
  exists a rest, args leaf = a :: rest /\ has_scalar_function a = false.
Proof.
  unfold fieldOrWithLiteral. destruct (args leaf) as [|a [|b [|c more]]];
    simpl; try discriminate.
  - destruct a; simpl; try discriminate. eauto.
  - destruct a; simpl; eauto.
    destruct b as [| f | | | |]; simpl; try discriminate.
    destruct (parseReferenceSegment f); simpl; discriminate.
Qed.

(** A leaf with a scalar call among its arguments is not a field with a
    literal. *)
Lemma fieldOrWithLiteral_with_call leaf child r :
  child ∈ args leaf ->
  has_scalar_function child = true ->
  fieldOrWithLiteral leaf = Ok r ->
  r = None.
Proof.
  unfold fieldOrWithLiteral.
  destruct (args leaf) as [|a [|b [|c more]]]; simpl; intros Hin Hcall.
  - by apply elem_of_nil in Hin.
  - apply list_elem_of_singleton in Hin as <-.
    destruct child; try discriminate Hcall. simpl. by intros [= <-].
  - apply elem_of_cons in Hin as [<-|Hin];
      [|apply list_elem_of_singleton in Hin as <-];
      destruct child; try discriminate Hcall; simpl.
    + destruct b as [|f| | | |]; simpl; try (by intros [= <-]).
      destruct (parseReferenceSegment f); simpl; [by intros [= <-]|discriminate].
    + destruct a as [|f| | | |]; simpl; try (by intros [= <-]).
      destruct (parseReferenceSegment f); simpl; [by intros [= <-]|discriminate].
  - by intros [= <-].
Qed.

Lemma canPushdownOrArgs_in_column fargs child idx :
  child ∈ fargs ->
  has_scalar_function child = true ->
  fieldOrWithLiteral (scalar_function child) = Ok (Some idx) ->
  idx ∈ inCols ->
  forall inExists b,
    canPushdownOrArgs functionMap_ fargs inCols inExists = Ok b -> b = false.
Proof.
  intros Hin Hcall Hfield Hidx.
  induction fargs as [|arg rest IH]; intros inExists b;
    [by apply elem_of_nil in Hin|].
  simpl. destruct (has_scalar_function arg) eqn:Harg; simpl;
    [|by intros [= <-]].
  intros H. bind_inv H. bind_inv H.
  match type of H with
  | (if ?c then _ else _) = _ => destruct c; [by injection H as <-|]
  end.
  destruct a0 as [fieldIdx|]; [|by injection H as <-].
  destruct (bool_decide (fieldIdx ∈ inCols)) eqn:Hdec; [by injection H as <-|].
  apply elem_of_cons in Hin as [->|Hin].
  - rewrite Hfield in H_step0. injection H_step0 as <-.
    by rewrite bool_decide_eq_true_2 in Hdec.
  - repeat match type of H with
           | (if ?c then _ else _) = _ => destruct c
           end;
      try (by injection H as <-); by eapply IH.
Qed.

Lemma in_column_leaf_never_pushed leaf name idx :
  filterNameOf functionMap_ leaf = Ok name ->
  References leaf idx ->
  idx ∈ inCols ->
  name <> sIsNotNull -> name <> sIn ->
  NeverPushed functionMap_ inCols leaf.
Proof.
  intros Hname Href Hin Hnn Hni name' Hname'.
  rewrite Hname in Hname'. injection Hname' as <-.
  destruct Href as [Hfield|child Hchild Hcall Hfield].
  - destruct (fieldOrWithLiteral_first_arg _ _ Hfield)
      as (a & rest & Hargs & Ha).
    split; [|split].
    + intros b. unfold canPushdownCommonFunction.
      destruct (negb (inNames name _)); [by intros [= <-]|].
      rewrite Hfield. simpl. rewrite bool_decide_eq_true_2 by exact Hin. simpl.
      destruct (String.eqb_spec name sIsNotNull); [contradiction|].
      destruct (String.eqb_spec name sIn); [contradiction|].
      by intros [= <-].
    + intros notEqualCols b notEqualCols'. unfold canPushdownNot.
      intros H. bind_inv H. rewrite Hargs in H. simpl in H. rewrite Ha in H.
      simpl in H. by injection H as <- _.
    + intros b. unfold canPushdownOr, chidrenFunctionsOnSameField.
      rewrite Hargs. simpl. rewrite Ha. simpl. by intros [= <-].
  - split; [|split].
    + intros b. unfold canPushdownCommonFunction.
      destruct (negb (inNames name _)); [by intros [= <-]|].
      intros H. bind_inv H.
      rewrite (fieldOrWithLiteral_with_call _ _ _ Hchild Hcall H_step) in H.
      by injection H as <-.
    + intros notEqualCols b notEqualCols'. unfold canPushdownNot.
      intros H. bind_inv H. apply VELOX_CHECK_Ok, Nat.eqb_eq in H_step.
      destruct (args leaf) as [|notArg [|? ?]]; try discriminate H_step.
      apply list_elem_of_singleton in Hchild as <-. simpl in H.
      rewrite Hcall in H. simpl in H. bind_inv H. bind_inv H.
      rewrite Hfield in H_step1. injection H_step1 as <-.
      match type of H with
      | (if ?c then _ else _) = _ => destruct c; [by injection H as <- _|]
      end.
      rewrite bool_decide_eq_true_2 in H by exact Hin.
      by injection H as <- _.
    + intros b. unfold canPushdownOr. intros H. bind_inv H.
      destruct (negb a); [by injection H as <-|].
      by eapply canPushdownOrArgs_in_column.
Qed.

End InColumns.

Section InColumnsOfLeaves.

Variable functionMap_ : gmap N string.

Lemma getColumnIndexFromIn_left_argument inLeaf colIdx :
  getColumnIndexFromIn inLeaf = Ok colIdx ->
  exists f rest,
    args inLeaf = ESelection f :: rest /\ parseReferenceSegment f = Ok colIdx.
Proof.
  unfold getColumnIndexFromIn. intros H. bind_inv H.
  destruct (args inLeaf) as [|a0 [|a1 more]]; try discriminate H.
  do 4 bind_inv H. injection H as <-.
  apply VELOX_CHECK_Ok in H_step0.
  destruct a0 as [|f| | | |]; try discriminate H_step0.
  by exists f, (a1 :: more).
Qed.

(** The set that [getInColIndices] returns holds, besides what it started
    from, exactly the columns that are the left argument of an [in]
    leaf. *)
Lemma getInColIndicesFrom_INCols leaves :
  forall start inCols,
    getInColIndicesFrom functionMap_ leaves start = Ok inCols ->
    forall idx,
      idx ∈ inCols <-> idx ∈ start \/ INCols functionMap_ leaves idx.
Proof.
  induction leaves as [|leaf rest IH]; intros start inCols; simpl.
  - intros [= <-] idx. split; [by left|].
    intros [?|(inLeaf & f & more & Hin & _)]; [done|].
    by apply elem_of_nil in Hin.
  - intros H idx. bind_inv H. rename a into name.
    assert (Hrest : forall start',
      getInColIndicesFrom functionMap_ rest start' = Ok inCols ->
      (idx ∈ start -> idx ∈ start') ->
      (forall f more, name = sIn -> args leaf = ESelection f :: more ->
                      parseReferenceSegment f = Ok idx -> idx ∈ start') ->
      (idx ∈ start' -> idx ∈ start \/ INCols functionMap_ (leaf :: rest) idx) ->
      idx ∈ inCols <-> idx ∈ start \/ INCols functionMap_ (leaf :: rest) idx).
    { intros start' Hfrom Hkeeps Hhead Hstart'.
      rewrite (IH _ _ Hfrom idx). split.
      - intros [?|(inLeaf & f & more & Hin & Hname & Hargs & Hparse)];
          [by apply Hstart'|].
        right. exists inLeaf, f, more. repeat split; auto. by right.
      - intros [Hs|(inLeaf & f & more & Hin & Hname & Hargs & Hparse)].
        + left. by apply Hkeeps.
        + apply elem_of_cons in Hin as [->|Hin].
          * left. eapply Hhead; [|exact Hargs|exact Hparse].
            rewrite H_step in Hname. by injection Hname as ->.
          * right. exists inLeaf, f, more. by repeat split. }
    destruct (String.eqb_spec name sIn) as [->|Hname].
    + bind_inv H.
      destruct (has_selection (hd ENotSet (args leaf))) eqn:Hsel.
      * bind_inv H. rename a0 into colIdx.
        destruct (getColumnIndexFromIn_left_argument _ _ H_step1)
          as (f & more & Hargs & Hparse).
        apply (Hrest _ H).
        -- intros Hs. by apply elem_of_union_r.
        -- intros f' more' _ Hargs' Hparse'. rewrite Hargs in Hargs'.
           injection Hargs' as <- <-. rewrite Hparse in Hparse'.
           injection Hparse' as <-. by apply elem_of_union_l, elem_of_singleton.
        -- intros [->%elem_of_singleton|?]%elem_of_union; [|by left].
           right. exists leaf, f, more. repeat split; auto. by left.
      * apply (Hrest _ H); [done| |by left].
        intros f more _ Hargs _. rewrite Hargs in Hsel. discriminate Hsel.
    + apply (Hrest _ H); [done| |by left]. intros f more Hin. contradiction.
Qed.

Lemma getInColIndices_INCols leaves inCols idx :
  getInColIndices functionMap_ leaves = Ok inCols ->
  idx ∈ inCols <-> INCols functionMap_ leaves idx.
Proof.
  intros H. rewrite (getInColIndicesFrom_INCols _ _ _ H idx). split.
  - intros [Hempty|?]; [by apply elem_of_empty in Hempty|done].
  - by right.
Qed.

(** C5: in a flattened conjunction, a leaf that refers to a column of
    INCols, the columns that are the left argument of some [in] leaf of
    the conjunction, is among the pushdown candidates only if it is named
    [is_not_null] or [in]; a [gte], [gt], [lte], [lt] or [equal] leaf on
    such a column is among the residuals and not among the candidates. *)
Theorem in_column_leaves_are_residual leaves pushed remaining leaf name idx :
  separateFilters functionMap_ leaves = Ok (pushed, remaining) ->
  leaf ∈ leaves ->
  filterNameOf functionMap_ leaf = Ok name ->
  References leaf idx ->
  INCols functionMap_ leaves idx ->
  (leaf ∈ pushed -> name = "is_not_null" \/ name = "in")
  /\ (In name ["gte"; "gt"; "lte"; "lt"; "equal"] ->
      leaf ∈ remaining /\ leaf ∉ pushed).
Proof.
  intros Hsep Hleaf Hname Hfield HinCols.
  unfold separateFilters in Hsep. bind_inv Hsep. rename a into inCols.
  assert (Hidx : idx ∈ inCols) by by eapply getInColIndices_INCols.
  assert (Hrej : name <> sIsNotNull -> name <> sIn -> leaf ∉ pushed).
  { intros Hnn Hni.
    eapply separateFiltersFrom_never_pushed; [|exact Hsep|apply not_elem_of_nil].
    by eapply in_column_leaf_never_pushed. }
  split.
  - intros Hpushed.
    destruct (String.eqb_spec name sIsNotNull) as [->|Hnn]; [by left|].
    destruct (String.eqb_spec name sIn) as [->|Hni]; [by right|].
    by destruct (Hrej Hnn Hni).
  - intros Hcmp.
    assert (Hno : leaf ∉ pushed).
    { apply Hrej; intros ->; simpl in Hcmp; intuition discriminate. }
    split; [|exact Hno].
    destruct (separateFiltersFrom_partition _ _ _ _ _ _ _ _ Hsep leaf) as [?|?];
      auto. contradiction.
Qed.

End InColumnsOfLeaves.

Lemma in_column_leaves_are_residual_witness :
  (gteLeaf ∈ [inLeaf] -> "gte" = "is_not_null" \/ "gte" = "in")
  /\ (In "gte" ["gte"; "gt"; "lte"; "lt"; "equal"] ->
      gteLeaf ∈ [gteLeaf] /\ gteLeaf ∉ [inLeaf]).
Proof.
  apply (in_column_leaves_are_residual registry
           [inLeaf; gteLeaf] [inLeaf] [gteLeaf] gteLeaf "gte" 0).
  - vm_compute; reflexivity.
  - apply list_elem_of_lookup. exists 1%nat. reflexivity.
  - vm_compute; reflexivity.
  - apply refers_directly. vm_compute; reflexivity.
  - exists inLeaf, (DirectStructField 0),
      [ELiteral (LitList [LitI64 1; LitI64 2])].
    split; [by left|]. split; [vm_compute; reflexivity|].
    split; reflexivity.
Defined.

(** * Join keys *)

Section JoinKeys.

Variable functionMap_ : gmap N string.
Variable findVeloxFunction : gmap N string -> N -> result string.

Lemma extractJoinKeysLoop_step visited rest leftExprs rightExprs :
  extractJoinKeysLoop functionMap_ findVeloxFunction (visited :: rest)
    leftExprs rightExprs
  = match visitJoinExpression functionMap_ findVeloxFunction visited rest
            leftExprs rightExprs with
    | Err e => Err e
    | Ok next =>
        extractJoinKeysLoop functionMap_ findVeloxFunction
          next.1.1 next.1.2 next.2
    end.
Proof.
  simp extractJoinKeysLoop.
  destruct (inspect _) as [[next|e] Heq]; simpl; by rewrite Heq.
Qed.

(** An [and] puts its first two arguments on the work stack, the second
    on top; further arguments are not visited. *)
Lemma and_visits_first_two_arguments ref spec a0 a1 more rest
    leftExprs rightExprs :
  findVeloxFunction functionMap_ ref = Ok spec ->
  getSubFunctionName spec = "and" ->
  extractJoinKeysLoop functionMap_ findVeloxFunction
    (EScalarFunction ref (a0 :: a1 :: more) :: rest) leftExprs rightExprs
  = extractJoinKeysLoop functionMap_ findVeloxFunction
      (a1 :: a0 :: rest) leftExprs rightExprs.
Proof.
  intros Hspec Hname. rewrite extractJoinKeysLoop_step.
  unfold visitJoinExpression. rewrite Hspec. simpl. by rewrite Hname.
Qed.

Lemma extractJoinKeysLoop_JoinTree e pairs :
  JoinTree functionMap_ findVeloxFunction e pairs ->
  forall rest leftExprs rightExprs,
    extractJoinKeysLoop functionMap_ findVeloxFunction (e :: rest)
      leftExprs rightExprs
    = extractJoinKeysLoop functionMap_ findVeloxFunction rest
        (leftExprs ++ (rev pairs).*1) (rightExprs ++ (rev pairs).*2).
Proof.
  induction 1 as [ref spec l r Hspec Hname
                 |ref spec a b pairsA pairsB Hspec Hname _ IHa _ IHb];
    intros rest leftExprs rightExprs;
    rewrite extractJoinKeysLoop_step; unfold visitJoinExpression;
    rewrite Hspec; simpl; rewrite Hname; simpl.
  - reflexivity.
  - rewrite IHb, IHa, rev_app_distr, !fmap_app, <- !app_assoc. reflexivity.
Qed.

Lemma extractJoinKeys_JoinTree e pairs :
  JoinTree functionMap_ findVeloxFunction e pairs ->
  extractJoinKeys functionMap_ findVeloxFunction e
  = Ok ((rev pairs).*1, (rev pairs).*2).
Proof.
  intros Htree. unfold extractJoinKeys.
  rewrite (extractJoinKeysLoop_JoinTree _ _ Htree).
  by simp extractJoinKeysLoop.
Qed.

Lemma joinKeyFields_JoinTree e pairs :
  JoinTree functionMap_ findVeloxFunction e pairs ->
  joinKeyFields functionMap_ findVeloxFunction e = Ok (rev pairs).
Proof.
  intros Htree. unfold joinKeyFields.
  rewrite (extractJoinKeys_JoinTree _ _ Htree). simpl.
  rewrite !length_fmap, Nat.eqb_refl. simpl.
  by rewrite zip_fst_snd.
Qed.

(** C6, as amended: for a join condition that is a tree of [and] nodes
    over [eq(field, field)] leaves, the extraction yields as many left
    keys as right keys, and the (left, right) pairs appear in the reverse
    of the textual order of the [eq] leaves: the work stack visits the
    second argument of an [and] before the first. *)
Theorem join_keys_in_reverse_textual_order e pairs :
  JoinTree functionMap_ findVeloxFunction e pairs ->
  exists leftExprs rightExprs,
    extractJoinKeys functionMap_ findVeloxFunction e
    = Ok (leftExprs, rightExprs)
    /\ length leftExprs = length rightExprs
    /\ zip leftExprs rightExprs = rev pairs
    /\ joinKeyFields functionMap_ findVeloxFunction e = Ok (rev pairs).
Proof.
  intros Htree. exists (rev pairs).*1, (rev pairs).*2.
  split; [by apply extractJoinKeys_JoinTree|].
  split; [by rewrite !length_fmap|].
  split; [by rewrite zip_fst_snd|by apply joinKeyFields_JoinTree].
Qed.

End JoinKeys.

Lemma twoKeyJoin_tree :
  JoinTree registry sampleFindVeloxFunction twoKeyJoin twoKeyJoinPairs.
Proof.
  eapply (join_and _ _ 1%N _ _ _ [_] [_]);
    [vm_compute; reflexivity | reflexivity | | ];
    eapply join_eq; (vm_compute; reflexivity) || reflexivity.
Qed.

Lemma join_keys_in_reverse_textual_order_witness :
  exists leftExprs rightExprs,
    extractJoinKeys registry sampleFindVeloxFunction twoKeyJoin
    = Ok (leftExprs, rightExprs)
    /\ length leftExprs = length rightExprs
    /\ zip leftExprs rightExprs = rev twoKeyJoinPairs
    /\ joinKeyFields registry sampleFindVeloxFunction twoKeyJoin
       = Ok (rev twoKeyJoinPairs).
Proof.
  apply (join_keys_in_reverse_textual_order registry sampleFindVeloxFunction
           twoKeyJoin twoKeyJoinPairs).
  eapply (join_and _ _ 1%N _ _ _ [_] [_]);
    [vm_compute; reflexivity | reflexivity | | ];
    eapply join_eq; (vm_compute; reflexivity) || reflexivity.
Defined.

(** C6, as stated, fails: the two key pairs of [eq(c0, c2) and
    eq(c1, c3)] come out as (c1, c3), (c0, c2), not in the textual order
    of the leaves. *)
Lemma join_keys_not_in_textual_order :
  JoinTree registry sampleFindVeloxFunction twoKeyJoin twoKeyJoinPairs
  /\ joinKeyFields registry sampleFindVeloxFunction twoKeyJoin
     = Ok [(DirectStructField 1, DirectStructField 3);
           (DirectStructField 0, DirectStructField 2)]
  /\ joinKeyFields registry sampleFindVeloxFunction twoKeyJoin
     <> Ok twoKeyJoinPairs.
Proof.
  split; [exact twoKeyJoin_tree|].
  rewrite (joinKeyFields_JoinTree _ _ _ _ twoKeyJoin_tree).
  split; [reflexivity|discriminate].
Qed.

(** * Stream inputs *)

Section StreamInput.

Variable functionMap_ : gmap N string.
Variable createBigintValues : list Z -> bool -> Filter.
Variable createDoubleValues : list double -> bool -> Filter.
Variable toVeloxExpr :
  ScalarFunction -> list string -> list TypeKind -> result ITypedExpr.
Variable validationMode_ : bool.
Variable freshSplitInfo : SplitInfo.
Variable inputNodesMap_ : gmap Z PlanNode.
Variable makeNodeName : nat -> nat -> string.
Variable toVeloxPlanVirtualTable :
  ReadRel -> list string -> list TypeKind -> ConverterState ->
  result (PlanNode * ConverterState).

(** When the stream index is not negative, the relation is replaced by
    the input node registered at that index, and the split info recorded
    for it is marked as a stream. *)
Lemma stream_input_is_substituted sRead st streamIdx streamNode :
  streamIsInput validationMode_ sRead = Ok streamIdx ->
  0 <= streamIdx ->
  inputNodesMap_ !! streamIdx = Some streamNode ->
  exists st',
    toVeloxPlanRead functionMap_ createBigintValues createDoubleValues
      toVeloxExpr validationMode_ freshSplitInfo inputNodesMap_ makeNodeName
      toVeloxPlanVirtualTable sRead st = Ok (streamNode, st')
    /\ isStream <$> (splitInfoMap_ st' !! node_id streamNode) = Some true
    /\ planNodeId_ st' = planNodeId_ st.
Proof.
  intros Hidx Hpos Hnode. unfold toVeloxPlanRead.
  rewrite Hidx. simpl.
  destruct (Z.leb_spec 0 streamIdx) as [_|]; [|lia].
  rewrite Hnode. eexists. split; [reflexivity|]. simpl.
  by rewrite lookup_insert_eq.
Qed.

(** A first file whose URI does not contain [iterator:] is not a stream
    input. *)
Lemma plain_uri_is_not_a_stream sRead file0 files :
  local_files sRead = Some (file0 :: files) ->
  String.index 0 "iterator:" (uri_file file0) = None ->
  streamIsInput validationMode_ sRead = Ok (-1).
Proof. intros Hfiles Hindex. unfold streamIsInput. by rewrite Hfiles, Hindex. Qed.

End StreamInput.

(** C8 fails on the URI [/data/iterator:3/part-0.parquet]: it does not
    start with [iterator:], yet the text is found further inside, the
    digits after it are read as the stream index, and the relation is
    replaced by the input node 3 instead of a table scan of the file. *)
Theorem uri_containing_iterator_is_taken_as_stream :
  String.prefix "iterator:" "/data/iterator:3/part-0.parquet" = false
  /\ streamIsInput false (readOf "/data/iterator:3/part-0.parquet") = Ok 3
  /\ convertRead "/data/iterator:3/part-0.parquet"
     = Ok (UpstreamNode "42",
           mkState 0 {["42" := mkSplitInfo true 0 [] [] [] UNKNOWN]}).
Proof. repeat split; vm_compute; reflexivity. Qed.

(** The parts of the stream convention the converter does follow: a URI
    [iterator:3] is replaced by input node 3 and marked as a stream, a
    URI without the text yields a table scan, and an index that does not
    parse is fatal. *)
Lemma stream_convention_examples :
  convertRead "iterator:3"
  = Ok (UpstreamNode "42",
        mkState 0 {["42" := mkSplitInfo true 0 [] [] [] UNKNOWN]})
  /\ convertRead "/data/part-0.parquet"
     = Ok (TableScanNode "0" ["n0_0"] [BIGINT]
             (mkHiveTableHandle "test-hive" "hive_table" true ∅ None)
             {["n0_0" := mkHiveColumnHandle "c0" BIGINT]},
           mkState 1
             {["0" := mkSplitInfo false 0 ["/data/part-0.parquet"] [0%N]
                        [100%N] PARQUET]})
  /\ convertRead "iterator:abc" = Err (UserFail "stoi").
Proof. repeat split; vm_compute; reflexivity. Qed.

(** * More on flattening *)

Section FlattenComposition.

Variable functionMap_ : gmap N string.

Lemma flattenEach_from_empty conds :
  Forall (fun c => forall acc,
            flattenConditions functionMap_ c acc
            = leaves ← flattenConditions functionMap_ c []; Ok (acc ++ leaves))
    conds ->
  forall acc,
    flattenEach functionMap_ conds acc
    = leaves ← flattenEach functionMap_ conds []; Ok (acc ++ leaves).
Proof.
  induction 1 as [|c rest Hc _ IH]; intros acc; simpl.
  - by rewrite app_nil_r.
  - rewrite (Hc acc).
    destruct (flattenConditions functionMap_ c []) as [lc|]; simpl; [|done].
    rewrite (IH (acc ++ lc)), (IH lc).
    destruct (flattenEach functionMap_ rest []) as [lr|]; simpl; [|done].
    by rewrite app_assoc.
Qed.

(** X1: the accumulator of [flattenConditions] is only appended to: flattening
    into a vector that already holds leaves gives those leaves followed by
    the leaves of the filter, and fails exactly when flattening into an
    empty vector fails, with the same error. *)
Theorem flattenConditions_appends e acc :
  flattenConditions functionMap_ e acc
  = leaves ← flattenConditions functionMap_ e []; Ok (acc ++ leaves).
Proof.
  revert acc.
  induction e as [l|f|ref sargs IH| | |] using Expression_args_ind;
    intros acc; try reflexivity.
  destruct (findSubstraitFuncSpec functionMap_ ref) as [spec|] eqn:Hspec.
  - destruct (String.eqb_spec (getSubFunctionName spec) "and") as [Hand|Hand].
    + rewrite !(flattenConditions_and _ _ _ _ _ Hspec Hand).
      by apply flattenEach_from_empty.
    + by rewrite !(flattenConditions_leaf _ _ _ _ _ Hspec Hand).
  - simpl. by rewrite Hspec.
Qed.

Lemma flattenEach_app xs ys acc :
  flattenEach functionMap_ (xs ++ ys) acc
  = acc' ← flattenEach functionMap_ xs acc; flattenEach functionMap_ ys acc'.
Proof.
  revert acc. induction xs as [|x xs IH]; intros acc; simpl; [done|].
  destruct (flattenConditions functionMap_ x acc); simpl; [apply IH|done].
Qed.

(** X2: nested conjunctions flatten like flat ones: an [and] among the
    arguments of an [and] contributes its own arguments in place, so
    [and(and(a, b), c)] and [and(a, b, c)] yield the same leaves in the
    same order (and fail alike). *)
Theorem flattenConditions_nested_and outer inner specOuter specInner
    xs ys zs acc :
  findSubstraitFuncSpec functionMap_ outer = Ok specOuter ->
  getSubFunctionName specOuter = "and" ->
  findSubstraitFuncSpec functionMap_ inner = Ok specInner ->
  getSubFunctionName specInner = "and" ->
  flattenConditions functionMap_
    (EScalarFunction outer (xs ++ EScalarFunction inner ys :: zs)) acc
  = flattenConditions functionMap_ (EScalarFunction outer (xs ++ ys ++ zs)) acc.
Proof.
  intros Ho Hno Hi Hni.
  rewrite !(flattenConditions_and _ _ _ _ _ Ho Hno), !flattenEach_app.
  destruct (flattenEach functionMap_ xs acc) as [acc1|]; [|done].
  cbv beta iota delta [mbind result_bind]. rewrite flattenEach_app.
  change (flattenEach functionMap_ (EScalarFunction inner ys :: zs) acc1)
    with (acc' ← flattenConditions functionMap_ (EScalarFunction inner ys) acc1;
          flattenEach functionMap_ zs acc').
  by rewrite (flattenConditions_and _ _ _ _ _ Hi Hni).
Qed.

(** X3: what flattening never yields: a leaf named [and], or a leaf whose
    function anchor is not registered; so the later passes can always
    resolve the name of a flattened leaf. *)
Theorem flattened_leaves_are_not_and e leaves leaf :
  flattenConditions functionMap_ e [] = Ok leaves ->
  leaf ∈ leaves ->
  exists name,
    filterNameOf functionMap_ leaf = Ok name /\ name <> "and".
Proof.
  set (P := fun leaf : ScalarFunction =>
              exists name,
                filterNameOf functionMap_ leaf = Ok name /\ name <> "and").
  assert (Hall : forall e acc out,
             flattenConditions functionMap_ e acc = Ok out ->
             Forall P acc -> Forall P out).
  { clear. intros e.
    induction e as [l|f|ref sargs IH| | |] using Expression_args_ind;
      intros acc out; try (simpl; discriminate).
    destruct (findSubstraitFuncSpec functionMap_ ref) as [spec|] eqn:Hspec;
      [|simpl; rewrite Hspec; discriminate].
    destruct (String.eqb_spec (getSubFunctionName spec) "and") as [Hand|Hand].
    - rewrite (flattenConditions_and _ _ _ _ _ Hspec Hand).
      revert acc out. induction IH as [|c rest Hc _ IHrest];
        intros acc out; simpl.
      + by intros [= <-].
      + destruct (flattenConditions functionMap_ c acc) as [acc'|] eqn:E;
          [|discriminate].
        intros Hrest Hacc. eapply IHrest; [exact Hrest|]. by eapply Hc.
    - rewrite (flattenConditions_leaf _ _ _ _ _ Hspec Hand). intros [= <-] Hacc.
      apply Forall_app; split; [exact Hacc|]. constructor; [|constructor].
      exists (getSubFunctionName spec). split; [|exact Hand].
      unfold filterNameOf. simpl. by rewrite Hspec. }
  intros Hflat Hin.
  pose proof (Hall e [] leaves Hflat (Forall_nil_2 P)) as HP.
  rewrite Forall_forall in HP. by apply HP.
Qed.

End FlattenComposition.

Lemma flattenConditions_nested_and_witness :
  flattenConditions registry
    (ecall 1 ([ecall 4 [col 0; i64 1]]
              ++ ecall 1 [ecall 7 [col 0; i64 9]; ecall 10 [col 0]]
                 :: [ecall 5 [col 1; i64 2]])) []
  = flattenConditions registry
      (ecall 1 ([ecall 4 [col 0; i64 1]]
                ++ [ecall 7 [col 0; i64 9]; ecall 10 [col 0]]
                ++ [ecall 5 [col 1; i64 2]])) [].
Proof.
  apply (flattenConditions_nested_and registry 1%N 1%N
           "and:bool_bool" "and:bool_bool");
    (vm_compute; reflexivity) || reflexivity.
Defined.

Lemma flattened_leaves_are_not_and_witness :
  exists name,
    filterNameOf registry (call 4 [col 0; i64 10]) = Ok name /\ name <> "and".
Proof.
  apply (flattened_leaves_are_not_and registry
           (ecall 1 [ecall 4 [col 0; i64 10]; ecall 7 [col 0; i64 100]])
           [call 4 [col 0; i64 10]; call 7 [col 0; i64 100]]).
  - vm_compute; reflexivity.
  - apply list_elem_of_lookup. exists 0%nat. reflexivity.
Defined.


(** * More on the separation of the leaves *)

#[local] Set Warnings "-clear-no-such-hyp".

Section Separation.

Variable functionMap_ : gmap N string.

Lemma separateFiltersFrom_splits leaves inCols :
  forall notEqualCols pushed remaining pushed' remaining',
    separateFiltersFrom functionMap_ leaves inCols notEqualCols pushed remaining
    = Ok (pushed', remaining') ->
    exists ps rs,
      pushed' = pushed ++ ps /\ remaining' = remaining ++ rs
      /\ ps ++ rs ≡ₚ leaves /\ sublist ps leaves /\ sublist rs leaves.
Proof.
  induction leaves as [|g rest IH];
    intros notEqualCols pushed remaining pushed' remaining' Hsep.
  - injection Hsep as <- <-. exists [], []. by rewrite !app_nil_r.
  - simpl in Hsep. bind_inv Hsep.
    assert (Hpush : forall ne,
      separateFiltersFrom functionMap_ rest inCols ne (pushed ++ [g]) remaining
      = Ok (pushed', remaining') ->
      exists ps rs,
        pushed' = pushed ++ ps /\ remaining' = remaining ++ rs
        /\ ps ++ rs ≡ₚ g :: rest /\ sublist ps (g :: rest)
        /\ sublist rs (g :: rest)).
    { intros ne H. destruct (IH _ _ _ _ _ H) as (ps & rs & -> & -> & Hp & Hs1 & Hs2).
      exists (g :: ps), rs. rewrite <- app_assoc. repeat split; auto.
      - simpl. by constructor.
      - by constructor.
      - by constructor. }
    assert (Hkeep : forall ne,
      separateFiltersFrom functionMap_ rest inCols ne pushed (remaining ++ [g])
      = Ok (pushed', remaining') ->
      exists ps rs,
        pushed' = pushed ++ ps /\ remaining' = remaining ++ rs
        /\ ps ++ rs ≡ₚ g :: rest /\ sublist ps (g :: rest)
        /\ sublist rs (g :: rest)).
    { intros ne H. destruct (IH _ _ _ _ _ H) as (ps & rs & -> & -> & Hp & Hs1 & Hs2).
      exists ps, (g :: rs). rewrite <- app_assoc. repeat split; auto.
      - rewrite <- Permutation_middle. by constructor.
      - by constructor.
      - by constructor. }
    destruct (negb (String.eqb a sNot) && negb (String.eqb a sOr)).
    + bind_inv Hsep. destruct a0; eauto.
    + bind_inv Hsep. destruct a0 as [[] ?]; eauto.
Qed.

(** X4: no leaf is lost, duplicated or reordered by the separation: the
    pushdown candidates and the residuals are two subsequences of the
    flattened leaves, and together they are exactly those leaves. *)
Theorem separateFilters_partitions leaves pushed remaining :
  separateFilters functionMap_ leaves = Ok (pushed, remaining) ->
  pushed ++ remaining ≡ₚ leaves
  /\ sublist pushed leaves /\ sublist remaining leaves.
Proof.
  unfold separateFilters. intros H. bind_inv H.
  destruct (separateFiltersFrom_splits _ _ _ _ _ _ _ H)
    as (ps & rs & -> & -> & Hp & Hs1 & Hs2).
  auto.
Qed.

Lemma recordNotEqual_records eqArgs :
  forall notEqualCols b notEqualCols',
    recordNotEqual eqArgs notEqualCols = Ok (b, notEqualCols') ->
    (notEqualCols ⊆ notEqualCols')
    /\ (b = true ->
        forall idx, existsb (selectsColumn idx) eqArgs = true ->
          (idx ∉ notEqualCols) /\ idx ∈ notEqualCols').
Proof.
  induction eqArgs as [|eqArg rest IH]; intros ne b ne'; simpl.
  - intros [= <- <-]. split; [done|]. intros _ idx H. discriminate H.
  - destruct (has_selection eqArg) eqn:Hsel; simpl.
    + intros H. bind_inv H. rename a into colIdx.
      destruct (bool_decide (colIdx ∈ ne)) eqn:Hdec; simpl in H.
      * injection H as <- <-. split; [done|]. intros Hb. discriminate Hb.
      * apply bool_decide_eq_false in Hdec.
        destruct (IH _ _ _ H) as [Hsub Hrec]. split; [set_solver|].
        intros Hb idx Hex. apply orb_true_iff in Hex as [Hhere|Hrest].
        -- destruct eqArg as [|[i|]| | | |]; try discriminate Hhere.
           simpl in Hhere, H_step. apply Nat.eqb_eq in Hhere as <-.
           injection H_step as <-. split; [done|set_solver].
        -- destruct (Hrec Hb idx Hrest). split; set_solver.
    + intros H. destruct (IH _ _ _ H) as [Hsub Hrec]. split; [done|].
      intros Hb idx Hex. apply orb_true_iff in Hex as [Hhere|Hrest]; [|by eauto].
      destruct eqArg as [|[i|]| | | |]; discriminate.
Qed.

Lemma canPushdownNot_records leaf inCols notEqualCols b notEqualCols' :
  canPushdownNot functionMap_ leaf inCols notEqualCols = Ok (b, notEqualCols') ->
  (notEqualCols ⊆ notEqualCols')
  /\ (b = true ->
      forall idx, isNotEqualOn functionMap_ idx leaf = true ->
        (idx ∉ notEqualCols) /\ idx ∈ notEqualCols').
Proof.
  unfold canPushdownNot. intros H. bind_inv H.
  destruct (negb (has_scalar_function _)) eqn:Hcall;
    [injection H as <- <-; split; [done|discriminate]|].
  bind_inv H. bind_inv H.
  match type of H with
  | (if ?c then _ else _) = _ =>
      destruct c; [injection H as <- <-; split; [done|discriminate]|]
  end.
  destruct a1 as [fieldIdx|];
    [|injection H as <- <-; split; [done|discriminate]].
  destruct (bool_decide (fieldIdx ∈ inCols));
    [injection H as <- <-; split; [done|discriminate]|].
  destruct (String.eqb a0 sEqual) eqn:Heq.
  - destruct (recordNotEqual_records _ _ _ _ H) as [Hsub Hrec].
    split; [done|]. intros Hb idx Hne. apply (Hrec Hb).
    unfold isNotEqualOn in Hne.
    destruct (filterNameOf functionMap_ leaf); [|discriminate].
    destruct (args leaf) as [|[| |ref cargs| | |] [|? ?]]; try discriminate.
    simpl. by apply andb_true_iff in Hne as [_ Hne].
  - injection H as <- <-. split; [done|]. intros _ idx Hne.
    unfold isNotEqualOn in Hne.
    destruct (filterNameOf functionMap_ leaf); [|discriminate].
    destruct (args leaf) as [|[| |ref cargs| | |] [|? ?]]; try discriminate.
    simpl in H_step0. rewrite H_step0 in Hne. rewrite Heq in Hne.
    by rewrite andb_false_r in Hne.
Qed.

Lemma isNotEqualOn_named_not idx leaf name :
  filterNameOf functionMap_ leaf = Ok name ->
  isNotEqualOn functionMap_ idx leaf = true ->
  String.eqb name sNot = true.
Proof.
  unfold isNotEqualOn. intros ->.
  destruct (args leaf) as [|[| |ref cargs| | |] [|? ?]]; try discriminate.
  intros H. by apply andb_true_iff in H as [[H _]%andb_true_iff _].
Qed.

Lemma separateFiltersFrom_not_equal_count idx leaves inCols :
  forall notEqualCols pushed remaining pushed' remaining',
    separateFiltersFrom functionMap_ leaves inCols notEqualCols pushed remaining
    = Ok (pushed', remaining') ->
    (length (List.filter (isNotEqualOn functionMap_ idx) pushed')
     <= length (List.filter (isNotEqualOn functionMap_ idx) pushed)
        + (if bool_decide (idx ∈ notEqualCols) then 0 else 1))%nat.
Proof.
  induction leaves as [|g rest IH];
    intros notEqualCols pushed remaining pushed' remaining' Hsep.
  - injection Hsep as <- <-. lia.
  - simpl in Hsep. bind_inv Hsep. rename a into name.
    destruct (String.eqb name sNot) eqn:Hnot; simpl in Hsep.
    + bind_inv Hsep. destruct a as [b ne'].
      destruct (canPushdownNot_records _ _ _ _ _ Hsep_step0) as [Hsub Hrec].
      assert (Hmono : ((if bool_decide (idx ∈ ne') then 0 else 1)
                       <= (if bool_decide (idx ∈ notEqualCols) then 0 else 1))%nat).
      { repeat case_bool_decide; try lia. set_solver. }
      destruct b.
      * apply IH in Hsep. rewrite List.filter_app, length_app in Hsep. simpl in Hsep.
        destruct (isNotEqualOn functionMap_ idx g) eqn:Hg; simpl in Hsep; [|lia].
        destruct (Hrec eq_refl idx Hg) as [Hout Hin].
        rewrite bool_decide_eq_true_2 in Hsep by done.
        rewrite bool_decide_eq_false_2 by done. lia.
      * apply IH in Hsep. lia.
    + assert (Hg : isNotEqualOn functionMap_ idx g = false).
      { destruct (isNotEqualOn functionMap_ idx g) eqn:Hg; [|done].
        rewrite (isNotEqualOn_named_not _ _ _ Hsep_step Hg) in Hnot.
        discriminate. }
      assert (Hpush : forall ne,
        separateFiltersFrom functionMap_ rest inCols ne (pushed ++ [g]) remaining
        = Ok (pushed', remaining') ->
        (length (List.filter (isNotEqualOn functionMap_ idx) pushed')
         <= length (List.filter (isNotEqualOn functionMap_ idx) pushed)
            + (if bool_decide (idx ∈ ne) then 0 else 1))%nat).
      { intros ne H. apply IH in H.
        rewrite List.filter_app, length_app in H. simpl in H.
        rewrite Hg in H. simpl in H. lia. }
      destruct (negb (String.eqb name sOr)).
      * bind_inv Hsep. destruct a; eauto.
      * bind_inv Hsep. bind_inv Hsep_step0. injection Hsep_step0 as <-.
        destruct a0; eauto.
Qed.

(** X5: of the [not(equal)] leaves on one column, at most one is pushed down:
    the first one records the column, and every later one on that column
    stays among the residuals. *)
Theorem at_most_one_not_equal_per_column leaves pushed remaining idx :
  separateFilters functionMap_ leaves = Ok (pushed, remaining) ->
  (length (List.filter (isNotEqualOn functionMap_ idx) pushed) <= 1)%nat.
Proof.
  unfold separateFilters. intros H. bind_inv H.
  apply (separateFiltersFrom_not_equal_count idx) in H. simpl in H.
  rewrite bool_decide_eq_false_2 in H by set_solver. exact H.
Qed.

Lemma getInColIndicesFrom_malformed_in leaves leaf :
  leaf ∈ leaves ->
  filterNameOf functionMap_ leaf = Ok "in" ->
  args leaf = []
  \/ (has_selection (hd ENotSet (args leaf)) = true
      /\ length (args leaf) <> 2%nat) ->
  forall inCols,
    isOk (getInColIndicesFrom functionMap_ leaves inCols) = false.
Proof.
  intros Hin Hname Hbad.
  induction leaves as [|g rest IH]; intros inCols;
    [by apply elem_of_nil in Hin|].
  apply elem_of_cons in Hin as [<-|Hin]; simpl.
  - rewrite Hname. simpl. destruct Hbad as [->|[Hsel Hlen]]; [done|].
    destruct (args leaf) as [|a0 more] eqn:Hargs; [done|]. simpl in *.
    rewrite Hsel. unfold getColumnIndexFromIn. rewrite Hargs. simpl.
    destruct (Nat.eqb_spec (length more) 1) as [Heq|]; [|done].
    simpl in Hlen. lia.
  - destruct (filterNameOf functionMap_ g) as [name|]; simpl; [|done].
    destruct (String.eqb name sIn); [|by apply IH].
    destruct (0 <? length (args g))%nat; simpl; [|done].
    destruct (has_selection (hd ENotSet (args g))); [|by apply IH].
    destruct (getColumnIndexFromIn g); simpl; [by apply IH|done].
Qed.

(** X6: a malformed [in] is fatal, not a residual: a top-level [in] leaf
    without arguments, or with a field as first argument and a number of
    arguments other than two, makes the separation fail, whatever the
    other leaves are. *)
Theorem malformed_in_is_fatal leaves leaf :
  leaf ∈ leaves ->
  filterNameOf functionMap_ leaf = Ok "in" ->
  args leaf = []
  \/ (has_selection (hd ENotSet (args leaf)) = true
      /\ length (args leaf) <> 2%nat) ->
  isOk (separateFilters functionMap_ leaves) = false.
Proof.
  intros Hin Hname Hbad. unfold separateFilters.
  pose proof (getInColIndicesFrom_malformed_in _ _ Hin Hname Hbad ∅) as H.
  unfold getInColIndices.
  by destruct (getInColIndicesFrom functionMap_ leaves ∅).
Qed.

End Separation.

Lemma separateFilters_partitions_witness :
  [inLeaf] ++ [gteLeaf] ≡ₚ [inLeaf; gteLeaf]
  /\ sublist [inLeaf] [inLeaf; gteLeaf] /\ sublist [gteLeaf] [inLeaf; gteLeaf].
Proof.
  apply (separateFilters_partitions registry [inLeaf; gteLeaf]).
  vm_compute; reflexivity.
Defined.

Lemma at_most_one_not_equal_per_column_witness :
  (length (List.filter (isNotEqualOn registry 0)
             [call 3 [ecall 8 [col 0; i64 5]]]) <= 1)%nat.
Proof.
  apply (at_most_one_not_equal_per_column registry
           [call 3 [ecall 8 [col 0; i64 5]]; call 3 [ecall 8 [col 0; i64 7]]]
           [call 3 [ecall 8 [col 0; i64 5]]]
           [call 3 [ecall 8 [col 0; i64 7]]] 0).
  vm_compute; reflexivity.
Defined.

Lemma malformed_in_is_fatal_witness :
  isOk (separateFilters registry [gteLeaf; call 13 [col 0]]) = false.
Proof.
  apply (malformed_in_is_fatal registry [gteLeaf; call 13 [col 0]]
           (call 13 [col 0])).
  - apply list_elem_of_lookup. exists 1%nat. reflexivity.
  - vm_compute; reflexivity.
  - right. split; [reflexivity|]. simpl. lia.
Defined.


(** * More on the accumulator *)

Section Accumulator.

Variable functionMap_ : gmap N string.

(** X7: the order of the two arguments of a comparison is not looked at: a
    leaf with the literal first is accepted like the leaf with the field
    first, and it is accumulated as that leaf, so [lt(10, c0)] leaves the
    same upper bound as [lt(c0, 10)]. *)
Theorem literal_first_is_read_as_field_first ref f l inputTypeList
    (colInfoMap : gmap nat FilterInfo) reverse :
  (forall spec, findSubstraitFuncSpec functionMap_ ref = Ok spec ->
                getSubFunctionName spec <> "in") ->
  fieldOrWithLiteral (mkScalarFunction ref [ELiteral l; ESelection f])
  = fieldOrWithLiteral (mkScalarFunction ref [ESelection f; ELiteral l])
  /\ setFilterMap functionMap_
       (mkScalarFunction ref [ELiteral l; ESelection f])
       inputTypeList colInfoMap reverse
     = setFilterMap functionMap_
         (mkScalarFunction ref [ESelection f; ELiteral l])
         inputTypeList colInfoMap reverse.
Proof.
  intros Hname. split.
  - unfold fieldOrWithLiteral. simpl.
    by destruct (parseReferenceSegment f).
  - unfold setFilterMap, filterNameOf. simpl.
    destruct (findSubstraitFuncSpec functionMap_ ref) as [spec|] eqn:Hspec;
      simpl; [|done].
    destruct (String.eqb_spec (getSubFunctionName spec) sIn) as [Hin|_];
      [by destruct (Hname spec eq_refl)|].
    by destruct (parseReferenceSegment f).
Qed.

Lemma FilterInfoInvariant_setLower K fi v excl :
  FilterInfoInvariant K fi -> boundOfKind K v ->
  FilterInfoInvariant K (setLower v excl fi).
Proof.
  intros (Hl & Hu & Hlk & Huk & Hn) Hv. unfold FilterInfoInvariant. simpl.
  rewrite !length_app, Hl. repeat split; auto.
  apply Forall_app. split; [done|]. by constructor.
Qed.

Lemma FilterInfoInvariant_setUpper K fi v excl :
  FilterInfoInvariant K fi -> boundOfKind K v ->
  FilterInfoInvariant K (setUpper v excl fi).
Proof.
  intros (Hl & Hu & Hlk & Huk & Hn) Hv. unfold FilterInfoInvariant. simpl.
  rewrite !length_app, Hu. repeat split; auto.
  apply Forall_app. split; [done|]. by constructor.
Qed.

Lemma ColInfoMapInvariant_onColumn inputTypeList (colInfoMap colInfoMap' :
    gmap nat FilterInfo) colIdx method :
  ColInfoMapInvariant inputTypeList colInfoMap ->
  (forall K fi, inputTypeList !! colIdx = Some K ->
     FilterInfoInvariant K fi -> FilterInfoInvariant K (method fi)) ->
  onColumn colInfoMap colIdx method = Ok colInfoMap' ->
  ColInfoMapInvariant inputTypeList colInfoMap'.
Proof.
  intros Hinv Hmethod. unfold onColumn.
  destruct (colInfoMap !! colIdx) as [fi|] eqn:Hfi; [|discriminate].
  intros [= <-] idx. specialize (Hinv idx).
  destruct (decide (idx = colIdx)) as [->|Hne].
  - rewrite lookup_insert_eq. rewrite Hfi in Hinv.
    destruct (inputTypeList !! colIdx) as [K|] eqn:HK; [|discriminate].
    destruct Hinv as (fi' & [= <-] & Hfi'). eauto.
  - by rewrite lookup_insert_ne.
Qed.

Lemma ColInfoMapInvariant_setColInfoMap inputTypeList
    (colInfoMap colInfoMap' : gmap nat FilterInfo) name colIdx v reverse :
  ColInfoMapInvariant inputTypeList colInfoMap ->
  (forall K, inputTypeList !! colIdx = Some K -> boundOfKind K v) ->
  setColInfoMap name colIdx v reverse colInfoMap = Ok colInfoMap' ->
  ColInfoMapInvariant inputTypeList colInfoMap'.
Proof.
  intros Hinv Hv. unfold setColInfoMap.
  assert (Hlow : forall excl m m',
    ColInfoMapInvariant inputTypeList m ->
    onColumn m colIdx (setLower v excl) = Ok m' ->
    ColInfoMapInvariant inputTypeList m').
  { intros excl m m' Hm. apply ColInfoMapInvariant_onColumn; [done|].
    intros K fi HK. intros; apply FilterInfoInvariant_setLower; auto. }
  assert (Hup : forall excl m m',
    ColInfoMapInvariant inputTypeList m ->
    onColumn m colIdx (setUpper v excl) = Ok m' ->
    ColInfoMapInvariant inputTypeList m').
  { intros excl m m' Hm. apply ColInfoMapInvariant_onColumn; [done|].
    intros K fi HK. intros; apply FilterInfoInvariant_setUpper; auto. }
  repeat match goal with
         | |- (if ?c then _ else _) = _ -> _ => destruct c
         end; try discriminate; eauto.
  - apply ColInfoMapInvariant_onColumn; [done|].
    by intros K fi _ (? & ? & ? & ? & ?).
  - apply ColInfoMapInvariant_onColumn; [done|].
    intros K fi HK (? & ? & ? & ? & ?). repeat split; auto.
  - intros H. bind_inv H. eauto.
Qed.

Lemma ColInfoMapInvariant_setFilterMap inputTypeList
    (colInfoMap colInfoMap' : gmap nat FilterInfo) scalarFunction reverse :
  ColInfoMapInvariant inputTypeList colInfoMap ->
  setFilterMap functionMap_ scalarFunction inputTypeList colInfoMap reverse
  = Ok colInfoMap' ->
  ColInfoMapInvariant inputTypeList colInfoMap'.
Proof.
  intros Hinv. unfold setFilterMap. intros H. bind_inv H.
  destruct (String.eqb a sIn).
  - unfold setInValues in H. do 3 bind_inv H.
    eapply ColInfoMapInvariant_onColumn; [exact Hinv| |exact H].
    by intros K fi _ (? & ? & ? & ? & ?).
  - bind_inv H. destruct a0 as [[colIdxVal|] substraitLit]; [|discriminate].
    bind_inv H. unfold at_index in H_step1.
    destruct (inputTypeList !! colIdxVal) as [K|] eqn:HK; [|discriminate].
    injection H_step1 as <-.
    destruct K; try discriminate;
      (eapply ColInfoMapInvariant_setColInfoMap; [exact Hinv| |exact H]);
      intros K' HK'; rewrite HK in HK'; injection HK' as <-;
      by destruct substraitLit.
Qed.

Lemma ColInfoMapInvariant_accumulate inputTypeList candidates :
  forall colInfoMap colInfoMap' : gmap nat FilterInfo,
    ColInfoMapInvariant inputTypeList colInfoMap ->
    accumulateFilterInfo functionMap_ candidates inputTypeList colInfoMap
    = Ok colInfoMap' ->
    ColInfoMapInvariant inputTypeList colInfoMap'.
Proof.
  assert (Heach : forall fargs (m m' : gmap nat FilterInfo),
    ColInfoMapInvariant inputTypeList m ->
    setFilterMapEach functionMap_ fargs inputTypeList m = Ok m' ->
    ColInfoMapInvariant inputTypeList m').
  { induction fargs as [|arg rest IH]; intros m m' Hm; simpl.
    - by intros [= <-].
    - intros H. bind_inv H.
      eauto using ColInfoMapInvariant_setFilterMap. }
  induction candidates as [|g rest IH]; intros m m' Hm; simpl.
  - by intros [= <-].
  - intros H. bind_inv H.
    destruct (String.eqb a sNot); [|destruct (String.eqb a sOr)];
      repeat bind_inv H;
      eauto using ColInfoMapInvariant_setFilterMap.
Qed.

Lemma initColInfoMap_lookup inputTypeList idx :
  initColInfoMap inputTypeList !! idx
  = if decide (idx < length inputTypeList)%nat then Some newFilterInfo
    else None.
Proof.
  unfold initColInfoMap.
  assert (H : forall n a (m : gmap nat FilterInfo),
    foldl (fun m idx => <[idx := newFilterInfo]> m) m (seq a n) !! idx
    = if decide (a <= idx < a + n)%nat then Some newFilterInfo else m !! idx).
  { induction n as [|n IH]; intros a m; simpl.
    - case_decide; [lia|done].
    - rewrite IH. repeat case_decide; try done; try lia.
      + assert (idx = a) as -> by lia. by rewrite lookup_insert_eq.
      + rewrite lookup_insert_ne by lia. done. }
  rewrite H, lookup_empty. repeat case_decide; try done; lia.
Qed.

Lemma ColInfoMapInvariant_init inputTypeList :
  ColInfoMapInvariant inputTypeList (initColInfoMap inputTypeList).
Proof.
  intros idx. rewrite initColInfoMap_lookup.
  destruct (inputTypeList !! idx) as [K|] eqn:HK.
  - apply lookup_lt_Some in HK. rewrite decide_True by done.
    exists newFilterInfo. split; [done|].
    repeat split; simpl; auto.
  - apply lookup_ge_None in HK. by rewrite decide_False by lia.
Qed.

(** X8: what the accumulator keeps true of its map, whatever the candidates:
    every column of the schema, and no other index, has a [FilterInfo];
    in each, the exclusive flags run parallel to the bounds, and every
    bound and the not-equal value are tagged with the type of the column
    (not with the type of the literal they were read from). *)
Theorem accumulator_keeps_filter_infos_in_shape inputTypeList candidates
    colInfoMap :
  accumulateFilterInfo functionMap_ candidates inputTypeList
    (initColInfoMap inputTypeList) = Ok colInfoMap ->
  ColInfoMapInvariant inputTypeList colInfoMap.
Proof.
  apply ColInfoMapInvariant_accumulate, ColInfoMapInvariant_init.
Qed.

End Accumulator.

Lemma literal_first_is_read_as_field_first_witness :
  fieldOrWithLiteral
    (mkScalarFunction 7 [ELiteral (LitI64 10); ESelection (DirectStructField 0)])
  = fieldOrWithLiteral
      (mkScalarFunction 7 [ESelection (DirectStructField 0); ELiteral (LitI64 10)])
  /\ setFilterMap registry
       (mkScalarFunction 7 [ELiteral (LitI64 10); ESelection (DirectStructField 0)])
       [BIGINT] (initColInfoMap [BIGINT]) false
     = setFilterMap registry
         (mkScalarFunction 7 [ESelection (DirectStructField 0); ELiteral (LitI64 10)])
         [BIGINT] (initColInfoMap [BIGINT]) false.
Proof.
  apply (literal_first_is_read_as_field_first registry 7%N
           (DirectStructField 0) (LitI64 10) [BIGINT]
           (initColInfoMap [BIGINT]) false).
  intros spec H. vm_compute in H. injection H as <-. discriminate.
Defined.

Lemma accumulator_keeps_filter_infos_in_shape_witness :
  ColInfoMapInvariant [BIGINT] {[0%nat := twoLowerOneUpper]}.
Proof.
  apply (accumulator_keeps_filter_infos_in_shape registry [BIGINT]
           [gteOrEqual]).
  vm_compute; reflexivity.
Defined.


(** * More on the builder *)

Section BuilderTotality.

Variable createBigintValues : list Z -> bool -> Filter.
Variable createDoubleValues : list double -> bool -> Filter.
Context {KIND : TypeKind} `{RT : RangeTraits KIND}.

(** The keys the builder touches: after the filters of one column are
    built, every other entry of the map is as before, and the entry of the
    column is changed only if its [FilterInfo] carries a value. *)
Lemma constructSubfieldFilters_keys colIdx inputName filterInfo
    (filters filters' : gmap string Filter) :
  constructSubfieldFilters createBigintValues createDoubleValues
    colIdx inputName filterInfo filters = Ok filters' ->
  forall key,
    filters' !! key = filters !! key
    \/ (key = inputName /\ isInitialized filterInfo = true).
Proof.
  unfold constructSubfieldFilters.
  destruct (isInitialized filterInfo); simpl; [|intros [= <-]; auto].
  assert (Hins : forall f key,
    <[inputName := f]> filters !! key = filters !! key
    \/ (key = inputName /\ true = true)).
  { intros f key. destruct (decide (key = inputName)) as [->|]; [by right|].
    left. by rewrite lookup_insert_ne. }
  destruct (nonempty (valuesVector_ filterInfo)).
  - intros H. bind_inv H. do 2 bind_inv H. injection H as <-.
    unfold setInFilter in H_step.
    destruct KIND; try (injection H_step as <-; auto);
      bind_inv H_step; injection H_step as <-; auto.
  - destruct (notValue_ filterInfo).
    + intros H. do 2 bind_inv H. injection H as <-. auto.
    + destruct (_ && _); [intros [= <-]; auto|].
      intros H. bind_inv H. injection H as <-. unfold setSubfieldFilter.
      repeat match goal with
             | |- context [if ?c then _ else _] => destruct c
             | |- context [match ?l with [] => _ | _ :: _ => _ end] => destruct l
             end; auto.
Qed.

(** [variant::value<NativeType>()] succeeds on the variants of the kind. *)
Hypothesis value_of_kind :
  forall v, variantKind v = KIND -> exists x : NativeType, value v = Ok x.

Lemma takeLower_total filterInfo idx (b : RangeBounds) :
  FilterInfoInvariant KIND filterInfo ->
  exists b', takeLower filterInfo idx b = Ok b'.
Proof.
  intros (Hl & _ & Hlk & _ & _). unfold takeLower.
  destruct (lowerBounds_ filterInfo !! idx) as [[v|]|] eqn:Hv; eauto.
  rewrite Forall_lookup in Hlk. destruct (value_of_kind v (Hlk _ _ Hv)) as [x ->].
  simpl. unfold at_index.
  destruct (lookup_lt_is_Some_2 (lowerExclusives_ filterInfo) idx) as [e ->];
    [|simpl; eauto].
  rewrite <- Hl. by eapply lookup_lt_Some.
Qed.

Lemma takeUpper_total filterInfo idx (b : RangeBounds) :
  FilterInfoInvariant KIND filterInfo ->
  exists b', takeUpper filterInfo idx b = Ok b'.
Proof.
  intros (_ & Hu & _ & Huk & _). unfold takeUpper.
  destruct (upperBounds_ filterInfo !! idx) as [[v|]|] eqn:Hv; eauto.
  rewrite Forall_lookup in Huk. destruct (value_of_kind v (Huk _ _ Hv)) as [x ->].
  simpl. unfold at_index.
  destruct (lookup_lt_is_Some_2 (upperExclusives_ filterInfo) idx) as [e ->];
    [|simpl; eauto].
  rewrite <- Hu. by eapply lookup_lt_Some.
Qed.

Lemma rangeLoop_total filterInfo nullAllowed indices :
  FilterInfoInvariant KIND filterInfo ->
  forall (b : RangeBounds) colFilters,
    exists ranges,
      rangeLoop filterInfo nullAllowed indices b colFilters
      = Ok (colFilters ++ ranges)
      /\ length ranges = length indices.
Proof.
  intros Hinv. induction indices as [|idx rest IH]; intros b colFilters; simpl.
  - exists []. by rewrite app_nil_r.
  - destruct (takeLower_total filterInfo idx b Hinv) as [b1 ->]. simpl.
    destruct (takeUpper_total filterInfo idx b1 Hinv) as [b2 ->]. simpl.
    destruct (IH b2 (colFilters ++ [rangeOf b2 nullAllowed])) as (rs & -> & Hlen).
    exists (rangeOf b2 nullAllowed :: rs). rewrite <- app_assoc. simpl.
    split; [done|]. by rewrite Hlen.
Qed.

Lemma constructSubfieldFilters_total colIdx inputName filterInfo
    (filters : gmap string Filter) :
  FilterInfoInvariant KIND filterInfo ->
  valuesVector_ filterInfo = [] ->
  (is_Some (notValue_ filterInfo) ->
   lowerBounds_ filterInfo = [] /\ upperBounds_ filterInfo = []) ->
  isOk (constructSubfieldFilters createBigintValues createDoubleValues
          colIdx inputName filterInfo filters) = true.
Proof.
  intros Hinv Hvalues Hnot. unfold constructSubfieldFilters.
  destruct (negb (isInitialized filterInfo)); [done|].
  rewrite Hvalues. simpl.
  destruct (notValue_ filterInfo) as [nv|] eqn:Hnv.
  - destruct Hnot as [-> ->]; [by eexists|].
    destruct Hinv as (_ & _ & _ & _ & Hk). rewrite Hnv in Hk.
    unfold createNotEqualFilter.
    by destruct (value_of_kind nv Hk) as [x ->].
  - destruct (_ && _); [done|].
    destruct (rangeLoop_total filterInfo (nullAllowed_ filterInfo)
                (seq 0 (Nat.max (length (lowerBounds_ filterInfo))
                                (length (upperBounds_ filterInfo))))
                Hinv initialBounds []) as (rs & -> & _).
    done.
Qed.

End BuilderTotality.

Section BuilderOverColumns.

Variable functionMap_ : gmap N string.
Variable createBigintValues : list Z -> bool -> Filter.
Variable createDoubleValues : list double -> bool -> Filter.

Lemma mapToFiltersFrom_total inputNameList inputTypeList
    (colInfoMap : gmap nat FilterInfo) indices :
  ColInfoMapInvariant inputTypeList colInfoMap ->
  (forall idx, idx ∈ indices ->
     is_Some (inputNameList !! idx)
     /\ exists K, inputTypeList !! idx = Some K /\ supportedColumnType K = true) ->
  (forall idx fi, colInfoMap !! idx = Some fi ->
     valuesVector_ fi = []
     /\ (is_Some (notValue_ fi) ->
         lowerBounds_ fi = [] /\ upperBounds_ fi = [])) ->
  forall filters,
    isOk (mapToFiltersFrom createBigintValues createDoubleValues indices
            inputNameList inputTypeList colInfoMap filters) = true.
Proof.
  intros Hinv Hcols Hplain.
  induction indices as [|idx rest IH]; intros filters; [done|]. simpl.
  destruct (Hcols idx) as ([name Hname] & K & HK & Hsup); [by left|].
  unfold at_index. rewrite HK, Hname. simpl.
  specialize (Hinv idx). rewrite HK in Hinv. destruct Hinv as (fi & Hfi & Hshape).
  rewrite Hfi. destruct (Hplain _ _ Hfi) as [Hvalues Hnot].
  assert (Hrest : forall filters',
    isOk (mapToFiltersFrom createBigintValues createDoubleValues rest
            inputNameList inputTypeList colInfoMap filters') = true).
  { intros filters'. apply IH. intros i Hi. apply Hcols. by right. }
  destruct K; try discriminate Hsup; simpl;
    match goal with
    | |- context [@constructSubfieldFilters ?a ?b ?K ?RT ?c ?n ?f ?fs] =>
        let H := fresh in
        pose proof (@constructSubfieldFilters_total a b K RT) as H;
        destruct (@constructSubfieldFilters a b K RT c n f fs) eqn:E
    end;
    simpl; auto;
    match goal with
    | H : _, E : constructSubfieldFilters _ _ _ _ _ _ = Err _ |- _ =>
        specialize (H ltac:(intros [] Hv; try discriminate Hv; simpl; eauto)
                      idx name fi filters Hshape Hvalues Hnot);
        rewrite E in H; discriminate H
    end.
Qed.

(** X9: without IN values, and without a not-equal value next to range bounds,
    the builder cannot fail on a schema of supported column types: the
    accumulator leaves every bound typed by its column and every exclusive
    flag in place, so no variant access and no index of the range loop
    goes wrong. *)
Theorem builder_succeeds_on_plain_ranges inputNameList inputTypeList
    candidates colInfoMap :
  accumulateFilterInfo functionMap_ candidates inputTypeList
    (initColInfoMap inputTypeList) = Ok colInfoMap ->
  (length inputNameList <= length inputTypeList)%nat ->
  Forall (fun K => supportedColumnType K = true)
    (take (length inputNameList) inputTypeList) ->
  (forall idx fi, colInfoMap !! idx = Some fi ->
     valuesVector_ fi = []
     /\ (is_Some (notValue_ fi) ->
         lowerBounds_ fi = [] /\ upperBounds_ fi = [])) ->
  isOk (toSubfieldFilters functionMap_ createBigintValues createDoubleValues
          inputNameList inputTypeList candidates) = true.
Proof.
  intros Hacc Hlen Htypes Hplain. unfold toSubfieldFilters. rewrite Hacc. simpl.
  apply mapToFiltersFrom_total; [| |exact Hplain].
  - eapply ColInfoMapInvariant_accumulate;
      [apply ColInfoMapInvariant_init|exact Hacc].
  - intros idx Hidx. apply list_elem_of_In, in_seq in Hidx. simpl in Hidx.
    split; [apply lookup_lt_is_Some_2; lia|].
    destruct (lookup_lt_is_Some_2 inputTypeList idx) as [K HK]; [lia|].
    exists K. split; [done|].
    rewrite Forall_lookup in Htypes. apply (Htypes idx).
    rewrite lookup_take_lt by lia. done.
Qed.

Lemma mapToFiltersFrom_keys inputNameList inputTypeList
    (colInfoMap : gmap nat FilterInfo) indices :
  forall filters filters',
    mapToFiltersFrom createBigintValues createDoubleValues indices
      inputNameList inputTypeList colInfoMap filters = Ok filters' ->
    forall key,
      filters' !! key = filters !! key
      \/ exists idx fi,
           idx ∈ indices /\ inputNameList !! idx = Some key
           /\ colInfoMap !! idx = Some fi /\ isInitialized fi = true.
Proof.
  induction indices as [|idx rest IH]; intros filters filters'; simpl.
  - intros [= <-]. auto.
  - intros H. do 3 bind_inv H. intros key.
    unfold at_index in H_step, H_step0.
    destruct (inputTypeList !! idx) as [K|] eqn:HK; [|discriminate].
    destruct (inputNameList !! idx) as [name|] eqn:Hname; [|discriminate].
    injection H_step as <-. injection H_step0 as <-.
    destruct (IH _ _ H key) as [Hsame|(i & fi & Hi & Hn & Hf & Hinit)];
      [|right; exists i, fi; repeat split; auto; by right].
    rewrite Hsame.
    destruct (colInfoMap !! idx) as [fi|] eqn:Hfi;
      [|destruct K; discriminate H_step1].
    assert (Hone : forall r : gmap string Filter,
      (forall k, r !! k = filters !! k \/ (k = name /\ isInitialized fi = true)) ->
      r !! key = filters !! key
      \/ exists idx0 fi0,
           idx0 ∈ idx :: rest /\ inputNameList !! idx0 = Some key
           /\ colInfoMap !! idx0 = Some fi0 /\ isInitialized fi0 = true).
    { intros r Hr. destruct (Hr key) as [?|[-> ?]]; [by left|].
      right. exists idx, fi. repeat split; auto. by left. }
    destruct K; try discriminate H_step1; simpl in H_step1;
      apply Hone; intros k;
      exact (@constructSubfieldFilters_keys _ _ _ _ _ _ _ _ _ H_step1 k).
Qed.

(** X10: the emitted map has no entry but for constrained columns: every key is
    the name of a column of the schema whose [FilterInfo] carries a value;
    in particular, with no pushdown candidate the map is empty. *)
Theorem filters_only_for_constrained_columns inputNameList inputTypeList
    candidates colInfoMap filters key :
  accumulateFilterInfo functionMap_ candidates inputTypeList
    (initColInfoMap inputTypeList) = Ok colInfoMap ->
  toSubfieldFilters functionMap_ createBigintValues createDoubleValues
    inputNameList inputTypeList candidates = Ok filters ->
  is_Some (filters !! key) ->
  (exists idx fi,
     inputNameList !! idx = Some key
     /\ colInfoMap !! idx = Some fi /\ isInitialized fi = true)
  /\ candidates <> [].
Proof.
  intros Hacc Hto [f Hf]. unfold toSubfieldFilters in Hto. rewrite Hacc in Hto.
  simpl in Hto. unfold mapToFilters in Hto.
  destruct (mapToFiltersFrom_keys _ _ _ _ _ _ Hto key)
    as [Hsame|(idx & fi & _ & Hname & Hfi & Hinit)].
  { rewrite Hf, lookup_empty in Hsame. discriminate. }
  split; [eauto|]. intros ->. simpl in Hacc. injection Hacc as <-.
  rewrite initColInfoMap_lookup in Hfi. case_decide; [|discriminate].
  injection Hfi as <-. discriminate Hinit.
Qed.

Lemma mapToFiltersFrom_unsupported inputNameList inputTypeList
    (colInfoMap : gmap nat FilterInfo) indices idx K :
  idx ∈ indices ->
  is_Some (inputNameList !! idx) ->
  inputTypeList !! idx = Some K ->
  supportedColumnType K = false ->
  forall filters,
    isOk (mapToFiltersFrom createBigintValues createDoubleValues indices
            inputNameList inputTypeList colInfoMap filters) = false.
Proof.
  intros Hin [name Hname] HK Hsup.
  induction indices as [|i rest IH]; intros filters;
    [by apply elem_of_nil in Hin|].
  apply elem_of_cons in Hin as [<-|Hin]; simpl.
  - unfold at_index. rewrite HK, Hname. simpl.
    by destruct K; try discriminate Hsup.
  - repeat match goal with
           | |- isOk (?m ≫= _) = false => destruct m; simpl; [|done]
           end.
    by apply IH.
Qed.

End BuilderOverColumns.

Section UnsupportedColumn.

Variable functionMap_ : gmap N string.
Variable createBigintValues : list Z -> bool -> Filter.
Variable createDoubleValues : list double -> bool -> Filter.
Variable toVeloxExpr :
  ScalarFunction -> list string -> list TypeKind -> result ITypedExpr.
Variable validationMode_ : bool.
Variable freshSplitInfo : SplitInfo.
Variable inputNodesMap_ : gmap Z PlanNode.
Variable makeNodeName : nat -> nat -> string.
Variable toVeloxPlanVirtualTable :
  ReadRel -> list string -> list TypeKind -> ConverterState ->
  result (PlanNode * ConverterState).

Lemma scanTableHandle_unsupported_column sFilter format
    inputNameList inputTypeList idx K :
  (idx < length inputNameList)%nat ->
  inputTypeList !! idx = Some K ->
  supportedColumnType K = false ->
  isOk (scanTableHandle functionMap_ createBigintValues createDoubleValues
          toVeloxExpr (Some sFilter) format inputNameList inputTypeList)
  = false.
Proof.
  intros Hidx HK Hsup. unfold scanTableHandle.
  destruct (flattenConditions functionMap_ sFilter []); simpl; [|done].
  destruct (separateFilters functionMap_ a) as [[pushed remaining]|]; simpl;
    [|done].
  unfold toSubfieldFilters.
  destruct (accumulateFilterInfo _ _ _ _) as [colInfoMap|]; simpl; [|done].
  unfold mapToFilters.
  pose proof (mapToFiltersFrom_unsupported createBigintValues
                createDoubleValues inputNameList inputTypeList colInfoMap
                (seq 0 (length inputNameList)) idx K) as Hfail.
  specialize (Hfail ltac:(apply list_elem_of_In, in_seq; lia)
                ltac:(by apply lookup_lt_is_Some_2) HK Hsup ∅).
  destruct (mapToFiltersFrom _ _ _ _ _ _ _); simpl; [|done].
  discriminate Hfail.
Qed.


(** X11: a ReadRel that is not a stream input, and has a filter over a
    schema with a named column of a type other than INTEGER, BIGINT, DOUBLE
    or VARCHAR, is never converted: the builder visits every column of the
    schema and raises a not-implemented error at that column, also when no
    leaf refers to it and when nothing is pushed down at all.  (A stream
    input is replaced by its input node before the schema and the filter
    are read.) *)
Theorem filter_over_unsupported_column_type_fails sRead sFilter st idx K :
  (forall streamIdx,
     streamIsInput validationMode_ sRead = Ok streamIdx -> streamIdx < 0) ->
  read_filter sRead = Some sFilter ->
  (idx < length (schemaOf sRead).1)%nat ->
  (schemaOf sRead).2 !! idx = Some K ->
  supportedColumnType K = false ->
  isOk (toVeloxPlanRead functionMap_ createBigintValues createDoubleValues
          toVeloxExpr validationMode_ freshSplitInfo inputNodesMap_
          makeNodeName toVeloxPlanVirtualTable sRead st)
  = false.
Proof.
  intros Hstream Hfilter Hidx HK Hsup. unfold toVeloxPlanRead.
  destruct (streamIsInput validationMode_ sRead) as [streamIdx|] eqn:Hs;
    simpl; [|done].
  specialize (Hstream _ eq_refl).
  destruct (Z.leb_spec 0 streamIdx) as [|_]; [lia|].
  unfold schemaOf in Hidx, HK.
  destruct (default ([], []) (base_schema sRead)) as [names types].
  simpl in Hidx, HK. rewrite Hfilter.
  pose proof (scanTableHandle_unsupported_column sFilter
                (format (addFiles (default [] (local_files sRead))
                           freshSplitInfo))
                names types idx K Hidx HK Hsup) as Hfails.
  destruct (scanTableHandle _ _ _ _ _ _ _ _); [discriminate Hfails|done].
Qed.

End UnsupportedColumn.

Lemma builder_succeeds_on_plain_ranges_witness :
  isOk (toSubfieldFilters registry sampleBigintValues sampleDoubleValues
          ["c0"] [BIGINT] [gteOrEqual]) = true.
Proof.
  apply (builder_succeeds_on_plain_ranges registry sampleBigintValues
           sampleDoubleValues ["c0"] [BIGINT] [gteOrEqual]
           {[0%nat := twoLowerOneUpper]}).
  - vm_compute; reflexivity.
  - simpl; lia.
  - repeat constructor.
  - intros idx fi Hfi. apply lookup_singleton_Some in Hfi as [_ <-].
    split; [reflexivity|]. intros [v Hv]. discriminate Hv.
Defined.

Lemma filters_only_for_constrained_columns_witness :
  (exists idx fi,
     ["c0"; "c1"] !! idx = Some "c0"
     /\ ({[0%nat := twoLowerOneUpper; 1%nat := newFilterInfo]}
           : gmap nat FilterInfo) !! idx = Some fi
     /\ isInitialized fi = true)
  /\ [gteOrEqual] <> [].
Proof.
  apply (filters_only_for_constrained_columns registry sampleBigintValues
           sampleDoubleValues ["c0"; "c1"] [BIGINT; DOUBLE] [gteOrEqual]
           {[0%nat := twoLowerOneUpper; 1%nat := newFilterInfo]}
           {["c0" :=
               BigintMultiRange
                 [BigintRange 1 false false 5 false false true;
                  BigintRange 5 false false 5 false false true]
                 true]}
           "c0").
  - vm_compute; reflexivity.
  - vm_compute; reflexivity.
  - eexists. vm_compute; reflexivity.
Defined.

Lemma filter_over_unsupported_column_type_fails_witness :
  isOk (toVeloxPlanRead registry sampleBigintValues sampleDoubleValues
          sampleToVeloxExpr false sampleSplitInfo inputNodes sampleNodeName
          sampleVirtualTable
          (mkReadRel (Some (["c0"; "flag"], [BIGINT; BOOLEAN]))
             (Some [mkFile "/data/part-0.parquet" 0 0 100 1])
             (Some (ecall 4 [col 0; i64 10])) false)
          (mkState 0 ∅))
  = false.
Proof.
  apply (filter_over_unsupported_column_type_fails registry
           sampleBigintValues sampleDoubleValues sampleToVeloxExpr false
           sampleSplitInfo inputNodes sampleNodeName sampleVirtualTable
           (mkReadRel (Some (["c0"; "flag"], [BIGINT; BOOLEAN]))
              (Some [mkFile "/data/part-0.parquet" 0 0 100 1])
              (Some (ecall 4 [col 0; i64 10])) false)
           (ecall 4 [col 0; i64 10]) (mkState 0 ∅) 1 BOOLEAN).
  - intros streamIdx Hs. vm_compute in Hs. injection Hs as <-. lia.
  - reflexivity.
  - simpl; lia.
  - reflexivity.
  - reflexivity.
Defined.


(** * More on stream inputs and the scan *)

Section DecimalIndex.

Lemma is_nat_pretty_N_char (d : N) :
  (d < 10)%N -> Ascii.is_nat (pretty_N_char d) = Some (N.to_nat d).
Proof.
  intros Hd.
  assert (d = 0 \/ d = 1 \/ d = 2 \/ d = 3 \/ d = 4 \/ d = 5 \/ d = 6
          \/ d = 7 \/ d = 8 \/ d = 9)%N as Hcases by lia.
  repeat (destruct Hcases as [->|Hcases]; [reflexivity|]).
  by subst.
Qed.

Lemma leadingDigits_pretty_N_go (x : N) :
  (0 < x)%N ->
  forall s acc,
    default 0 acc = 0 ->
    leadingDigits (pretty_N_go x s) acc = leadingDigits s (Some (Z.of_N x)).
Proof.
  induction (N.lt_wf_0 x) as [x _ IH]. intros Hx s acc Hacc.
  rewrite pretty_N_go_step by done.
  destruct (decide (x < 10)%N) as [Hsmall|Hbig].
  - rewrite N.div_small, N.mod_small by done. rewrite pretty_N_go_0. simpl.
    rewrite is_nat_pretty_N_char by done. rewrite Hacc.
    do 2 f_equal. lia.
  - rewrite (IH (x `div` 10)%N); [|by apply N.div_lt| |done].
    + simpl. rewrite is_nat_pretty_N_char by (by apply N.mod_lt).
      simpl. do 2 f_equal.
      pose proof (N.div_mod x 10 ltac:(done)). lia.
    + apply N.div_str_pos. lia.
Qed.

Lemma pretty_N_go_head (x : N) :
  (0 < x)%N ->
  forall s, exists d rest,
    (d < 10)%N /\ pretty_N_go x s = String (pretty_N_char d) rest.
Proof.
  induction (N.lt_wf_0 x) as [x _ IH]. intros Hx s.
  rewrite pretty_N_go_step by done.
  destruct (decide (x < 10)%N) as [Hsmall|Hbig].
  - rewrite N.div_small by done. rewrite pretty_N_go_0.
    exists (x `mod` 10)%N, s. split; [by apply N.mod_lt|done].
  - apply IH; [by apply N.div_lt|]. apply N.div_str_pos. lia.
Qed.

Lemma stoi_digits (d : N) rest :
  (d < 10)%N ->
  stoi (String (pretty_N_char d) rest)
  = match leadingDigits (String (pretty_N_char d) rest) None with
    | None => Err (UserFail "stoi")
    | Some n =>
        if (- 2 ^ 31 <=? n) && (n <=? 2 ^ 31 - 1) then Ok n
        else Err (UserFail "stoi")
    end.
Proof.
  intros Hd.
  assert (d = 0 \/ d = 1 \/ d = 2 \/ d = 3 \/ d = 4 \/ d = 5 \/ d = 6
          \/ d = 7 \/ d = 8 \/ d = 9)%N as Hcases by lia.
  repeat (destruct Hcases as [->|Hcases]; [reflexivity|]).
  by subst.
Qed.

Lemma stoi_pretty (n : N) :
  stoi (pretty n)
  = if (Z.of_N n <=? 2 ^ 31 - 1) then Ok (Z.of_N n) else Err (UserFail "stoi").
Proof.
  unfold pretty, pretty_N. case_decide as Hn; [by subst|].
  destruct (pretty_N_go_head n ltac:(lia) "") as (d & rest & Hd & Heq).
  rewrite Heq, stoi_digits by done. rewrite <- Heq.
  rewrite leadingDigits_pretty_N_go by (done || lia). simpl leadingDigits.
  cbv beta iota.
  destruct (Z.leb_spec (- 2 ^ 31) (Z.of_N n)) as [_|Hneg]; [reflexivity|].
  pose proof (N2Z.is_nonneg n). lia.
Qed.

Lemma substring_all s : forall m,
  (String.length s <= m)%nat -> String.substring 0 m s = s.
Proof.
  induction s as [|c s IH]; intros [|m] Hm; simpl in *; try done; try lia.
  rewrite IH; [done|lia].
Qed.

Lemma index_iterator_prefix s :
  String.index 0 "iterator:" ("iterator:" +:+ s) = Some 0%nat.
Proof. simpl. by destruct s. Qed.

End DecimalIndex.

Section StreamIndex.

Variable validationMode_ : bool.

(** X12: the stream convention read back: a first file named [iterator:]
    followed by the decimal form of an index gives that index, as long as
    the index fits [int]; a larger index is fatal.  Further files of the
    list are not looked at. *)
Theorem stream_index_round_trip sRead file0 files (n : N) :
  local_files sRead = Some (file0 :: files) ->
  uri_file file0 = "iterator:" +:+ pretty n ->
  streamIsInput validationMode_ sRead
  = if (Z.of_N n <=? 2 ^ 31 - 1) then Ok (Z.of_N n)
    else Err (UserFail "stoi").
Proof.
  intros Hfiles Huri. unfold streamIsInput. rewrite Hfiles, Huri.
  cbv zeta. rewrite index_iterator_prefix.
  change (String.substring (0 + String.length "iterator:")
            (String.length ("iterator:" +:+ pretty n))
            ("iterator:" +:+ pretty n))
    with (String.substring 0 (9 + String.length (pretty n)) (pretty n)).
  rewrite substring_all by lia. apply stoi_pretty.
Qed.

End StreamIndex.

Lemma stream_index_round_trip_witness :
  streamIsInput false (readOf "iterator:17")
  = if (Z.of_N 17 <=? 2 ^ 31 - 1) then Ok (Z.of_N 17)
    else Err (UserFail "stoi").
Proof.
  apply (stream_index_round_trip false (readOf "iterator:17")
           (mkFile "iterator:17" 0 0 100 1) [] 17); reflexivity.
Defined.


Section SplitInfoOfScan.

Lemma addFiles_app files1 files2 splitInfo :
  addFiles (files1 ++ files2) splitInfo
  = addFiles files2 (addFiles files1 splitInfo).
Proof.
  revert splitInfo. induction files1 as [|file rest IH]; intros splitInfo;
    simpl; [done|]. by rewrite IH.
Qed.

Lemma addFiles_collects files : forall splitInfo,
  paths (addFiles files splitInfo) = paths splitInfo ++ map uri_file files
  /\ starts (addFiles files splitInfo) = starts splitInfo ++ map start files
  /\ lengths (addFiles files splitInfo)
     = lengths splitInfo ++ map file_length files
  /\ isStream (addFiles files splitInfo) = isStream splitInfo.
Proof.
  induction files as [|file rest IH]; intros splitInfo; simpl.
  - by rewrite !app_nil_r.
  - destruct (IH (mkSplitInfo (isStream splitInfo) (partition_index file)
                    (paths splitInfo ++ [uri_file file])
                    (starts splitInfo ++ [start file])
                    (lengths splitInfo ++ [file_length file])
                    (if (file_format file =? 2) || (file_format file =? 3)
                     then DWRF
                     else if file_format file =? 1 then PARQUET else UNKNOWN)))
      as (-> & -> & -> & ->).
    simpl. by rewrite <- !app_assoc.
Qed.

(** X13: the split info of a scan lists the paths, starts and lengths of all
    files in their order, while the partition index and the format are
    those of the last file alone: files of different formats or
    partitions are not detected. *)
Theorem split_info_takes_format_of_last_file files lastFile splitInfo :
  paths (addFiles (files ++ [lastFile]) splitInfo)
  = paths splitInfo ++ map uri_file (files ++ [lastFile])
  /\ starts (addFiles (files ++ [lastFile]) splitInfo)
     = starts splitInfo ++ map start (files ++ [lastFile])
  /\ lengths (addFiles (files ++ [lastFile]) splitInfo)
     = lengths splitInfo ++ map file_length (files ++ [lastFile])
  /\ partitionIndex (addFiles (files ++ [lastFile]) splitInfo)
     = partition_index lastFile
  /\ format (addFiles (files ++ [lastFile]) splitInfo)
     = formatOfCode (file_format lastFile)
  /\ isStream (addFiles (files ++ [lastFile]) splitInfo) = isStream splitInfo.
Proof.
  destruct (addFiles_collects (files ++ [lastFile]) splitInfo)
    as (Hp & Hs & Hl & Hi).
  repeat split; try done; by rewrite addFiles_app.
Qed.

End SplitInfoOfScan.

Section TableScan.

Variable functionMap_ : gmap N string.
Variable createBigintValues : list Z -> bool -> Filter.
Variable createDoubleValues : list double -> bool -> Filter.
Variable toVeloxExpr :
  ScalarFunction -> list string -> list TypeKind -> result ITypedExpr.
Variable validationMode_ : bool.
Variable freshSplitInfo : SplitInfo.
Variable inputNodesMap_ : gmap Z PlanNode.
Variable makeNodeName : nat -> nat -> string.
Variable toVeloxPlanVirtualTable :
  ReadRel -> list string -> list TypeKind -> ConverterState ->
  result (PlanNode * ConverterState).

Lemma assignColumns_outNames st colNameList veloxTypeList indices :
  forall assignments outNames assignments' outNames',
    assignColumns makeNodeName st indices colNameList veloxTypeList
      assignments outNames = Ok (assignments', outNames') ->
    outNames' = outNames ++ map (makeNodeName (planNodeId_ st)) indices.
Proof.
  induction indices as [|idx rest IH];
    intros assignments outNames assignments' outNames'; simpl.
  - intros [= _ <-]. by rewrite app_nil_r.
  - intros H. do 2 bind_inv H. apply IH in H as ->.
    by rewrite <- app_assoc.
Qed.

(** X14: a ReadRel that is not a stream input and has no virtual table becomes
    a table scan whose id is the plan node counter in decimal; the counter
    goes up by one, the output columns are named after that same id (the
    counter before the increment) and the column positions in order, and
    the split info filled from the file list is recorded under the id. *)
Theorem table_scan_takes_next_id sRead st streamIdx node st' :
  streamIsInput validationMode_ sRead = Ok streamIdx ->
  streamIdx < 0 ->
  has_virtual_table sRead = false ->
  toVeloxPlanRead functionMap_ createBigintValues createDoubleValues
    toVeloxExpr validationMode_ freshSplitInfo inputNodesMap_ makeNodeName
    toVeloxPlanVirtualTable sRead st = Ok (node, st') ->
  (exists tableHandle assignments,
     node = TableScanNode (pretty (planNodeId_ st))
              (map (makeNodeName (planNodeId_ st))
                 (seq 0 (length (schemaOf sRead).1)))
              (schemaOf sRead).2 tableHandle assignments
     /\ scanTableHandle functionMap_ createBigintValues createDoubleValues
          toVeloxExpr (read_filter sRead)
          (format (addFiles (default [] (local_files sRead)) freshSplitInfo))
          (schemaOf sRead).1 (schemaOf sRead).2 = Ok tableHandle)
  /\ planNodeId_ st' = S (planNodeId_ st)
  /\ splitInfoMap_ st'
     = <[pretty (planNodeId_ st) :=
           addFiles (default [] (local_files sRead)) freshSplitInfo]>
         (splitInfoMap_ st).
Proof.
  intros Hstream Hneg Hvirtual Hplan. unfold schemaOf.
  unfold toVeloxPlanRead in Hplan. rewrite Hstream in Hplan. simpl in Hplan.
  destruct (Z.leb_spec 0 streamIdx) as [|_]; [lia|].
  destruct (default ([], []) (base_schema sRead)) as [names types].
  do 2 bind_inv Hplan. destruct a0 as [assignments outNames].
  rewrite Hvirtual in Hplan. simpl in Hplan. injection Hplan as <- <-.
  apply assignColumns_outNames in Hplan_step0 as ->. simpl.
  split; [|done]. by exists a, assignments.
Qed.

End TableScan.

Lemma table_scan_takes_next_id_witness :
  (exists tableHandle assignments,
     TableScanNode "7" ["n7_0"] [BIGINT]
       (mkHiveTableHandle kHiveConnectorId "hive_table" true ∅ None)
       {["n7_0" := mkHiveColumnHandle "c0" BIGINT]}
     = TableScanNode (pretty 7%nat)
         (map (sampleNodeName 7)
            (seq 0 (length (schemaOf (readOf "/data/part-0.parquet")).1)))
         (schemaOf (readOf "/data/part-0.parquet")).2 tableHandle assignments
     /\ scanTableHandle registry sampleBigintValues sampleDoubleValues
          sampleToVeloxExpr (read_filter (readOf "/data/part-0.parquet"))
          (format
             (addFiles
                (default [] (local_files (readOf "/data/part-0.parquet")))
                sampleSplitInfo))
          (schemaOf (readOf "/data/part-0.parquet")).1
          (schemaOf (readOf "/data/part-0.parquet")).2 = Ok tableHandle)
  /\ planNodeId_ (mkState 8
        {["7" := mkSplitInfo false 0 ["/data/part-0.parquet"] [0%N] [100%N]
                   PARQUET]})
     = 8%nat
  /\ splitInfoMap_ (mkState 8
        {["7" := mkSplitInfo false 0 ["/data/part-0.parquet"] [0%N] [100%N]
                   PARQUET]})
     = <[pretty 7%nat :=
           addFiles (default [] (local_files (readOf "/data/part-0.parquet")))
             sampleSplitInfo]> ∅.
Proof.
  apply (table_scan_takes_next_id registry sampleBigintValues
           sampleDoubleValues sampleToVeloxExpr false sampleSplitInfo
           inputNodes sampleNodeName sampleVirtualTable
           (readOf "/data/part-0.parquet") (mkState 7 ∅) (-1)).
  - vm_compute; reflexivity.
  - lia.
  - reflexivity.
  - vm_compute; reflexivity.
Defined.


(** * More on join keys *)

Section JoinKeyShape.

Variable functionMap_ : gmap N string.
Variable findVeloxFunction : gmap N string -> N -> result string.

Lemma visitJoinExpression_inv visited rest leftExprs rightExprs next :
  visitJoinExpression functionMap_ findVeloxFunction visited rest
    leftExprs rightExprs = Ok next ->
  exists ref spec a0 a1 more,
    visited = EScalarFunction ref (a0 :: a1 :: more)
    /\ findVeloxFunction functionMap_ ref = Ok spec
    /\ ((getSubFunctionName spec = "and"
         /\ next = (a1 :: a0 :: rest, leftExprs, rightExprs))
        \/ (getSubFunctionName spec = "eq"
            /\ forallb has_selection (a0 :: a1 :: more) = true
            /\ next = (rest, leftExprs ++ [selection a0],
                       rightExprs ++ [selection a1]))).
Proof.
  unfold visitJoinExpression.
  destruct visited as [| |ref fargs| | |]; try discriminate.
  destruct (findVeloxFunction functionMap_ ref) as [spec|] eqn:Hspec; simpl;
    [|discriminate].
  destruct (String.eqb (getSubFunctionName spec) "and") eqn:Hand.
  - apply String.eqb_eq in Hand.
    destruct fargs as [|a0 [|a1 more]]; try discriminate.
    intros [= <-]. exists ref, spec, a0, a1, more. auto.
  - destruct (String.eqb (getSubFunctionName spec) "eq") eqn:Heq;
      [|discriminate].
    apply String.eqb_eq in Heq.
    destruct (forallb has_selection fargs) eqn:Hall; simpl; [|discriminate].
    destruct fargs as [|a0 [|a1 more]]; try discriminate.
    intros [= <-]. exists ref, spec, a0, a1, more. auto 10.
Qed.

Lemma extractJoinKeysLoop_inv n : forall expressions leftExprs rightExprs keys,
  (stackSize expressions < n)%nat ->
  extractJoinKeysLoop functionMap_ findVeloxFunction expressions
    leftExprs rightExprs = Ok keys ->
  length leftExprs = length rightExprs ->
  length keys.1 = length keys.2.
Proof.
  induction n as [|n IH]; intros expressions leftExprs rightExprs keys Hsize;
    [lia|].
  destruct expressions as [|visited rest].
  - simp extractJoinKeysLoop. by intros [= <-].
  - rewrite extractJoinKeysLoop_step.
    destruct (visitJoinExpression _ _ visited rest leftExprs rightExprs)
      as [next|] eqn:Hvisit; [|discriminate].
    apply visitJoinExpression_inv in Hvisit
      as (ref & spec & a0 & a1 & more & -> & Hspec
          & [[Hname ->]|(Hname & Hall & ->)]); simpl; intros Hloop Hlen.
    + eapply IH; [|exact Hloop|exact Hlen].
      unfold stackSize in *. simpl in *. lia.
    + eapply IH; [|exact Hloop|].
      * unfold stackSize in *. simpl in *. lia.
      * rewrite !length_app. simpl. lia.
Qed.

Lemma extractJoinKeysLoop_shape e :
  JoinShape functionMap_ findVeloxFunction e ->
  forall rest leftExprs rightExprs,
    exists ls rs,
      extractJoinKeysLoop functionMap_ findVeloxFunction (e :: rest)
        leftExprs rightExprs
      = extractJoinKeysLoop functionMap_ findVeloxFunction rest
          (leftExprs ++ ls) (rightExprs ++ rs).
Proof.
  induction 1 as [ref spec a0 a1 more Hspec Hname Hall
                 |ref spec a0 a1 more Hspec Hname _ IH0 _ IH1];
    intros rest leftExprs rightExprs.
  - exists [selection a0], [selection a1].
    rewrite extractJoinKeysLoop_step. unfold visitJoinExpression.
    rewrite Hspec. simpl. rewrite Hname. simpl. simpl in Hall.
    by rewrite Hall.
  - rewrite (and_visits_first_two_arguments _ _ _ spec) by done.
    destruct (IH1 (a0 :: rest) leftExprs rightExprs) as (ls1 & rs1 & ->).
    destruct (IH0 rest (leftExprs ++ ls1) (rightExprs ++ rs1))
      as (ls0 & rs0 & ->).
    exists (ls1 ++ ls0), (rs1 ++ rs0). by rewrite !app_assoc.
Qed.

(** On a call with at least two arguments the reads of [args(0)] and
    [args(1)] are defined; what the visit does then is read off without
    the branches for fewer arguments. *)
Lemma visitJoinExpression_binary visited rest leftExprs rightExprs next :
  binaryCalls visited = true ->
  visitJoinExpression functionMap_ findVeloxFunction visited rest
    leftExprs rightExprs = Ok next ->
  exists ref spec a0 a1 more,
    visited = EScalarFunction ref (a0 :: a1 :: more)
    /\ findVeloxFunction functionMap_ ref = Ok spec
    /\ binaryCalls a0 = true /\ binaryCalls a1 = true
    /\ ((getSubFunctionName spec = "and"
         /\ next = (a1 :: a0 :: rest, leftExprs, rightExprs))
        \/ (getSubFunctionName spec = "eq"
            /\ forallb has_selection (a0 :: a1 :: more) = true
            /\ next = (rest, leftExprs ++ [selection a0],
                       rightExprs ++ [selection a1]))).
Proof.
  intros Hbinary. unfold visitJoinExpression.
  destruct visited as [| |ref fargs| | |]; try discriminate.
  simpl in Hbinary. apply andb_prop in Hbinary as [Harity Hargs].
  destruct fargs as [|a0 [|a1 more]]; try discriminate Harity.
  simpl in Hargs. apply andb_prop in Hargs as [Ha0 Hargs].
  apply andb_prop in Hargs as [Ha1 _].
  destruct (findVeloxFunction functionMap_ ref) as [spec|] eqn:Hspec; simpl;
    [|discriminate].
  destruct (String.eqb (getSubFunctionName spec) "and") eqn:Hand.
  - apply String.eqb_eq in Hand. intros [= <-].
    exists ref, spec, a0, a1, more. auto 10.
  - destruct (String.eqb (getSubFunctionName spec) "eq") eqn:Heq;
      [|discriminate].
    apply String.eqb_eq in Heq.
    destruct (has_selection a0 && (has_selection a1
                                   && forallb has_selection more)) eqn:Hall;
      simpl; [|discriminate].
    intros [= <-]. exists ref, spec, a0, a1, more. auto 10.
Qed.

Lemma extractJoinKeysLoop_shapes n : forall expressions leftExprs rightExprs keys,
  (stackSize expressions < n)%nat ->
  Forall (fun e => binaryCalls e = true) expressions ->
  extractJoinKeysLoop functionMap_ findVeloxFunction expressions
    leftExprs rightExprs = Ok keys ->
  Forall (JoinShape functionMap_ findVeloxFunction) expressions.
Proof.
  induction n as [|n IH];
    intros expressions leftExprs rightExprs keys Hsize Hbinary; [lia|].
  destruct expressions as [|visited rest]; [constructor|].
  inversion Hbinary as [|? ? Hvisited Hrest]; subst.
  rewrite extractJoinKeysLoop_step.
  destruct (visitJoinExpression _ _ visited rest leftExprs rightExprs)
    as [next|] eqn:Hvisit; [|discriminate].
  apply (visitJoinExpression_binary _ _ _ _ _ Hvisited) in Hvisit
    as (ref & spec & a0 & a1 & more & -> & Hspec & Ha0 & Ha1
        & [[Hname ->]|(Hname & Hall & ->)]); simpl; intros Hloop.
  - apply IH in Hloop as Hshapes.
    + inversion Hshapes as [|? ? H1 Hrest1]; subst.
      inversion Hrest1 as [|? ? H0 Hrest0]; subst.
      constructor; [|done]. by eapply JoinShape_and.
    + unfold stackSize in *. simpl in *. lia.
    + by repeat constructor.
  - apply IH in Hloop as Hshapes.
    + constructor; [by eapply JoinShape_eq|done].
    + unfold stackSize in *. simpl in *. lia.
    + done.
Qed.

(** X15: for a join condition all of whose calls have at least two
    arguments, key extraction reads the condition to the end exactly when
    it is built from [and] calls and [eq] calls over field selections,
    looking at the first two arguments of each call: any other function,
    a literal or a bare field in place of a condition, or an [eq] with an
    argument that is not a field, stops it with an error. *)
Theorem join_keys_extracted_iff_shape joinExpression :
  binaryCalls joinExpression = true ->
  isOk (extractJoinKeys functionMap_ findVeloxFunction joinExpression) = true
  <-> JoinShape functionMap_ findVeloxFunction joinExpression.
Proof.
  intros Hbinary. unfold extractJoinKeys. split.
  - destruct (extractJoinKeysLoop _ _ [joinExpression] [] []) as [keys|]
      eqn:Hloop; [intros _|discriminate].
    apply (extractJoinKeysLoop_shapes (S (stackSize [joinExpression])))
      in Hloop as Hshapes; [|lia|by repeat constructor].
    by inversion Hshapes.
  - intros Hshape.
    destruct (extractJoinKeysLoop_shape _ Hshape [] [] []) as (ls & rs & ->).
    by simp extractJoinKeysLoop.
Qed.

(** X16: the two key vectors always have the same length, so the size check
    after the extraction in the join conversion never fires: the keys are
    the pairs of the two vectors. *)
Theorem join_keys_come_in_pairs joinExpression leftExprs rightExprs :
  extractJoinKeys functionMap_ findVeloxFunction joinExpression
  = Ok (leftExprs, rightExprs) ->
  length leftExprs = length rightExprs
  /\ joinKeyFields functionMap_ findVeloxFunction joinExpression
     = Ok (zip leftExprs rightExprs).
Proof.
  intros Hkeys. unfold joinKeyFields. rewrite Hkeys. simpl.
  apply (extractJoinKeysLoop_inv (S (stackSize [joinExpression])))
    in Hkeys as Hlen; [|lia|done].
  simpl in Hlen. split; [done|].
  rewrite Hlen, Nat.eqb_refl. done.
Qed.

(** X17: an [and] of a join condition is read as a binary call: its third and
    later arguments are never visited, so the equalities in them give no
    join keys and their content cannot make the extraction fail. *)
Theorem join_and_ignores_further_arguments ref spec a0 a1 more :
  findVeloxFunction functionMap_ ref = Ok spec ->
  getSubFunctionName spec = "and" ->
  extractJoinKeys functionMap_ findVeloxFunction
    (EScalarFunction ref (a0 :: a1 :: more))
  = extractJoinKeys functionMap_ findVeloxFunction
      (EScalarFunction ref [a0; a1]).
Proof.
  intros Hspec Hname. unfold extractJoinKeys.
  by rewrite !(and_visits_first_two_arguments _ _ _ spec).
Qed.

End JoinKeyShape.

Lemma join_keys_extracted_iff_shape_witness :
  isOk (extractJoinKeys registry sampleFindVeloxFunction twoKeyJoin) = true
  <-> JoinShape registry sampleFindVeloxFunction twoKeyJoin.
Proof.
  apply (join_keys_extracted_iff_shape registry sampleFindVeloxFunction
           twoKeyJoin).
  reflexivity.
Defined.

Lemma join_keys_come_in_pairs_witness :
  length [DirectStructField 1; DirectStructField 0]
  = length [DirectStructField 3; DirectStructField 2]
  /\ joinKeyFields registry sampleFindVeloxFunction twoKeyJoin
     = Ok (zip [DirectStructField 1; DirectStructField 0]
             [DirectStructField 3; DirectStructField 2]).
Proof.
  apply (join_keys_come_in_pairs registry sampleFindVeloxFunction twoKeyJoin).
  vm_compute; reflexivity.
Defined.

Lemma join_and_ignores_further_arguments_witness :
  extractJoinKeys registry sampleFindVeloxFunction
    (ecall 1 [ecall 14 [col 0; col 2]; ecall 14 [col 1; col 3]; i64 7])
  = extractJoinKeys registry sampleFindVeloxFunction
      (ecall 1 [ecall 14 [col 0; col 2]; ecall 14 [col 1; col 3]]).
Proof.
  apply (join_and_ignores_further_arguments registry sampleFindVeloxFunction
           1%N "and:bool_bool"); vm_compute; reflexivity.
Defined.


(** * The relation tree *)

Lemma mapM_Ok_Forall2 {A B} (f : A -> result B) (l : list A) :
  forall k, mapM f l = Ok k <-> Forall2 (fun x y => f x = Ok y) l k.
Proof.
  induction l as [|x l IH]; intros k; simpl.
  - split; [intros [= <-]; constructor|by inversion 1].
  - split.
    + intros H. do 2 bind_inv H. injection H as <-.
      constructor; [done|by apply IH].
    + inversion 1 as [|? y ? k' Hx Hl]; subst.
      rewrite Hx. simpl. apply IH in Hl. by rewrite Hl.
Qed.

Lemma mapM_Ok_length {A B} (f : A -> result B) (l : list A) k :
  mapM f l = Ok k -> length k = length l.
Proof.
  intros H. apply mapM_Ok_Forall2 in H. symmetry. by eapply Forall2_length.
Qed.

Lemma Rel_inputs_ind (P : Rel -> Prop) :
  (forall input groupings measures,
     from_option P True input -> P (RelAggregate input groupings measures)) ->
  (forall input expressions,
     from_option P True input -> P (RelProject input expressions)) ->
  (forall input condition,
     from_option P True input -> P (RelFilter input condition)) ->
  (forall leftInput rightInput expression post_join_filter type,
     from_option P True leftInput -> from_option P True rightInput ->
     P (RelJoin leftInput rightInput expression post_join_filter type)) ->
  (forall sRead, P (RelRead sRead)) ->
  P RelOther ->
  forall sRel, P sRel.
Proof.
  intros Hagg Hproj Hfilter Hjoin Hread Hother. fix IH 1.
  intros [input groupings measures|input expressions|input condition
         |leftInput rightInput expression post_join_filter type|sRead|].
  - apply Hagg. destruct input as [sInput|]; simpl; [apply IH|exact I].
  - apply Hproj. destruct input as [sInput|]; simpl; [apply IH|exact I].
  - apply Hfilter. destruct input as [sInput|]; simpl; [apply IH|exact I].
  - apply Hjoin.
    + destruct leftInput as [sLeft|]; simpl; [apply IH|exact I].
    + destruct rightInput as [sRight|]; simpl; [apply IH|exact I].
  - apply Hread.
  - apply Hother.
Qed.

Section RelationTreeFacts.

Variable functionMap_ : gmap N string.
Variable createBigintValues : list Z -> bool -> Filter.
Variable createDoubleValues : list double -> bool -> Filter.
Variable toVeloxExpr :
  ScalarFunction -> list string -> list TypeKind -> result ITypedExpr.
Variable validationMode_ : bool.
Variable freshSplitInfo : SplitInfo.
Variable inputNodesMap_ : gmap Z PlanNode.
Variable makeNodeName : nat -> nat -> string.
Variable toVeloxPlanVirtualTable :
  ReadRel -> list string -> list TypeKind -> ConverterState ->
  result (PlanNode * ConverterState).
Variable findVeloxFunction : gmap N string -> N -> result string.
Variable toVeloxExpression : Expression -> RowType -> result ITypedExpr.
Variable toVeloxField : FieldReference -> RowType -> result ITypedExpr.
Variable outputType : VeloxPlan -> RowType.

Lemma toVeloxPlanRead_counter sRead st node st' :
  (forall r names types s n s',
     toVeloxPlanVirtualTable r names types s = Ok (n, s') ->
     (planNodeId_ s <= planNodeId_ s')%nat) ->
  toVeloxPlanRead functionMap_ createBigintValues createDoubleValues
    toVeloxExpr validationMode_ freshSplitInfo inputNodesMap_ makeNodeName
    toVeloxPlanVirtualTable sRead st = Ok (node, st') ->
  (planNodeId_ st <= planNodeId_ st')%nat.
Proof.
  intros Hvirtual Hplan. unfold toVeloxPlanRead in Hplan. bind_inv Hplan.
  destruct (0 <=? a).
  - destruct (inputNodesMap_ !! a); [|discriminate].
    injection Hplan as _ <-. simpl. lia.
  - destruct (default ([], []) (base_schema sRead)) as [names types].
    do 2 bind_inv Hplan. destruct a1 as [assignments outNames].
    destruct (has_virtual_table sRead).
    + by eapply Hvirtual.
    + simpl in Hplan. injection Hplan as _ <-. simpl. lia.
Qed.

(** X18: the nodes that a conversion makes above the reads are numbered in
    post-order with consecutive values of the plan node counter, written
    in decimal: each node takes the value the counter has once its inputs
    are converted, the left input of a join before the right one.  The
    conversion of a virtual table is only asked not to lower the
    counter. *)
Theorem nodes_are_numbered_in_post_order sRel :
  (forall r names types s n s',
     toVeloxPlanVirtualTable r names types s = Ok (n, s') ->
     (planNodeId_ s <= planNodeId_ s')%nat) ->
  forall st plan st',
    toVeloxPlanRel functionMap_ createBigintValues createDoubleValues
      toVeloxExpr validationMode_ freshSplitInfo inputNodesMap_ makeNodeName
      toVeloxPlanVirtualTable findVeloxFunction toVeloxExpression
      toVeloxField outputType sRel st = Ok (plan, st') ->
    NumberedFrom (planNodeId_ st) plan (planNodeId_ st').
Proof.
  intros Hvirtual.
  induction sRel as [input groupings measures IH|input expressions IH
                    |input condition IH
                    |leftInput rightInput expression post_join_filter type
                       IHl IHr
                    |sRead|] using Rel_inputs_ind;
    intros st plan st' Hplan; simpl in Hplan.
  - destruct input as [sInput|]; [|discriminate]. simpl in IH.
    bind_inv Hplan. destruct a as [childNode st1]. bind_inv Hplan.
    unfold toVeloxAgg in Hplan. do 2 bind_inv Hplan.
    injection Hplan as <- <-. simpl. constructor. by apply IH.
  - destruct input as [sInput|]; [|discriminate]. simpl in IH.
    bind_inv Hplan. destruct a as [childNode st1]. bind_inv Hplan.
    injection Hplan as <- <-. simpl. constructor. by apply IH.
  - destruct input as [sInput|]; [|discriminate]. simpl in IH.
    bind_inv Hplan. destruct a as [childNode st1]. bind_inv Hplan.
    injection Hplan as <- <-. simpl. constructor. by apply IH.
  - destruct leftInput as [sLeft|]; [|discriminate].
    destruct rightInput as [sRight|]; [|discriminate]. simpl in IHl, IHr.
    bind_inv Hplan. destruct a as [leftNode st1].
    bind_inv Hplan. destruct a as [rightNode st2].
    do 4 bind_inv Hplan. injection Hplan as <- <-. simpl.
    econstructor; [by apply IHl|by apply IHr].
  - bind_inv Hplan. destruct a as [node st1]. injection Hplan as <- <-.
    constructor. by eapply toVeloxPlanRead_counter.
  - discriminate.
Qed.

End RelationTreeFacts.

Lemma nodes_are_numbered_in_post_order_witness :
  NumberedFrom 0 (planOf (convertRel sampleTree (mkState 0 ∅)))
    (planNodeId_ (stateOf (convertRel sampleTree (mkState 0 ∅)))).
Proof.
  refine (nodes_are_numbered_in_post_order registry sampleBigintValues
            sampleDoubleValues sampleToVeloxExpr false sampleSplitInfo
            inputNodes sampleNodeName sampleVirtualTable
            sampleFindVeloxFunction sampleToVeloxExpression sampleToVeloxField
            sampleOutputType sampleTree _ (mkState 0 ∅) _ _ _).
  - intros r names types s n s' [= _ <-]. simpl. lia.
  - vm_compute; reflexivity.
Defined.


Lemma Forall2_zip_keys {A B} (P : A -> B -> Prop) (Q : A -> B -> Prop)
    (l r : list A) :
  forall (k : list (B * B)),
    length l = length r ->
    Forall2 (fun key vk => P key.1 vk.1 /\ Q key.2 vk.2) (zip l r) k ->
    Forall2 P l k.*1 /\ Forall2 Q r k.*2.
Proof.
  revert r. induction l as [|x l IH]; intros [|y r] k Hlen Hall;
    simpl in *; try discriminate.
  - inversion Hall; subst. split; constructor.
  - inversion Hall as [|? [k1 k2] ? k' [Hx Hy] Hrest]; subst. simpl in *.
    destruct (IH r k') as [Hl Hr]; [lia|done|].
    split; by constructor.
Qed.

Section RelationTreeShape.

Variable functionMap_ : gmap N string.
Variable createBigintValues : list Z -> bool -> Filter.
Variable createDoubleValues : list double -> bool -> Filter.
Variable toVeloxExpr :
  ScalarFunction -> list string -> list TypeKind -> result ITypedExpr.
Variable validationMode_ : bool.
Variable freshSplitInfo : SplitInfo.
Variable inputNodesMap_ : gmap Z PlanNode.
Variable makeNodeName : nat -> nat -> string.
Variable toVeloxPlanVirtualTable :
  ReadRel -> list string -> list TypeKind -> ConverterState ->
  result (PlanNode * ConverterState).
Variable findVeloxFunction : gmap N string -> N -> result string.
Variable toVeloxExpression : Expression -> RowType -> result ITypedExpr.
Variable toVeloxField : FieldReference -> RowType -> result ITypedExpr.
Variable outputType : VeloxPlan -> RowType.

(** X19: of the relation trees whose join conditions have only calls with
    at least two arguments, only the complete ones are converted: a
    missing input, a relation of a kind the converter does not know, an
    aggregate whose first measure has an unmapped phase, a join of an
    unmapped type or with a condition that is not made of [and] and [eq]
    over fields, makes the conversion fail wherever in the tree it is. *)
Theorem converted_trees_are_complete sRel st :
  joinConditionsBinary sRel = true ->
  isOk (toVeloxPlanRel functionMap_ createBigintValues createDoubleValues
          toVeloxExpr validationMode_ freshSplitInfo inputNodesMap_
          makeNodeName toVeloxPlanVirtualTable findVeloxFunction
          toVeloxExpression toVeloxField outputType sRel st) = true ->
  Complete functionMap_ findVeloxFunction sRel.
Proof.
  revert st.
  induction sRel as [input groupings measures IH|input expressions IH
                    |input condition IH
                    |leftInput rightInput expression post_join_filter type
                       IHl IHr
                    |sRead|] using Rel_inputs_ind;
    intros st Hbinary Hplan; simpl in Hplan, Hbinary.
  - destruct input as [sInput|]; [|discriminate]. simpl in IH.
    do 2 bind_inv Hplan. constructor.
    + apply (IH st Hbinary). by rewrite Hplan_step.
    + by rewrite Hplan_step0.
  - destruct input as [sInput|]; [|discriminate]. simpl in IH.
    bind_inv Hplan. constructor. apply (IH st Hbinary). by rewrite Hplan_step.
  - destruct input as [sInput|]; [|discriminate]. simpl in IH.
    bind_inv Hplan. constructor. apply (IH st Hbinary). by rewrite Hplan_step.
  - destruct leftInput as [sLeft|]; [|discriminate].
    destruct rightInput as [sRight|]; [|discriminate]. simpl in IHl, IHr.
    apply andb_prop in Hbinary as [Hbinary Hright].
    apply andb_prop in Hbinary as [Hcondition Hleft].
    bind_inv Hplan. rename a into leftChild.
    bind_inv Hplan. rename a into rightChild.
    bind_inv Hplan. rename a into keys.
    bind_inv Hplan. rename a into veloxKeys.
    bind_inv Hplan. rename a into filter.
    bind_inv Hplan. rename a into joinType.
    constructor.
    + apply (IHl st Hleft). by rewrite Hplan_step.
    + apply (IHr leftChild.2 Hright). by rewrite Hplan_step0.
    + unfold joinKeyFields in Hplan_step1. bind_inv Hplan_step1.
      unfold extractJoinKeys in Hplan_step1_step.
      apply (extractJoinKeysLoop_shapes _ _ (S (stackSize [expression])))
        in Hplan_step1_step as Hshapes; [|lia|by repeat constructor].
      by inversion Hshapes.
    + by rewrite Hplan_step4.
  - constructor.
  - discriminate.
Qed.

(** X20: a hash join has as many right keys as left keys; all of them are the
    fields of the [eq] calls of the condition resolved against one row
    type, the names and the children of the left input followed by those
    of the right input, which is also the output type of the join; there
    is a post-join filter exactly when the JoinRel has one. *)
Theorem hash_join_keys_resolve_on_joined_row sLeft sRight expression
    post_join_filter type st id joinType leftKeys rightKeys filter
    leftNode rightNode rowType st' :
  toVeloxPlanRel functionMap_ createBigintValues createDoubleValues
    toVeloxExpr validationMode_ freshSplitInfo inputNodesMap_ makeNodeName
    toVeloxPlanVirtualTable findVeloxFunction toVeloxExpression
    toVeloxField outputType
    (RelJoin (Some sLeft) (Some sRight) expression post_join_filter type) st
  = Ok (HashJoinNode id joinType leftKeys rightKeys filter leftNode rightNode
          rowType, st') ->
  rowType = ((outputType leftNode).1 ++ (outputType rightNode).1,
             (outputType leftNode).2 ++ (outputType rightNode).2)
  /\ (exists leftExprs rightExprs,
        extractJoinKeys functionMap_ findVeloxFunction expression
        = Ok (leftExprs, rightExprs)
        /\ Forall2 (fun f key => toVeloxField f rowType = Ok key)
             leftExprs leftKeys
        /\ Forall2 (fun f key => toVeloxField f rowType = Ok key)
             rightExprs rightKeys)
  /\ length leftKeys = length rightKeys
  /\ mapJoinType type = Ok joinType
  /\ (filter = None <-> post_join_filter = None).
Proof.
  intros Hplan. simpl in Hplan.
  bind_inv Hplan. destruct a as [leftNode' st1].
  bind_inv Hplan. destruct a as [rightNode' st2].
  bind_inv Hplan. rename a into keys.
  bind_inv Hplan. rename a into veloxKeys.
  bind_inv Hplan. rename a into filter'.
  bind_inv Hplan. rename a into joinType'.
  simpl in *. injection Hplan as <- <- <- <- <- <- <- <- <-.
  split; [done|].
  unfold joinKeyFields in Hplan_step1. bind_inv Hplan_step1.
  destruct a as [leftExprs rightExprs]. bind_inv Hplan_step1.
  apply VELOX_CHECK_Ok, Nat.eqb_eq in Hplan_step1_step0.
  injection Hplan_step1 as <-.
  unfold toJoinKeys in Hplan_step2. apply mapM_Ok_Forall2 in Hplan_step2.
  destruct (Forall2_zip_keys
              (fun f key => toVeloxField f
                 ((outputType leftNode').1 ++ (outputType rightNode').1,
                  (outputType leftNode').2 ++ (outputType rightNode').2)
                 = Ok key)
              (fun f key => toVeloxField f
                 ((outputType leftNode').1 ++ (outputType rightNode').1,
                  (outputType leftNode').2 ++ (outputType rightNode').2)
                 = Ok key)
              leftExprs rightExprs veloxKeys Hplan_step1_step0)
    as [Hleft Hright].
  { eapply Forall2_impl; [exact Hplan_step2|]. intros key [lk rk] Hkey.
    simpl in *. do 2 bind_inv Hkey. injection Hkey as <- <-. done. }
  split; [by exists leftExprs, rightExprs|].
  split; [by rewrite !length_fmap|].
  split; [done|].
  destruct post_join_filter as [sFilter|].
  - bind_inv Hplan_step3. injection Hplan_step3 as <-. by split.
  - injection Hplan_step3 as <-. by split.
Qed.

(** X21: the outputs of an aggregation are named after the node's own id and
    numbered after the grouping keys: with [G] grouping expressions, in
    all groupings together, and [M] measures, the [M] aggregate names take
    the positions [G] to [G + M - 1]; there is one key per grouping
    expression, one aggregate and one empty mask per measure, and the step
    is the one of the first measure whatever the phases of the others. *)
Theorem aggregation_names_follow_the_grouping_keys sInput groupings
    measures st plan st' :
  toVeloxPlanRel functionMap_ createBigintValues createDoubleValues
    toVeloxExpr validationMode_ freshSplitInfo inputNodesMap_ makeNodeName
    toVeloxPlanVirtualTable findVeloxFunction toVeloxExpression
    toVeloxField outputType (RelAggregate (Some sInput) groupings measures) st
  = Ok (plan, st') ->
  exists source st1 step groupingKeys aggregates,
    toVeloxPlanRel functionMap_ createBigintValues createDoubleValues
      toVeloxExpr validationMode_ freshSplitInfo inputNodesMap_ makeNodeName
      toVeloxPlanVirtualTable findVeloxFunction toVeloxExpression
      toVeloxField outputType sInput st = Ok (source, st1)
    /\ plan = AggregationNode (pretty (planNodeId_ st1)) step groupingKeys []
                (map (makeNodeName (planNodeId_ st1))
                   (seq (length (concat groupings)) (length measures)))
                aggregates (replicate (length measures) None) false source
    /\ setPhase (take 1 measures) = Ok step
    /\ length groupingKeys = length (concat groupings)
    /\ length aggregates = length measures
    /\ planNodeId_ st' = S (planNodeId_ st1).
Proof.
  intros Hplan. simpl in Hplan.
  bind_inv Hplan. destruct a as [source st1]. bind_inv Hplan.
  rename a into step. unfold toVeloxAgg in Hplan. do 2 bind_inv Hplan.
  simpl in Hplan. injection Hplan as <- <-.
  exists source, st1, step, a, a0. split; [done|]. split; [done|].
  split; [by destruct measures|].
  split; [by eapply mapM_Ok_length|].
  split; [by eapply mapM_Ok_length|done].
Qed.

(** X22: the outputs of a projection are named after the node's own id and
    their positions, and there is one projection per expression of the
    ProjectRel, in order, translated against the output type of the
    input. *)
Theorem project_names_are_positional sInput expressions st plan st' :
  toVeloxPlanRel functionMap_ createBigintValues createDoubleValues
    toVeloxExpr validationMode_ freshSplitInfo inputNodesMap_ makeNodeName
    toVeloxPlanVirtualTable findVeloxFunction toVeloxExpression
    toVeloxField outputType (RelProject (Some sInput) expressions) st
  = Ok (plan, st') ->
  exists source st1 projections,
    toVeloxPlanRel functionMap_ createBigintValues createDoubleValues
      toVeloxExpr validationMode_ freshSplitInfo inputNodesMap_ makeNodeName
      toVeloxPlanVirtualTable findVeloxFunction toVeloxExpression
      toVeloxField outputType sInput st = Ok (source, st1)
    /\ plan = ProjectNode (pretty (planNodeId_ st1))
                (map (makeNodeName (planNodeId_ st1))
                   (seq 0 (length expressions)))
                projections source
    /\ Forall2 (fun expr projection =>
                  toVeloxExpression expr (outputType source) = Ok projection)
         expressions projections
    /\ planNodeId_ st' = S (planNodeId_ st1).
Proof.
  intros Hplan. simpl in Hplan.
  bind_inv Hplan. destruct a as [source st1]. bind_inv Hplan.
  simpl in *. injection Hplan as <- <-.
  exists source, st1, a. split; [done|]. split; [done|].
  split; [by apply mapM_Ok_Forall2|done].
Qed.

End RelationTreeShape.

Section PlanLevel.

Lemma constructFuncMap_snoc sExtensions sExtension functionMap_ :
  constructFuncMap (sExtensions ++ [sExtension]) functionMap_
  = match sExtension with
    | ExtensionFunction id name =>
        <[id := name]> (constructFuncMap sExtensions functionMap_)
    | ExtensionOther => constructFuncMap sExtensions functionMap_
    end.
Proof. unfold constructFuncMap. by rewrite foldl_app. Qed.

(** X23: the function map after a plan: an anchor is bound to the name of the
    last extension function of the plan that declares it, and an anchor
    that the plan does not declare keeps what the converter had before,
    so the names of an earlier plan stay visible. *)
Theorem function_map_takes_last_registration sExtensions functionMap_ id :
  constructFuncMap sExtensions functionMap_ !! id
  = match last (registrations id sExtensions) with
    | Some name => Some name
    | None => functionMap_ !! id
    end.
Proof.
  induction sExtensions as [|sExtension sExtensions IH] using rev_ind;
    [done|].
  rewrite constructFuncMap_snoc. unfold registrations in *.
  rewrite omap_app. simpl.
  destruct sExtension as [anchor name|]; simpl.
  - case_decide as Hanchor.
    + subst. by rewrite last_snoc, lookup_insert_eq.
    + rewrite app_nil_r, lookup_insert_ne by done. apply IH.
  - rewrite app_nil_r. apply IH.
Qed.

Variable createBigintValues : list Z -> bool -> Filter.
Variable createDoubleValues : list double -> bool -> Filter.
Variable validationMode_ : bool.
Variable freshSplitInfo : SplitInfo.
Variable inputNodesMap_ : gmap Z PlanNode.
Variable makeNodeName : nat -> nat -> string.
Variable toVeloxPlanVirtualTable :
  ReadRel -> list string -> list TypeKind -> ConverterState ->
  result (PlanNode * ConverterState).
Variable findVeloxFunction : gmap N string -> N -> result string.
Variable outputType : VeloxPlan -> RowType.
Variable exprConverter_toVeloxExpr :
  gmap N string ->
  ScalarFunction -> list string -> list TypeKind -> result ITypedExpr.
Variable exprConverter_toVeloxExpression :
  gmap N string -> Expression -> RowType -> result ITypedExpr.
Variable exprConverter_toVeloxField :
  gmap N string -> FieldReference -> RowType -> result ITypedExpr.

(** X24: a plan is converted from its first relation that is a root or a
    relation: the entries before it that are neither are skipped, and
    whatever follows it is never looked at, not even when the conversion
    of that first relation fails. *)
Theorem plan_converts_first_relation_only sExtensions skipped sRel rest
    functionMap_ st :
  Forall (fun r => r = PlanRelNotSet) skipped ->
  sRel <> PlanRelNotSet ->
  toVeloxPlanPlan createBigintValues createDoubleValues validationMode_
    freshSplitInfo inputNodesMap_ makeNodeName toVeloxPlanVirtualTable
    findVeloxFunction outputType exprConverter_toVeloxExpr
    exprConverter_toVeloxExpression exprConverter_toVeloxField
    (mkPlan sExtensions (skipped ++ sRel :: rest)) functionMap_ st
  = toVeloxPlanPlan createBigintValues createDoubleValues validationMode_
      freshSplitInfo inputNodesMap_ makeNodeName toVeloxPlanVirtualTable
      findVeloxFunction outputType exprConverter_toVeloxExpr
      exprConverter_toVeloxExpression exprConverter_toVeloxField
      (mkPlan sExtensions [sRel]) functionMap_ st.
Proof.
  intros Hskipped Hrel. unfold toVeloxPlanPlan. f_equal. simpl.
  induction Hskipped as [|r skipped -> _ IH]; simpl; [|exact IH].
  by destruct sRel.
Qed.

End PlanLevel.

Lemma converted_trees_are_complete_witness :
  Complete registry sampleFindVeloxFunction sampleTree.
Proof.
  apply (converted_trees_are_complete registry sampleBigintValues
           sampleDoubleValues sampleToVeloxExpr false sampleSplitInfo
           inputNodes sampleNodeName sampleVirtualTable
           sampleFindVeloxFunction sampleToVeloxExpression sampleToVeloxField
           sampleOutputType sampleTree (mkState 0 ∅)).
  - reflexivity.
  - vm_compute; reflexivity.
Defined.

Lemma hash_join_keys_resolve_on_joined_row_witness :
  (["n0_0"; "n1_0"], [BIGINT; BIGINT])
  = ((sampleOutputType
        (planOf (convertRel (RelRead (readOf "/data/left.parquet"))
                   (mkState 0 ∅)))).1
     ++ (sampleOutputType
           (planOf (convertRel (RelRead (readOf "/data/right.parquet"))
                      (mkState 1 ∅)))).1,
     (sampleOutputType
        (planOf (convertRel (RelRead (readOf "/data/left.parquet"))
                   (mkState 0 ∅)))).2
     ++ (sampleOutputType
           (planOf (convertRel (RelRead (readOf "/data/right.parquet"))
                      (mkState 1 ∅)))).2)
  /\ (exists leftExprs rightExprs,
        extractJoinKeys registry sampleFindVeloxFunction
          (ecall 14 [col 0; col 1])
        = Ok (leftExprs, rightExprs)
        /\ Forall2 (fun f key =>
                      sampleToVeloxField f
                        (["n0_0"; "n1_0"], [BIGINT; BIGINT]) = Ok key)
             leftExprs [FieldAccessTypedExpr BIGINT "n0_0"]
        /\ Forall2 (fun f key =>
                      sampleToVeloxField f
                        (["n0_0"; "n1_0"], [BIGINT; BIGINT]) = Ok key)
             rightExprs [FieldAccessTypedExpr BIGINT "n1_0"])
  /\ length [FieldAccessTypedExpr BIGINT "n0_0"]
     = length [FieldAccessTypedExpr BIGINT "n1_0"]
  /\ mapJoinType JOIN_TYPE_INNER = Ok kInner
  /\ ((None : option ITypedExpr) = None <-> (None : option Expression) = None).
Proof.
  refine (hash_join_keys_resolve_on_joined_row registry sampleBigintValues
            sampleDoubleValues sampleToVeloxExpr false sampleSplitInfo
            inputNodes sampleNodeName sampleVirtualTable
            sampleFindVeloxFunction sampleToVeloxExpression sampleToVeloxField
            sampleOutputType
            (RelRead (readOf "/data/left.parquet"))
            (RelRead (readOf "/data/right.parquet"))
            (ecall 14 [col 0; col 1]) None JOIN_TYPE_INNER (mkState 0 ∅)
            "2" kInner _ _ None _ _ _
            (stateOf (convertRel sampleJoin (mkState 0 ∅))) _).
  vm_compute; reflexivity.
Defined.

Lemma aggregation_names_follow_the_grouping_keys_witness :
  exists source st1 step groupingKeys aggregates,
    convertRel sampleJoin (mkState 0 ∅) = Ok (source, st1)
    /\ planOf (convertRel sampleAggregate (mkState 0 ∅))
       = AggregationNode (pretty (planNodeId_ st1)) step groupingKeys []
           (map (sampleNodeName (planNodeId_ st1))
              (seq (length (concat [[col 0]])) (length sampleMeasures)))
           aggregates (replicate (length sampleMeasures) None) false source
    /\ setPhase (take 1 sampleMeasures) = Ok step
    /\ length groupingKeys = length (concat [[col 0]])
    /\ length aggregates = length sampleMeasures
    /\ planNodeId_ (stateOf (convertRel sampleAggregate (mkState 0 ∅)))
       = S (planNodeId_ st1).
Proof.
  refine (aggregation_names_follow_the_grouping_keys registry
            sampleBigintValues sampleDoubleValues sampleToVeloxExpr false
            sampleSplitInfo inputNodes sampleNodeName sampleVirtualTable
            sampleFindVeloxFunction sampleToVeloxExpression sampleToVeloxField
            sampleOutputType sampleJoin [[col 0]] sampleMeasures
            (mkState 0 ∅) _ _ _).
  vm_compute; reflexivity.
Defined.

Lemma project_names_are_positional_witness :
  exists source st1 projections,
    convertRel (RelFilter (Some sampleJoin) (ecall 4 [col 0; i64 10]))
      (mkState 0 ∅) = Ok (source, st1)
    /\ planOf (convertRel sampleTree (mkState 0 ∅))
       = ProjectNode (pretty (planNodeId_ st1))
           (map (sampleNodeName (planNodeId_ st1)) (seq 0 2))
           projections source
    /\ Forall2 (fun expr projection =>
                  sampleToVeloxExpression expr (sampleOutputType source)
                  = Ok projection)
         [col 1; col 0] projections
    /\ planNodeId_ (stateOf (convertRel sampleTree (mkState 0 ∅)))
       = S (planNodeId_ st1).
Proof.
  refine (project_names_are_positional registry sampleBigintValues
            sampleDoubleValues sampleToVeloxExpr false sampleSplitInfo
            inputNodes sampleNodeName sampleVirtualTable
            sampleFindVeloxFunction sampleToVeloxExpression sampleToVeloxField
            sampleOutputType
            (RelFilter (Some sampleJoin) (ecall 4 [col 0; i64 10]))
            [col 1; col 0] (mkState 0 ∅) _ _ _).
  vm_compute; reflexivity.
Defined.

Lemma plan_converts_first_relation_only_witness :
  convertPlan
    (mkPlan [ExtensionFunction 14 "eq:i64_i64"]
       ([PlanRelNotSet] ++ PlanRelRel sampleJoin :: [PlanRelRel RelOther]))
    registry (mkState 0 ∅)
  = convertPlan
      (mkPlan [ExtensionFunction 14 "eq:i64_i64"] [PlanRelRel sampleJoin])
      registry (mkState 0 ∅).
Proof.
  apply (plan_converts_first_relation_only sampleBigintValues
           sampleDoubleValues false sampleSplitInfo inputNodes sampleNodeName
           sampleVirtualTable sampleFindVeloxFunction sampleOutputType
           (fun _ => sampleToVeloxExpr) (fun _ => sampleToVeloxExpression)
           (fun _ => sampleToVeloxField)
           [ExtensionFunction 14 "eq:i64_i64"] [PlanRelNotSet]
           (PlanRelRel sampleJoin) [PlanRelRel RelOther] registry
           (mkState 0 ∅)).
  - repeat constructor.
  - discriminate.
Defined.


(** * Virtual tables *)

Lemma at_index_Ok {A} what (l : list A) i a :
  at_index what l i = Ok a -> l !! i = Some a.
Proof. unfold at_index. destruct (l !! i); by intros [= <-]. Qed.

Section VirtualTableFacts.

Variable toVeloxLiteral : Literal -> result LiteralExpr.
Variable VectorPtr : Type.
Variable setVectorFromVariants : TypeKind -> list variant -> result VectorPtr.

Lemma batchChildLoop_values fields col batchSize batchIds :
  forall batchChild batch,
    batchChildLoop toVeloxLiteral fields col batchSize batchIds batchChild
    = Ok batch ->
    exists values,
      batch = batchChild ++ values
      /\ Forall2 (fun batchId value =>
                    exists field,
                      fields !! (col * batchSize + batchId)%nat = Some field
                      /\ toVeloxLiteral field = Ok (ConstantValue value))
           batchIds values.
Proof.
  induction batchIds as [|batchId rest IH]; intros batchChild batch; simpl.
  - intros [= <-]. exists []. by rewrite app_nil_r.
  - intros H. do 2 bind_inv H. destruct a0 as [value| |]; try discriminate.
    apply IH in H as (values & -> & Hall).
    exists (value :: values). rewrite <- app_assoc. split; [done|].
    constructor; [|done]. exists a. split; [|done].
    by eapply at_index_Ok.
Qed.

Lemma Forall2_seq_take_drop {A B} (R : A -> B -> Prop) (l : list A)
    (offset : nat) n :
  forall start values,
    Forall2 (fun i value =>
               exists x, l !! (offset + i)%nat = Some x /\ R x value)
      (seq start n) values ->
    Forall2 R (take n (drop (offset + start) l)) values.
Proof.
  induction n as [|n IH]; intros start values; simpl.
  - inversion 1. constructor.
  - inversion 1 as [|? value ? values' (x & Hx & HR) Hrest]; subst.
    rewrite (drop_S _ _ _ Hx). simpl. constructor; [done|].
    replace (S (offset + start)) with (offset + S start)%nat by lia.
    by apply IH.
Qed.

Lemma childrenLoop_batches fields types batchSize n :
  forall start children result,
    childrenLoop toVeloxLiteral VectorPtr setVectorFromVariants fields types
      batchSize (seq start n) children = Ok result ->
    exists batches made,
      result = children ++ made
      /\ length batches = n
      /\ Forall (fun batch => length batch = batchSize) batches
      /\ Forall2 (fun field value =>
                    toVeloxLiteral field = Ok (ConstantValue value))
           (take (n * batchSize) (drop (start * batchSize) fields))
           (concat batches)
      /\ Forall2 (fun typed child =>
                    setVectorFromVariants typed.1 typed.2 = Ok child)
           (zip (drop start types) batches) made.
Proof.
  induction n as [|n IH]; intros start children result; simpl.
  - intros [= <-]. exists [], []. rewrite app_nil_r.
    repeat split; try constructor. destruct (drop start types); constructor.
  - intros H. do 3 bind_inv H.
    apply IH in H as (batches & made & -> & Hlen & Hsizes & Hfields & Hmade).
    apply batchChildLoop_values in H_step0 as (values & -> & Hvalues).
    simpl in *.
    assert (length values = batchSize) as Hbatch.
    { apply Forall2_length in Hvalues. by rewrite length_seq in Hvalues. }
    exists (values :: batches), (a1 :: made).
    rewrite <- app_assoc. split; [done|]. split; [simpl; lia|].
    split; [by constructor|]. split.
    + simpl. rewrite <- take_take_drop, drop_drop.
      apply Forall2_app; [|by replace (start * batchSize + batchSize)%nat
                                with (batchSize + start * batchSize)%nat
                                by lia].
      apply (Forall2_seq_take_drop _ _ (start * batchSize) batchSize 0) in
        Hvalues.
      by rewrite Nat.add_0_r in Hvalues.
    + apply at_index_Ok in H_step. rewrite (drop_S _ _ _ H_step). simpl.
      by constructor.
Qed.

(** X25: the fields of a struct of values are laid out column by column: when
    the children of its row vector can be built, there is one batch of
    values per column, each of the batch size, the batches one after the
    other are the values of the fields in their order, and each child is
    the vector made from the type of its column and its batch. *)
Theorem virtual_table_fields_are_column_major fields types batchSize
    children :
  length fields = (batchSize * length types)%nat ->
  childrenLoop toVeloxLiteral VectorPtr setVectorFromVariants fields types
    batchSize (seq 0 (length types)) [] = Ok children ->
  exists batches,
    length batches = length types
    /\ Forall (fun batch => length batch = batchSize) batches
    /\ Forall2 (fun field value =>
                  toVeloxLiteral field = Ok (ConstantValue value))
         fields (concat batches)
    /\ Forall2 (fun typed child =>
                  setVectorFromVariants typed.1 typed.2 = Ok child)
         (zip types batches) children.
Proof.
  intros Hfields Hloop.
  apply childrenLoop_batches in Hloop
    as (batches & made & -> & Hlen & Hsizes & Hvalues & Hmade).
  exists batches. simpl in *.
  change (drop 0 fields) with fields in Hvalues.
  change (drop 0 types) with types in Hmade.
  rewrite take_ge in Hvalues by lia. done.
Qed.

Lemma vectorsLoop_rows types batchSize rows :
  forall vectors result,
    vectorsLoop toVeloxLiteral VectorPtr setVectorFromVariants types
      batchSize rows vectors = Ok result ->
    exists made,
      result = vectors ++ made
      /\ length made = length rows
      /\ Forall (fun row => length row = (batchSize * length types)%nat) rows
      /\ Forall (fun vector =>
                   vectorSize VectorPtr vector = batchSize
                   /\ length (vectorChildren VectorPtr vector) = length types)
           made.
Proof.
  induction rows as [|rowValue rest IH]; intros vectors result; simpl.
  - intros [= <-]. exists []. by rewrite app_nil_r.
  - intros H. do 2 bind_inv H.
    apply VELOX_CHECK_Ok, Nat.eqb_eq in H_step.
    apply IH in H as (made & -> & Hlen & Hrows & Hmade).
    apply childrenLoop_batches in H_step0
      as (batches & children & -> & Hbatches & _ & _ & Hchildren).
    exists (mkRowVector VectorPtr batchSize children :: made).
    rewrite <- app_assoc. split; [done|]. split; [simpl; lia|].
    split; [by constructor|]. constructor; [|done]. simpl. split; [done|].
    apply Forall2_length in Hchildren.
    change (drop 0 types) with types in Hchildren.
    rewrite length_zip in Hchildren. lia.
Qed.

(** X26: values consistency, for a virtual table with at least one struct
    of values and a row type with at least one column (with none, the
    access to the last struct, or the division by the number of columns,
    is undefined in the code).  The batch size is the number of fields of
    the last struct divided by the number of columns; the table is
    converted only if every struct, the last one included, has exactly
    batch size times columns fields, so all structs have the same number
    of fields, a multiple of the number of columns.  Each struct then
    gives one row vector of the batch size with one child per column, and
    the values node takes the next plan node id. *)
Theorem virtual_table_rows_have_one_width values lastValue type st node
    vectors st' :
  last values = Some lastValue ->
  length type.2 <> 0%nat ->
  toVeloxPlanValues toVeloxLiteral VectorPtr setVectorFromVariants values
    type st = Ok (node, vectors, st') ->
  Forall (fun row =>
            length row
            = (length lastValue / length type.2 * length type.2)%nat)
    values
  /\ length lastValue
     = (length lastValue / length type.2 * length type.2)%nat
  /\ length vectors = length values
  /\ Forall (fun vector =>
               vectorSize VectorPtr vector
               = (length lastValue / length type.2)%nat
               /\ length (vectorChildren VectorPtr vector) = length type.2)
       vectors
  /\ node = ValuesNode (pretty (planNodeId_ st))
  /\ planNodeId_ st' = S (planNodeId_ st).
Proof.
  intros Hlast Hcolumns. unfold toVeloxPlanValues. rewrite Hlast.
  destruct (Nat.eqb_spec (length type.2) 0) as [|_]; [contradiction|].
  simpl. intros H. bind_inv H. injection H as <- <- <-.
  apply vectorsLoop_rows in H_step as (made & -> & Hlen & Hrows & Hmade).
  simpl. split; [done|]. split; [|done].
  rewrite Forall_forall in Hrows. apply Hrows.
  apply last_Some_elem_of in Hlast. exact Hlast.
Qed.

End VirtualTableFacts.

Lemma virtual_table_fields_are_column_major_witness :
  exists batches,
    length batches = length [BIGINT; VARCHAR]
    /\ Forall (fun batch => length batch = 3%nat) batches
    /\ Forall2 (fun field value =>
                  sampleToVeloxLiteral field = Ok (ConstantValue value))
         sampleFields (concat batches)
    /\ Forall2 (fun typed child => sampleSetVector typed.1 typed.2 = Ok child)
         (zip [BIGINT; VARCHAR] batches)
         [[VBigint 1; VBigint 2; VBigint 3];
          [VVarchar "a"; VVarchar "b"; VVarchar "c"]].
Proof.
  apply (virtual_table_fields_are_column_major sampleToVeloxLiteral
           (list variant) sampleSetVector sampleFields [BIGINT; VARCHAR] 3).
  - reflexivity.
  - reflexivity.
Defined.

Lemma virtual_table_rows_have_one_width_witness :
  Forall (fun row =>
            length row
            = (length sampleFields
               / length (["a"; "b"], [BIGINT; VARCHAR]).2
               * length (["a"; "b"], [BIGINT; VARCHAR]).2)%nat)
    [sampleFields; sampleFields]
  /\ length sampleFields
     = (length sampleFields / length (["a"; "b"], [BIGINT; VARCHAR]).2
        * length (["a"; "b"], [BIGINT; VARCHAR]).2)%nat
  /\ length
       [mkRowVector (list variant) 3
          [[VBigint 1; VBigint 2; VBigint 3];
           [VVarchar "a"; VVarchar "b"; VVarchar "c"]];
        mkRowVector (list variant) 3
          [[VBigint 1; VBigint 2; VBigint 3];
           [VVarchar "a"; VVarchar "b"; VVarchar "c"]]]
     = length [sampleFields; sampleFields]
  /\ Forall (fun vector =>
               vectorSize (list variant) vector
               = (length sampleFields
                  / length (["a"; "b"], [BIGINT; VARCHAR]).2)%nat
               /\ length (vectorChildren (list variant) vector)
                  = length (["a"; "b"], [BIGINT; VARCHAR]).2)
       [mkRowVector (list variant) 3
          [[VBigint 1; VBigint 2; VBigint 3];
           [VVarchar "a"; VVarchar "b"; VVarchar "c"]];
        mkRowVector (list variant) 3
          [[VBigint 1; VBigint 2; VBigint 3];
           [VVarchar "a"; VVarchar "b"; VVarchar "c"]]]
  /\ ValuesNode "5" = ValuesNode (pretty (planNodeId_ (mkState 5 ∅)))
  /\ planNodeId_ (mkState 6 ∅) = S (planNodeId_ (mkState 5 ∅)).
Proof.
  apply (virtual_table_rows_have_one_width sampleToVeloxLiteral
           (list variant) sampleSetVector [sampleFields; sampleFields]
           sampleFields (["a"; "b"], [BIGINT; VARCHAR]) (mkState 5 ∅)).
  - reflexivity.
  - discriminate.
  - vm_compute; reflexivity.
Defined.


(** * The null check alone *)

Section NullCheck.

Variable functionMap_ : gmap N string.
Variable createBigintValues : list Z -> bool -> Filter.
Variable createDoubleValues : list double -> bool -> Filter.

Lemma mapToFiltersFrom_null_check inputNameList inputTypeList idx name
    indices :
  inputNameList !! idx = Some name ->
  (forall i, i ∈ indices ->
     is_Some (inputNameList !! i)
     /\ exists K, inputTypeList !! i = Some K /\ supportedColumnType K = true) ->
  forall colInfoMap filters,
    colInfoMap !! idx = Some (forbidsNull newFilterInfo) ->
    (forall i, i ∈ indices -> i <> idx ->
       colInfoMap !! i = Some newFilterInfo) ->
    mapToFiltersFrom createBigintValues createDoubleValues indices
      inputNameList inputTypeList colInfoMap filters
    = Ok (if bool_decide (idx ∈ indices) then <[name := IsNotNull]> filters
          else filters).
Proof.
  intros Hname Hcols colInfoMap.
  induction indices as [|i rest IH]; intros filters Hidx Hothers; [done|].
  simpl.
  destruct (Hcols i) as ([iname Hiname] & K & HK & Hsup); [by left|].
  unfold at_index. rewrite HK, Hiname. simpl.
  assert (Hrest : forall filters',
    mapToFiltersFrom createBigintValues createDoubleValues rest
      inputNameList inputTypeList colInfoMap filters'
    = Ok (if bool_decide (idx ∈ rest) then <[name := IsNotNull]> filters'
          else filters')).
  { intros filters'. apply IH; [|done|].
    - intros j Hj. apply Hcols. by right.
    - intros j Hj. apply Hothers. by right. }
  destruct (decide (i = idx)) as [->|Hne].
  - rewrite Hidx. rewrite Hname in Hiname. injection Hiname as <-.
    rewrite (bool_decide_eq_true_2 (idx ∈ idx :: rest)) by by left.
    destruct K; try discriminate Hsup; simpl; rewrite Hrest;
      case_bool_decide; by rewrite ?insert_insert_eq.
  - rewrite (Hothers i) by (done || by left).
    destruct K; try discriminate Hsup; simpl; rewrite Hrest;
      repeat case_bool_decide; try done;
      match goal with
      | H : idx ∈ i :: rest |- _ =>
          apply elem_of_cons in H as [?|?]; congruence
      | H : ¬ idx ∈ i :: rest |- _ => exfalso; apply H; by right
      end.
Qed.

(** X27: a null check that is the only pushdown candidate gives the filter
    [IsNotNull] on its column, not a range without bounds, and no filter
    on any other column. *)
Theorem null_check_alone_gives_IsNotNull scalarFunction idx name
    inputNameList inputTypeList :
  filterNameOf functionMap_ scalarFunction = Ok sIsNotNull ->
  args scalarFunction = [ESelection (DirectStructField idx)] ->
  inputNameList !! idx = Some name ->
  (length inputNameList <= length inputTypeList)%nat ->
  Forall (fun K => supportedColumnType K = true)
    (take (length inputNameList) inputTypeList) ->
  toSubfieldFilters functionMap_ createBigintValues createDoubleValues
    inputNameList inputTypeList [scalarFunction]
  = Ok {[name := IsNotNull]}.
Proof.
  intros Hfn Hargs Hname Hlen Htypes.
  assert (idx < length inputNameList)%nat as Hidx by by eapply lookup_lt_Some.
  assert (forall i, (i < length inputNameList)%nat ->
            exists K, inputTypeList !! i = Some K
                      /\ supportedColumnType K = true) as Hsupported.
  { intros i Hi.
    destruct (lookup_lt_is_Some_2 inputTypeList i) as [K HK]; [lia|].
    exists K. split; [done|].
    rewrite Forall_lookup in Htypes. apply (Htypes i).
    by rewrite lookup_take_lt. }
  destruct (Hsupported idx Hidx) as (K & HK & Hsup).
  unfold toSubfieldFilters. simpl. rewrite Hfn. simpl.
  unfold setFilterMap. rewrite Hfn. simpl. rewrite Hargs. simpl.
  unfold at_index. rewrite HK. simpl.
  assert (onColumn (initColInfoMap inputTypeList) idx forbidsNull
          = Ok (<[idx := forbidsNull newFilterInfo]>
                  (initColInfoMap inputTypeList))) as Hon.
  { unfold onColumn. rewrite initColInfoMap_lookup.
    rewrite decide_True by lia. done. }
  assert (forall literalVariant,
            setColInfoMap sIsNotNull idx literalVariant false
              (initColInfoMap inputTypeList)
            = Ok (<[idx := forbidsNull newFilterInfo]>
                    (initColInfoMap inputTypeList))) as Hset.
  { intros literalVariant. exact Hon. }
  destruct K; try discriminate Hsup; rewrite Hset; simpl; unfold mapToFilters;
    (rewrite (mapToFiltersFrom_null_check inputNameList inputTypeList idx name);
     [ rewrite bool_decide_eq_true_2; [done|];
       apply list_elem_of_In, in_seq; lia
     | done
     | intros i Hi; apply list_elem_of_In, in_seq in Hi;
       split; [apply lookup_lt_is_Some_2; lia|apply Hsupported; lia]
     | by rewrite lookup_insert_eq
     | intros i Hi Hne; apply list_elem_of_In, in_seq in Hi;
       rewrite lookup_insert_ne by done;
       rewrite initColInfoMap_lookup, decide_True by lia; done ]).
Qed.

End NullCheck.

Lemma null_check_alone_gives_IsNotNull_witness :
  toSubfieldFilters registry sampleBigintValues sampleDoubleValues
    ["c0"; "c1"] [DOUBLE; BIGINT] [call 10 [col 1]]
  = Ok {["c1" := IsNotNull]}.
Proof.
  apply (null_check_alone_gives_IsNotNull registry sampleBigintValues
           sampleDoubleValues (call 10 [col 1]) 1).
  - vm_compute; reflexivity.
  - reflexivity.
  - reflexivity.
  - simpl; lia.
  - repeat constructor.
Defined.


(** * Only known functions are pushed *)

Section KnownFunctions.

Variable functionMap_ : gmap N string.

Lemma separateFiltersFrom_pushable leaves inCols :
  forall notEqualCols pushed remaining pushed' remaining',
    separateFiltersFrom functionMap_ leaves inCols notEqualCols pushed remaining
    = Ok (pushed', remaining') ->
    Forall (Pushable functionMap_) pushed ->
    Forall (Pushable functionMap_) pushed'.
Proof.
  induction leaves as [|g rest IH];
    intros notEqualCols pushed remaining pushed' remaining' Hsep Hpushed.
  - by injection Hsep as <- <-.
  - simpl in Hsep. bind_inv Hsep. rename a into name.
    destruct (negb (String.eqb name sNot) && negb (String.eqb name sOr))
      eqn:Hcommon.
    + bind_inv Hsep. destruct a; [|by eapply IH].
      eapply IH; [exact Hsep|]. apply Forall_app. split; [done|].
      constructor; [|constructor]. exists name. split; [done|].
      right. right. unfold canPushdownCommonFunction in Hsep_step0.
      destruct (inNames name _); [|discriminate]. split; [done|].
      simpl in Hsep_step0. bind_inv Hsep_step0.
      destruct a as [fieldIdx|]; [by exists fieldIdx|discriminate].
    + bind_inv Hsep. destruct a as [[] notEqualCols']; [|by eapply IH].
      eapply IH; [exact Hsep|]. apply Forall_app. split; [done|].
      constructor; [|constructor]. exists name. split; [done|].
      destruct (String.eqb name sNot) eqn:Hnot.
      * left. by apply String.eqb_eq.
      * right. left. destruct (String.eqb name sOr) eqn:Hor;
          [by apply String.eqb_eq|discriminate].
Qed.

(** X28: nothing but the known functions is pushed down: every pushdown
    candidate is a [not], an [or], or a call named [is_not_null], [gte],
    [gt], [lte], [lt], [equal] or [in] that reads as a field, alone or
    with a literal; a leaf of any other name stays in the residual. *)
Theorem only_known_functions_are_pushed leaves pushed remaining leaf :
  separateFilters functionMap_ leaves = Ok (pushed, remaining) ->
  leaf ∈ pushed ->
  Pushable functionMap_ leaf.
Proof.
  unfold separateFilters. intros Hsep Hleaf. bind_inv Hsep.
  apply separateFiltersFrom_pushable in Hsep; [|constructor].
  rewrite Forall_forall in Hsep. by apply Hsep.
Qed.

End KnownFunctions.

Lemma only_known_functions_are_pushed_witness :
  Pushable registry inLeaf.
Proof.
  apply (only_known_functions_are_pushed registry [inLeaf; gteLeaf]
           [inLeaf] [gteLeaf]).
  - vm_compute; reflexivity.
  - left.
Defined.
